(** * backup-demon: a shallow embedding of [main.py] and its properties

    The development follows the source file top-down: path strings and the
    [os.path] helpers the program calls, the directory tree the program
    reads and writes, the JSON documents ([config.json], [checksums.json]),
    then the program's own functions under their source names, and last the
    properties.

    Modelling conventions.
    - A path is a Python [str]; the operating system resolves it to a list
      of components ([locate]).  The modelled file system has no symbolic
      links, so [os.path.realpath] is lexical normalisation against the
      working directory.  [locate] normalises in the same way: a [..]
      drops the component before it, whether or not that component names
      a directory.  The operating system does the same when every
      component it walks through names a directory, in particular for a
      canonical path ([canonical]) in a well-formed tree ([tree_wf]).  The
      program hands the operating system canonical paths, from
      [os.path.realpath] and from [os.walk] below one, except for the
      configured backup destination, which it uses as it is written; the
      properties that depend on how the destination resolves ask for a
      canonical one.
    - The directory tree is a finite map from component lists to nodes.
    - Python sets are lists without duplicates; every statement about them
      is about membership or holds up to permutation.
    - The two JSON documents and the PID-marker file are fields of the
      world of their own: they lie outside the directories the commands
      walk, and writing them does not fail.
    - A call either returns, exits the process ([sys.exit]) or raises. *)

From stdpp Require Import gmap strings list fin_maps sorting.
From Stdlib Require Import ZArith Ascii.

Local Open Scope Z_scope.
Set Warnings "-register-all,-clear-no-such-hyp".

(** ** Python strings *)

Module Str.

(** [s.startswith(c)] for a one-character prefix. *)
Definition starts_with (c : ascii) (s : string) : bool :=
  match s with
  | String c' _ => bool_decide (c' = c)
  | EmptyString => false
  end.

(** [s.endswith(c)] for a one-character suffix. *)
Fixpoint ends_with (c : ascii) (s : string) : bool :=
  match s with
  | EmptyString => false
  | String c' EmptyString => bool_decide (c' = c)
  | String _ s' => ends_with c s'
  end.

(** [c in s]. *)
Fixpoint contains (c : ascii) (s : string) : bool :=
  match s with
  | EmptyString => false
  | String c' s' => bool_decide (c' = c) || contains c s'
  end.

(** [s.replace(c, '')]. *)
Fixpoint remove_char (c : ascii) (s : string) : string :=
  match s with
  | EmptyString => EmptyString
  | String c' s' =>
      if bool_decide (c' = c) then remove_char c s'
      else String c' (remove_char c s')
  end.

(** [s.split('/')]: never empty, [''.split('/') == ['']]. *)
Fixpoint split (c : ascii) (s : string) : list string :=
  match s with
  | EmptyString => [EmptyString]
  | String c' s' =>
      if bool_decide (c' = c) then EmptyString :: split c s'
      else match split c s' with
           | w :: ws => String c' w :: ws
           | [] => [String c' EmptyString]
           end
  end.

(** ['/'.join(l)]. *)
Fixpoint join (c : ascii) (l : list string) : string :=
  match l with
  | [] => EmptyString
  | [w] => w
  | w :: ws => w +:+ String c (join c ws)
  end.

End Str.

(** ** [os.path] on POSIX *)

Definition sep : ascii := "/"%char.

(** A resolved location in the directory tree: the names from the root
    down. *)
Abbreviation path := (list string).

(** [os.path.isabs]. *)
Definition isabs (p : string) : bool := Str.starts_with sep p.

(** The components [commonpath] compares:
    [[c for c in p.split('/') if c and c != '.']]. *)
Definition path_components (p : string) : list string :=
  filter (λ c, c ≠ "" ∧ c ≠ ".") (Str.split sep p).

(** The longest common prefix of two component lists. *)
Fixpoint common_prefix (a b : list string) : list string :=
  match a, b with
  | x :: a', y :: b' => if decide (x = y) then x :: common_prefix a' b' else []
  | _, _ => []
  end.

(** [os.path.commonpath(paths)]: the longest common sub-path, with a
    leading separator when the paths are absolute.  [None] stands for the
    [ValueError] raised on an empty sequence and on a mix of absolute and
    relative paths.  (CPython compares the least and the greatest component
    list of the sequence; that is their longest common prefix.) *)
Definition commonpath (paths : list string) : option string :=
  match paths with
  | [] => None
  | p :: ps =>
      if forallb (λ q, bool_decide (isabs q = isabs p)) ps then
        let common := foldl common_prefix (path_components p)
                            (path_components <$> ps) in
        Some ((if isabs p then String sep "" else "") +:+ Str.join sep common)
      else None
  end.

(** [os.path.join(a, b)] for two arguments. *)
Definition path_join (a b : string) : string :=
  if isabs b then b
  else if bool_decide (a = "") || Str.ends_with sep a then a +:+ b
  else a +:+ String sep b.

(** The loop of [os.path.normpath] over the components of an absolute
    path: empty and ['.'] components are skipped, ['..'] removes the last
    kept component and is dropped at the root. *)
Fixpoint normalize_from (kept : path) (comps : list string) : path :=
  match comps with
  | [] => kept
  | c :: cs =>
      if decide (c = "" ∨ c = ".") then normalize_from kept cs
      else if decide (c = "..") then normalize_from (removelast kept) cs
      else normalize_from (kept ++ [c]) cs
  end.

(** The string of a resolved location: ['/' + '/'.join(comps)]. *)
Definition path_str (p : path) : string := String sep (Str.join sep p).

(** ** JSON documents *)

(** What [json.load] returns.  A Python [dict] keeps its keys in insertion
    order, so an object is an association list. *)
Inductive json :=
| JNull
| JBool (b : bool)
| JInt (n : Z)
| JFloat (repr : string)
| JStr (s : string)
| JList (l : list json)
| JDict (d : list (string * json)).

Abbreviation dict := (list (string * json)).

(** [d.get(k)] / [k in d]. *)
Fixpoint dict_lookup (k : string) (d : dict) : option json :=
  match d with
  | [] => None
  | (k', v) :: d' => if decide (k' = k) then Some v else dict_lookup k d'
  end.

(** [d[k] = v]: an existing key keeps its position, a new key goes last. *)
Fixpoint dict_set (k : string) (v : json) (d : dict) : dict :=
  match d with
  | [] => [(k, v)]
  | (k', v') :: d' =>
      if decide (k' = k) then (k, v) :: d' else (k', v') :: dict_set k v d'
  end.

(** [d.get(k, default)]. *)
Definition dict_get (k : string) (default : json) (d : dict) : json :=
  match dict_lookup k d with Some v => v | None => default end.

(** The content of a document file, by what [json.load] does with it.  The
    file is opened in text mode: bytes that are not text in the locale's
    encoding make the read raise [UnicodeDecodeError]; text that is not a
    JSON document makes the parser raise [JSONDecodeError]; any other
    content decodes to a value, and [json.dump] writes a value that
    [json.load] reads back. *)
Inductive content :=
| Garbage (raw : string)
| Document (v : json)
| Undecodable.

(** ** The world the program runs in *)

Inductive node :=
| NFile (data : string)
| NDir
| NSpecial.

#[global] Instance node_eq_dec : EqDecision node.
Proof. solve_decision. Defined.

Inductive level := INFO | WARNING | ERROR.

#[global] Instance level_eq_dec : EqDecision level.
Proof. solve_decision. Defined.

(** The records sent to the logger, one constructor per message of the
    source. *)
Inductive event :=
| ConfigLoaded
| ConfigBadInterval
| ConfigBadDestination
| ConfigBadItems
| ConfigNotFound
| ConfigNotJson
| JsonSaved
| JsonSaveError
| ChecksumsLoaded
| ChecksumsNotFound
| ChecksumsNotJson
| ChecksumAccessError (file : string)
| ChecksumOtherError (file : string)
| FileCopied (source destination : string)
| CopyError (source destination : string)
| CycleDone
| DaemonStopped (pid : Z)
| DaemonStopError (pid : Z)
| PidfileRemoved
| PidfileNotFound
| IntervalRejected
| IntervalChanged (interval : Z)
| PathInvalid (p : string)
| MakedirsError (p : string)
| DirectoryCreated (p : string)
| OldFolderMissing (p : string)
| FileMoved (file destination : string)
| MoveError (source : string)
| OldFolderRemoved (p : string)
| ChecksumsCleared
| ChecksumsClearError
| ChecksumsMissingForClear
| DestinationChanged (p : string)
| DestinationChangeError
| BackupFolderMissing (p : string)
| RemoveFileError (file : string)
| RemoveDirError (dir : string)
| BackupFolderCleared (p : string)
| ClearError
| ItemsListed
| ItemsListEmpty
| ItemPathMissing (p : string)
| ItemAlreadyListed (p : string)
| ItemAdded (p : string)
| ItemRemoved (p : string)
| ItemNotListed (p : string)
| TargetNotDirectory (p : string)
| PasteFolderMissing (p : string)
| BackupPasted (p : string)
| PasteError.

Record world := World {
  cwd : string;                     (* working directory, absolute *)
  install_dir : string;             (* dirname(abspath(__file__)) *)
  tree : gmap path node;            (* the directory tree below the root *)
  denied : gset path;               (* entries the OS refuses to read, change or remove *)
  config_json : option content;     (* PATH_TO_CONFIG_JSON *)
  checksums_json : option content;  (* PATH_TO_CHECKSUMS_JSON *)
  pidfile : option string;          (* /tmp/backupd.pid *)
  processes : gset Z;               (* pids, other than the caller's, a signal can be delivered to *)
  terminated : list Z;              (* SIGTERM deliveries, latest first *)
  log : list (level * event)        (* logger records, latest first *)
}.

Inductive exn :=
| ValueError | TypeError | AttributeError | UnicodeDecodeError | OverflowError
| FileNotFoundError | FileExistsError | IsADirectoryError
| NotADirectoryError | PermissionError | ProcessLookupError | OSError.

(** How a call ends: it returns, the process exits ([sys.exit]), an
    exception propagates, or the model's recursion budget is used up. *)
Inductive outcome (A : Type) :=
| Ret (a : A)
| Exit (status : Z)
| Raise (e : exn)
| OutOfFuel.
Arguments Ret {A} a.
Arguments Exit {A} status.
Arguments Raise {A} e.
Arguments OutOfFuel {A}.

Definition M (A : Type) : Type := world → outcome A * world.

#[global] Instance M_ret : MRet M := λ A a w, (Ret a, w).
#[global] Instance M_bind : MBind M := λ A B f m w,
  match m w with
  | (Ret a, w') => f a w'
  | (Exit c, w') => (Exit c, w')
  | (Raise e, w') => (Raise e, w')
  | (OutOfFuel, w') => (OutOfFuel, w')
  end.

Definition get_world : M world := λ w, (Ret w, w).
Definition raise {A} (e : exn) : M A := λ w, (Raise e, w).
Definition sys_exit {A} (status : Z) : M A := λ w, (Exit status, w).

(** [try: m except Exception: handler] ([sys.exit] raises [SystemExit],
    which is not an [Exception] and passes through). *)
Definition try_except {A} (m : M A) (handler : exn → M A) : M A := λ w,
  match m w with
  | (Raise e, w') => handler e w'
  | r => r
  end.

(** The exceptions that are [OSError]s. *)
Definition is_os_error (e : exn) : bool :=
  match e with
  | ValueError | TypeError | AttributeError
  | UnicodeDecodeError | OverflowError => false
  | _ => true
  end.

(** [try: m except OSError: handler]. *)
Definition try_except_os {A} (m : M A) (handler : exn → M A) : M A := λ w,
  match m w with
  | (Raise e, w') => if is_os_error e then handler e w' else (Raise e, w')
  | r => r
  end.

(** [for x in l: body]. *)
Fixpoint for_each {A} (l : list A) (body : A → M ()) : M () :=
  match l with
  | [] => mret ()
  | x :: l' => body x ;; for_each l' body
  end.

(** [for x in l: acc = body(x, acc)]: a loop that updates local variables. *)
Fixpoint for_fold {A B} (l : list A) (body : A → B → M B) (acc : B) : M B :=
  match l with
  | [] => mret acc
  | x :: l' => acc' ← body x acc; for_fold l' body acc'
  end.

(** [if b: m]. *)
Definition when (b : bool) (m : M ()) : M () :=
  if b then m else mret ().

(** The world with one field replaced. *)
Definition with_tree (t : gmap path node) (w : world) : world :=
  World (cwd w) (install_dir w) t (denied w) (config_json w)
        (checksums_json w) (pidfile w) (processes w) (terminated w) (log w).

Definition with_config_json (c : option content) (w : world) : world :=
  World (cwd w) (install_dir w) (tree w) (denied w) c
        (checksums_json w) (pidfile w) (processes w) (terminated w) (log w).

Definition with_checksums_json (c : option content) (w : world) : world :=
  World (cwd w) (install_dir w) (tree w) (denied w) (config_json w)
        c (pidfile w) (processes w) (terminated w) (log w).

Definition with_pidfile (c : option string) (w : world) : world :=
  World (cwd w) (install_dir w) (tree w) (denied w) (config_json w)
        (checksums_json w) c (processes w) (terminated w) (log w).

Definition with_terminated (l : list Z) (w : world) : world :=
  World (cwd w) (install_dir w) (tree w) (denied w) (config_json w)
        (checksums_json w) (pidfile w) (processes w) l (log w).

Definition with_log (l : list (level * event)) (w : world) : world :=
  World (cwd w) (install_dir w) (tree w) (denied w) (config_json w)
        (checksums_json w) (pidfile w) (processes w) (terminated w) l.

(** [logging.info / warning / error]. *)
Definition logging (lv : level) (e : event) : M () := λ w,
  (Ret (), with_log ((lv, e) :: log w) w).

Definition set_tree (t : gmap path node) : M () := λ w,
  (Ret (), with_tree t w).

Definition set_config_json (c : option content) : M () := λ w,
  (Ret (), with_config_json c w).

Definition set_checksums_json (c : option content) : M () := λ w,
  (Ret (), with_checksums_json c w).

Definition set_pidfile (c : option string) : M () := λ w,
  (Ret (), with_pidfile c w).

(** ** The operating system *)

(** The node at a location; the root is always a directory. *)
Definition node_at (t : gmap path node) (p : path) : option node :=
  match p with
  | [] => Some NDir
  | _ => t !! p
  end.

(** How the OS resolves a path string: relative to the working directory,
    then component by component as [os.path.abspath] does.  (Exact when
    the components walked through name directories; see the conventions at
    the head of the file.) *)
Definition locate (w : world) (p : string) : path :=
  normalize_from [] (Str.split sep (path_join (cwd w) p)).

(** [os.stat]: the node a path string names; the empty string names
    nothing. *)
Definition stat (w : world) (p : string) : option node :=
  if decide (p = "") then None else node_at (tree w) (locate w p).

(** [os.path.realpath]; without symbolic links it is [os.path.abspath]. *)
Definition realpath (w : world) (p : string) : string :=
  path_str (locate w p).

Definition os_path_exists (w : world) (p : string) : bool :=
  bool_decide (is_Some (stat w p)).

Definition os_path_isdir (w : world) (p : string) : bool :=
  bool_decide (stat w p = Some NDir).

(** The list without its leading empty strings. *)
Fixpoint drop_leading_empty (l : list string) : list string :=
  match l with
  | "" :: l' => drop_leading_empty l'
  | _ => l
  end.

(** [os.path.dirname]: everything before the last separator, without
    trailing separators unless it consists of separators only. *)
Definition dirname (p : string) : string :=
  let parts := removelast (Str.split sep p) in
  match parts with
  | [] => ""
  | _ =>
      if forallb (λ c, bool_decide (c = "")) parts
      then Str.join sep parts +:+ String sep ""
      else Str.join sep (reverse (drop_leading_empty (reverse parts)))
  end.

(** [os.path.relpath(p, start)]. *)
Definition relpath (w : world) (p start : string) : string :=
  let start_list := locate w start in
  let path_list := locate w p in
  let i := length (common_prefix start_list path_list) in
  let rel_list := replicate (length start_list - i) ".." ++ drop i path_list in
  match rel_list with
  | [] => "."
  | _ => Str.join sep rel_list
  end.

(** [k] with the leading [p] removed, when [p] leads [k]. *)
Fixpoint strip_prefix (p k : path) : option path :=
  match p, k with
  | [], _ => Some k
  | x :: p', y :: k' => if decide (x = y) then strip_prefix p' k' else None
  | _ :: _, [] => None
  end.

(** The entries of the directory at [p], by name. *)
Definition children (t : gmap path node) (p : path) : list (string * node) :=
  omap (λ kv, match strip_prefix p kv.1 with
              | Some [name] => Some (name, kv.2)
              | _ => None
              end) (map_to_list t).

Definition is_dir_node (n : node) : bool :=
  match n with NDir => true | _ => false end.

(** [os.scandir] as [os.walk] uses it: the names of the sub-directories
    and of the other entries; [None] when the listing fails. *)
Definition scandir (w : world) (top : string) : option (list string * list string) :=
  match stat w top with
  | Some NDir =>
      if bool_decide (locate w top ∈ denied w) then None
      else
        let entries := children (tree w) (locate w top) in
        Some ((filter (λ e, is_dir_node e.2 = true) entries).*1,
              (filter (λ e, is_dir_node e.2 = false) entries).*1)
  | _ => None
  end.

(** [for root, dirs, files in os.walk(top): acc = body(root, dirs, files, acc)].
    The walk is top-down and lazy: a directory is listed when the walk
    reaches it, in the world the earlier iterations left; a listing that
    fails is skipped. *)
Fixpoint os_walk {A} (fuel : nat) (top : string)
    (body : string → list string → list string → A → M A) (acc : A) : M A :=
  match fuel with
  | O => λ w, (OutOfFuel, w)
  | S fuel' =>
      w ← get_world;
      match scandir w top with
      | None => mret acc
      | Some (dirs, files) =>
          acc' ← body top dirs files acc;
          for_fold dirs (λ d a, os_walk fuel' (path_join top d) body a) acc'
      end
  end.

(** The non-empty prefixes of a location, shortest first. *)
Definition ancestors_and_self (p : path) : list path :=
  (λ n, take n p) <$> seq 1 (length p).

(** Some existing entry at or below [p] is denied. *)
Definition denied_below (w : world) (p : path) : bool :=
  existsb (λ q, bool_decide (p `prefix_of` q) &&
                bool_decide (is_Some (node_at (tree w) q)))
          (elements (denied w)).

(** [os.makedirs(name)]: creates the directory and its missing parents.
    (For a canonical name in a well-formed tree the call creates nothing
    when it raises: the parents that are missing come after those that
    exist.) *)
Definition makedirs (name : string) : M () := λ w,
  let chain := ancestors_and_self (locate w name) in
  if decide (name = "") then (Raise FileNotFoundError, w)
  else if bool_decide (is_Some (stat w name)) then (Raise FileExistsError, w)
  else if existsb (λ q, match tree w !! q with
                        | Some NDir | None => false
                        | Some _ => true
                        end) chain
  then (Raise NotADirectoryError, w)
  else if existsb (λ q, bool_decide (q ∈ denied w)) chain
  then (Raise PermissionError, w)
  else set_tree (foldr (λ q t, match t !! q with
                               | None => <[q := NDir]> t
                               | Some _ => t
                               end) (tree w) chain) w.

(** [shutil.rmtree(name)]: removes a directory and everything below it. *)
Definition rmtree (name : string) : M () := λ w,
  let p := locate w name in
  match stat w name with
  | None => (Raise FileNotFoundError, w)
  | Some NDir =>
      if denied_below w p then (Raise PermissionError, w)
      else if decide (p = []) then (Raise OSError, w)
      else set_tree (filter (λ kv, ¬ p `prefix_of` kv.1) (tree w)) w
  | Some _ => (Raise NotADirectoryError, w)
  end.

(** [os.remove(name)]: removes an entry that is not a directory. *)
Definition os_remove (name : string) : M () := λ w,
  let p := locate w name in
  match stat w name with
  | None => (Raise FileNotFoundError, w)
  | Some NDir => (Raise IsADirectoryError, w)
  | Some _ =>
      if bool_decide (p ∈ denied w) then (Raise PermissionError, w)
      else set_tree (delete p (tree w)) w
  end.

(** [open(name, 'rb')] followed by reading to the end.  A name that leads
    through an entry that is not a directory is refused with
    [NotADirectoryError], any other missing name with
    [FileNotFoundError]. *)
Definition read_file (name : string) : M string := λ w,
  match stat w name with
  | None =>
      if existsb (λ q, match tree w !! q with
                       | Some NDir | None => false
                       | Some _ => true
                       end) (ancestors_and_self (locate w name))
      then (Raise NotADirectoryError, w)
      else (Raise FileNotFoundError, w)
  | Some NDir => (Raise IsADirectoryError, w)
  | Some NSpecial => (Raise OSError, w)
  | Some (NFile data) =>
      if bool_decide (locate w name ∈ denied w) then (Raise PermissionError, w)
      else (Ret data, w)
  end.

(** Creating or replacing the entry at [p] by [n] (a file or special
    node), as [open(..., 'wb')] and [os.rename] do at their target. *)
Definition put_entry (p : path) (n : node) : M () := λ w,
  match node_at (tree w) (removelast p) with
  | None => (Raise FileNotFoundError, w)
  | Some NDir =>
      match node_at (tree w) p with
      | Some NDir => (Raise IsADirectoryError, w)
      | Some NSpecial => (Raise OSError, w)
      | _ =>
          if bool_decide (p ∈ denied w) then (Raise PermissionError, w)
          else set_tree (<[p := n]> (tree w)) w
      end
  | Some _ => (Raise NotADirectoryError, w)
  end.

(** [os.path.samefile(a, b)]: both exist and are the same entry. *)
Definition samefile (a b : string) : M bool := λ w,
  match stat w a, stat w b with
  | Some _, Some _ => (Ret (bool_decide (locate w a = locate w b)), w)
  | _, _ => (Raise FileNotFoundError, w)
  end.

(** Where [shutil.copy2] and [shutil.move] put [source]: at
    [destination], or under its own name inside [destination] when that
    is a directory. *)
Definition real_destination (w : world) (source destination : string) : path :=
  if os_path_isdir w destination
  then locate w destination ++ [List.last (locate w source) ""]
  else locate w destination.

(** [shutil.copy2(source, destination)] for a regular source file. *)
Definition copy2 (source destination : string) : M () :=
  data ← read_file source;
  w ← get_world;
  if decide (destination = "") then raise FileNotFoundError
  else if decide (locate w source = real_destination w source destination)
  then raise OSError
  else put_entry (real_destination w source destination) (NFile data).

(** [shutil.move(source, destination)] for a source that is not a
    directory (the program moves only the entries [os.walk] lists as
    files; a directory source is reported as an error here). *)
Definition move (source destination : string) : M () := λ w,
  let s := locate w source in
  let d := real_destination w source destination in
  match stat w source with
  | None => (Raise FileNotFoundError, w)
  | Some NDir => (Raise OSError, w)
  | Some n =>
      if decide (destination = "") then (Raise FileNotFoundError, w)
      else if os_path_isdir w destination &&
              bool_decide (is_Some (node_at (tree w) d))
      then (Raise OSError, w)
      else if bool_decide (s ∈ denied w) then (Raise PermissionError, w)
      else if decide (s = d) then (Ret (), w)
      else (put_entry d n ;; w' ← get_world; set_tree (delete s (tree w'))) w
  end.

(** [os.kill(pid, SIGTERM)].  The argument is converted to the C type
    [pid_t], a 32-bit [int]: a Python integer outside its range raises
    [OverflowError] before any signal is sent.  A positive [pid] names one
    process.  Zero names the process group of the caller: the caller, which
    handles [SIGTERM] by default, is terminated with the group, status 143
    to its parent.  A negative [pid] names another group (or, for [-1],
    every process the caller may signal); the caller is taken to be outside
    it.  [ProcessLookupError] stands for every [OSError] of a delivery that
    fails. *)
Definition os_kill (pid : Z) : M () := λ w,
  if bool_decide (pid < - 2 ^ 31 ∨ 2 ^ 31 ≤ pid) then (Raise OverflowError, w)
  else if bool_decide (pid = 0)
  then (Exit 143, with_terminated (pid :: terminated w) w)
  else if bool_decide (pid ∈ processes w)
  then (Ret (), with_terminated (pid :: terminated w) w)
  else (Raise ProcessLookupError, w).

(** ** Digests *)

(** One hexadecimal digit, lower case as [hexdigest] prints it. *)
Definition hex_digit (n : N) : ascii :=
  match n with
  | 0 => "0" | 1 => "1" | 2 => "2" | 3 => "3" | 4 => "4" | 5 => "5"
  | 6 => "6" | 7 => "7" | 8 => "8" | 9 => "9" | 10 => "a" | 11 => "b"
  | 12 => "c" | 13 => "d" | 14 => "e" | _ => "f"
  end%N%char.

(** The [k] low hexadecimal digits of [n], most significant first. *)
Fixpoint hex_digits (k : nat) (n : N) (acc : string) : string :=
  match k with
  | O => acc
  | S k' => hex_digits k' (n / 16)%N (String (hex_digit (n mod 16)%N) acc)
  end.

(** [hashlib.md5(...).hexdigest()]: the 128-bit digest as 32 hexadecimal
    digits. *)
Definition hexdigest (digest : N) : string := hex_digits 32 digest "".

(** ** The program *)

Inductive document_path := PATH_TO_CONFIG_JSON | PATH_TO_CHECKSUMS_JSON.

Definition read_document (path : document_path) (w : world) : option content :=
  match path with
  | PATH_TO_CONFIG_JSON => config_json w
  | PATH_TO_CHECKSUMS_JSON => checksums_json w
  end.

(** [json.dump(value, open(path, 'w'))]. *)
Definition write_document (path : document_path) (value : json) : M () :=
  match path with
  | PATH_TO_CONFIG_JSON => set_config_json (Some (Document value))
  | PATH_TO_CHECKSUMS_JSON => set_checksums_json (Some (Document value))
  end.

Definition remove_escape_characters (path : string) : string :=
  Str.remove_char "\"%char path.

Definition is_valid_mac_path (path : string) : bool :=
  let path := remove_escape_characters path in
  if negb (Str.starts_with "/"%char path) then false
  else if Str.contains "\"%char path || Str.contains ":"%char path then false
  else true.

(** [isinstance(v, int)]; a Python [bool] is an [int]. *)
Definition is_int (v : json) : bool :=
  match v with JInt _ | JBool _ => true | _ => false end.

Definition int_value (v : json) : Z :=
  match v with
  | JInt n => n
  | JBool true => 1
  | _ => 0
  end.

(** The three field checks of [get_config_file], each [true] when the
    field is kept. *)
Definition interval_valid (config : dict) : bool :=
  match dict_lookup "interval" config with
  | Some v => is_int v && negb (int_value v <? 0)
  | None => false
  end.

Definition destination_valid (config : dict) : bool :=
  match dict_lookup "backup_destination" config with
  | Some (JStr s) => is_valid_mac_path s
  | _ => false
  end.

Definition item_valid (item : json) : bool :=
  match item with JStr s => is_valid_mac_path s | _ => false end.

Definition items_valid (config : dict) : bool :=
  match dict_lookup "items_to_backup" config with
  | Some (JList items) => forallb item_valid items
  | _ => false
  end.

(** [os.path.join(os.path.dirname(os.path.abspath(path)), 'backup/')]:
    both documents live in the installation directory. *)
Definition default_backup_destination (w : world) : string :=
  path_join (install_dir w) "backup/".

Definition get_config_file (path : document_path) : M dict :=
  w ← get_world;
  match read_document path w with
  | Some (Document (JDict config)) =>
      config ← (if interval_valid config then mret config
                else logging WARNING ConfigBadInterval;;
                     mret (dict_set "interval" (JInt 300) config));
      config ← (if destination_valid config then mret config
                else logging WARNING ConfigBadDestination;;
                     mret (dict_set "backup_destination"
                                    (JStr (default_backup_destination w)) config));
      config ← (if items_valid config then mret config
                else logging WARNING ConfigBadItems;;
                     mret (dict_set "items_to_backup" (JList []) config));
      write_document path (JDict config);;
      logging INFO ConfigLoaded;;
      mret config
  | Some (Document _) =>
      (* ['interval' not in config] or [config['interval']] on a value
         that is not a dict *)
      raise TypeError
  | None =>
      logging WARNING ConfigNotFound;;
      let config := [("interval", JInt 300);
                     ("backup_destination", JStr (default_backup_destination w));
                     ("items_to_backup", JList [])] in
      write_document path (JDict config);;
      mret config
  | Some (Garbage _) =>
      logging ERROR ConfigNotJson;;
      sys_exit 1
  | Some Undecodable =>
      (* neither [except] clause names it *)
      raise UnicodeDecodeError
  end.

Definition save_json_file (json_object : json) (path_to_json_file : document_path) : M () :=
  try_except
    (write_document path_to_json_file json_object;;
     logging INFO JsonSaved)
    (λ e, logging ERROR JsonSaveError).

Inductive path_type := file | directory | not_exists | no_type.

#[global] Instance path_type_eq_dec : EqDecision path_type.
Proof. solve_decision. Defined.

(** Returns ['file'], ['directory'], ['not exists'], or nothing ([None])
    for an entry that exists and is neither. *)
Definition is_path_exist (w : world) (path : string) : path_type :=
  match stat w path with
  | Some (NFile _) => file
  | Some NDir => directory
  | Some NSpecial => no_type
  | None => not_exists
  end.

Fixpoint not_included_in_other_directories
    (path : string) (list_of_paths : list string) : outcome bool :=
  match list_of_paths with
  | [] => Ret true
  | other_path :: rest =>
      if bool_decide (path ≠ other_path) then
        match commonpath [path; other_path] with
        | None => Raise ValueError
        | Some common =>
            if bool_decide (common = other_path) then Ret false
            else not_included_in_other_directories path rest
        end
      else not_included_in_other_directories path rest
  end.

Definition get_files_from_directory (fuel : nat) (directory_path : string)
    : M (list string) :=
  os_walk fuel directory_path
    (λ root dirs files files_list,
       mret (files_list ++ (path_join root <$> files)))
    [].

(** Lifting a pure call that may raise. *)
Definition lift {A} (r : outcome A) : M A := λ w, (r, w).

(** [existing_paths] of [get_filtered_files_list]: the canonical paths
    that exist, each with its type, in the order of the configuration. *)
Definition existing_paths (w : world) (list_of_paths : list string)
    : list (string * path_type) :=
  let absolute_paths := realpath w <$> list_of_paths in
  filter (λ pt, pt.2 ≠ not_exists)
         ((λ path, (path, is_path_exist w path)) <$> absolute_paths).

(** The loop of [get_filtered_files_list] that fills
    [pre_filtered_paths]: the existing paths that no other path of
    [existing_paths_set] covers. *)
Fixpoint pre_filter (existing_paths_set : list string)
    (existing : list (string * path_type))
    : outcome (list (string * path_type)) :=
  match existing with
  | [] => Ret []
  | (path, ptype) :: rest =>
      match not_included_in_other_directories path existing_paths_set with
      | Ret keep =>
          match pre_filter existing_paths_set rest with
          | Ret kept => Ret (if keep then (path, ptype) :: kept else kept)
          | r => r
          end
      | Exit c => Exit c
      | Raise e => Raise e
      | OutOfFuel => OutOfFuel
      end
  end.

(** [pre_filtered_paths] of [get_filtered_files_list]. *)
Definition pre_filtered_paths (w : world) (list_of_paths : list string)
    : outcome (list (string * path_type)) :=
  let existing := existing_paths w list_of_paths in
  let existing_paths_set := remove_dups existing.*1 in
  pre_filter existing_paths_set existing.

Definition get_filtered_files_list (fuel : nat) (list_of_paths : list string)
    : M (list string) :=
  w ← get_world;
  pre_filtered ← lift (pre_filtered_paths w list_of_paths);
  final_paths ← for_fold pre_filtered
    (λ '(path, ptype) final_paths,
       match ptype with
       | directory =>
           files ← get_files_from_directory fuel path;
           mret (final_paths ++ files)
       | file => mret (final_paths ++ [path])
       | _ => mret final_paths
       end) [];
  mret (remove_dups final_paths).

Section with_md5.

(** The MD5 compression function of [hashlib], from a file's bytes to
    its 128-bit digest. *)
Variable md5 : string → N.

Definition calculate_checksum (file_path : string) : M (option string) :=
  try_except
    (data ← read_file file_path;
     mret (Some (hexdigest (md5 data))))
    (λ e,
       match e with
       | FileNotFoundError | PermissionError =>
           logging ERROR (ChecksumAccessError file_path);; mret None
       | _ =>
           logging ERROR (ChecksumOtherError file_path);; mret None
       end).

Definition get_checksums_json (path : document_path) : M json :=
  w ← get_world;
  match read_document path w with
  | Some (Document checksums) =>
      logging INFO ChecksumsLoaded;;
      mret checksums
  | None =>
      logging WARNING ChecksumsNotFound;;
      write_document path (JDict []);;
      mret (JDict [])
  | Some (Garbage _) =>
      logging ERROR ChecksumsNotJson;;
      sys_exit 1
  | Some Undecodable => raise UnicodeDecodeError
  end.

Definition copy_file (source destination : string) : M () :=
  try_except
    (w ← get_world;
     when (os_path_isdir w destination) (raise IsADirectoryError);;
     same ← (if os_path_exists w destination
             then samefile source destination else mret false);
     when same (raise ValueError);;
     let destination_folder := dirname destination in
     when (negb (os_path_exists w destination_folder))
          (makedirs destination_folder);;
     copy2 source destination;;
     logging INFO (FileCopied source destination))
    (λ e, logging ERROR (CopyError source destination)).

(** The fields of a loaded configuration, as the callers read them. *)
Definition items_to_backup (config : dict) : list string :=
  match dict_lookup "items_to_backup" config with
  | Some (JList items) =>
      omap (λ item, match item with JStr s => Some s | _ => None end) items
  | _ => []
  end.

Definition backup_destination (config : dict) : string :=
  match dict_get "backup_destination" (JStr "") config with
  | JStr s => s
  | _ => ""
  end.

(** [a != b] between a digest string and a stored JSON value. *)
Definition differs (file_checksum : string) (stored : json) : bool :=
  match stored with
  | JStr s => bool_decide (file_checksum ≠ s)
  | _ => true
  end.

(** The body of the [for file_path in list_of_file_paths] loop of
    [daemon_main]; [checksums] is the dictionary the loop updates. *)
Definition backup_file (config : dict) (file_path : string) (checksums : json)
    : M json :=
  file_checksum ← calculate_checksum file_path;
  match file_checksum with
  | None => mret checksums
  | Some file_checksum =>
      match checksums with
      | JDict entries =>
          let backup_file_checksum := dict_get file_path (JStr "0") entries in
          if differs file_checksum backup_file_checksum then
            let checksums := JDict (dict_set file_path (JStr file_checksum) entries) in
            w ← get_world;
            let destination :=
              path_join (backup_destination config) (relpath w file_path "/") in
            copy_file file_path destination;;
            mret checksums
          else mret checksums
      | _ => raise AttributeError
      end
  end.

(** One iteration of the [while True] loop of [daemon_main], up to the
    [time.sleep]. *)
Definition daemon_cycle (fuel : nat) : M () :=
  config ← get_config_file PATH_TO_CONFIG_JSON;
  list_of_file_paths ← get_filtered_files_list fuel (items_to_backup config);
  checksums ← get_checksums_json PATH_TO_CHECKSUMS_JSON;
  checksums ← for_fold list_of_file_paths (backup_file config) checksums;
  save_json_file checksums PATH_TO_CHECKSUMS_JSON;;
  logging INFO CycleDone.

End with_md5.

(** ** The command-line operations *)

(** [c.isspace()] for an ASCII character: tab, line feed, vertical tab,
    form feed, carriage return, the four separators [0x1c]-[0x1f] and the
    space. *)
Definition py_isspace (c : ascii) : bool :=
  let n := nat_of_ascii c in
  ((9 <=? n) && (n <=? 13) || (28 <=? n) && (n <=? 32))%nat.

(** [s.isascii()]. *)
Fixpoint isascii (s : string) : bool :=
  match s with
  | String c s' => (nat_of_ascii c <? 128)%nat && isascii s'
  | EmptyString => true
  end.

(** The white space that [int] skips around an ASCII literal (C's
    [isspace]): tab to carriage return, and the space. *)
Definition c_isspace (c : ascii) : bool :=
  let n := nat_of_ascii c in
  ((9 <=? n) && (n <=? 13) || (n =? 32))%nat.

(** [s.lstrip()], for the characters [space] accepts. *)
Fixpoint lstrip (space : ascii → bool) (s : string) : string :=
  match s with
  | String c s' => if space c then lstrip space s' else s
  | EmptyString => s
  end.

(** [s.strip()] for ASCII text. *)
Definition strip (s : string) : string :=
  String.rev (lstrip py_isspace (String.rev (lstrip py_isspace s))).

(** The digits of an integer literal: decimal digits with single
    underscores between them.  [after_digit] tells that the character
    before was a digit, where an underscore or the end may follow. *)
Fixpoint parse_digits (s : string) (acc : Z) (after_digit : bool) : option Z :=
  match s with
  | EmptyString => if after_digit then Some acc else None
  | String c s' =>
      match Ascii.is_nat c with
      | Some d => parse_digits s' (10 * acc + Z.of_nat d) true
      | None =>
          if bool_decide (c = "_"%char) && after_digit
          then parse_digits s' acc false
          else None
      end
  end.

(** [int(s)] for ASCII text, in base ten: white space around the literal
    is dropped, then comes an optional sign, then the digits; leading
    zeros are allowed.  [None] is the [ValueError] of any other text.
    (From Python 3.11 on, [int] also refuses a literal of more than 4300
    digits; the properties below keep to shorter texts.) *)
Definition py_int (s : string) : option Z :=
  match String.rev (lstrip c_isspace (String.rev (lstrip c_isspace s))) with
  | String "-" s' => Z.opp <$> parse_digits s' 0 false
  | String "+" s' => parse_digits s' 0 false
  | s' => parse_digits s' 0 false
  end.

Definition stop_daemon : M () :=
  w ← get_world;
  match pidfile w with
  | Some text =>
      match py_int (strip text) with
      | Some pid =>
          try_except_os
            (os_kill pid;;
             logging INFO (DaemonStopped pid))
            (λ e, logging ERROR (DaemonStopError pid))
      | None => raise ValueError
      end;;
      set_pidfile None;;
      logging INFO PidfileRemoved
  | None => logging WARNING PidfileNotFound
  end.

(** [interval] is what [argparse] hands over for [type=int]. *)
Definition update_sleep_interval (interval : Z) : M () :=
  if bool_decide (interval ≤ 0) then
    logging ERROR IntervalRejected
  else
    config ← get_config_file PATH_TO_CONFIG_JSON;
    let config := dict_set "interval" (JInt interval) config in
    save_json_file (JDict config) PATH_TO_CONFIG_JSON;;
    logging INFO (IntervalChanged interval).

(** The block of [change_backup_destination] and [clear_backup_folder]
    that empties the checksum document when it exists. *)
Definition clear_checksums_file : M () :=
  w ← get_world;
  if bool_decide (is_Some (read_document PATH_TO_CHECKSUMS_JSON w)) then
    try_except
      (write_document PATH_TO_CHECKSUMS_JSON (JDict []);;
       logging INFO ChecksumsCleared)
      (λ e, logging ERROR ChecksumsClearError)
  else logging WARNING ChecksumsMissingForClear.

Definition change_backup_destination (fuel : nat) (new_path : string) : M () :=
  w ← get_world;
  let absolute_new_path := remove_escape_characters (realpath w new_path) in
  if negb (is_valid_mac_path absolute_new_path) then
    logging ERROR (PathInvalid new_path)
  else
    ready ← (if bool_decide (is_path_exist w absolute_new_path ≠ directory) then
               try_except_os
                 (makedirs absolute_new_path;;
                  logging INFO (DirectoryCreated absolute_new_path);;
                  mret true)
                 (λ e, logging ERROR (MakedirsError absolute_new_path);;
                       mret false)
             else mret true);
    if negb ready then mret () else
    config ← get_config_file PATH_TO_CONFIG_JSON;
    let old_backup_folder := backup_destination config in
    w ← get_world;
    if bool_decide (is_path_exist w old_backup_folder ≠ directory) then
      logging ERROR (OldFolderMissing old_backup_folder)
    else
      try_except
        (os_walk fuel old_backup_folder
           (λ root dirs files _,
              w ← get_world;
              let relative_path := relpath w root old_backup_folder in
              let destination_dir := path_join absolute_new_path relative_path in
              when (negb (os_path_exists w destination_dir))
                   (makedirs destination_dir);;
              for_each files
                (λ file,
                   let source_file := path_join root file in
                   let destination_file := path_join destination_dir file in
                   try_except
                     (move source_file destination_file;;
                      logging INFO (FileMoved file destination_file))
                     (λ e, logging ERROR (MoveError source_file))))
           ();;
         rmtree old_backup_folder;;
         logging INFO (OldFolderRemoved old_backup_folder);;
         clear_checksums_file;;
         let config := dict_set "backup_destination" (JStr absolute_new_path) config in
         save_json_file (JDict config) PATH_TO_CONFIG_JSON;;
         logging INFO (DestinationChanged absolute_new_path))
        (λ e, logging ERROR DestinationChangeError).

Definition clear_backup_folder (fuel : nat) : M () :=
  config ← get_config_file PATH_TO_CONFIG_JSON;
  let backup_folder := backup_destination config in
  w ← get_world;
  if bool_decide (is_path_exist w backup_folder ≠ directory) then
    logging ERROR (BackupFolderMissing backup_folder)
  else
    try_except
      (os_walk fuel backup_folder
         (λ root dirs files _,
            for_each files
              (λ file,
                 try_except
                   (os_remove (path_join root file))
                   (λ e, logging ERROR (RemoveFileError file)));;
            for_each dirs
              (λ dir,
                 try_except
                   (rmtree (path_join root dir))
                   (λ e, logging ERROR (RemoveDirError dir))))
         ();;
       logging INFO (BackupFolderCleared backup_folder);;
       clear_checksums_file)
      (λ e, logging ERROR ClearError).

(** [config.get('items_to_backup', [])] of a loaded configuration, which
    holds a list there. *)
Definition items_list (config : dict) : list json :=
  match dict_get "items_to_backup" (JList []) config with
  | JList items => items
  | _ => []
  end.

(** [absolute_path == item] for an element of that list. *)
Definition is_item (absolute_path : string) (item : json) : bool :=
  match item with
  | JStr s => bool_decide (s = absolute_path)
  | _ => false
  end.

(** [items.remove(absolute_path)] when the path is in the list: the list
    without the first element equal to it. *)
Fixpoint list_remove (absolute_path : string) (items : list json) : list json :=
  match items with
  | [] => []
  | item :: rest =>
      if is_item absolute_path item then rest
      else item :: list_remove absolute_path rest
  end.

(** The value is the list of the items printed. *)
Definition list_backup_items : M (list json) :=
  config ← get_config_file PATH_TO_CONFIG_JSON;
  let items := items_list config in
  match items with
  | _ :: _ => logging INFO ItemsListed
  | [] => logging INFO ItemsListEmpty
  end;;
  mret items.

Definition add_backup_item (item_path : string) : M () :=
  w ← get_world;
  let absolute_path := remove_escape_characters (realpath w item_path) in
  if negb (is_valid_mac_path absolute_path) then
    logging ERROR (PathInvalid item_path)
  else if bool_decide (is_path_exist w absolute_path = not_exists) then
    logging ERROR (ItemPathMissing absolute_path)
  else
    config ← get_config_file PATH_TO_CONFIG_JSON;
    let items_to_backup := items_list config in
    if existsb (is_item absolute_path) items_to_backup then
      logging INFO (ItemAlreadyListed absolute_path)
    else
      let items_to_backup := items_to_backup ++ [JStr absolute_path] in
      let config := dict_set "items_to_backup" (JList items_to_backup) config in
      save_json_file (JDict config) PATH_TO_CONFIG_JSON;;
      logging INFO (ItemAdded absolute_path).

Definition remove_backup_item (item_path : string) : M () :=
  w ← get_world;
  let absolute_path := remove_escape_characters (realpath w item_path) in
  if negb (is_valid_mac_path absolute_path) then
    logging ERROR (PathInvalid item_path)
  else if bool_decide (is_path_exist w absolute_path = not_exists) then
    logging ERROR (ItemPathMissing absolute_path)
  else
    config ← get_config_file PATH_TO_CONFIG_JSON;
    let items_to_backup := items_list config in
    if existsb (is_item absolute_path) items_to_backup then
      let items_to_backup := list_remove absolute_path items_to_backup in
      let config := dict_set "items_to_backup" (JList items_to_backup) config in
      save_json_file (JDict config) PATH_TO_CONFIG_JSON;;
      logging INFO (ItemRemoved absolute_path)
    else
      logging WARNING (ItemNotListed absolute_path).

(** The loop body of [paste_backup]. *)
Definition paste_body (backup_folder absolute_target_dir : string)
    (root : string) (dirs files : list string) (_ : ()) : M () :=
  w ← get_world;
  let relative_path := relpath w root backup_folder in
  let destination_dir := path_join absolute_target_dir relative_path in
  when (negb (os_path_exists w destination_dir))
       (makedirs destination_dir);;
  for_each files
    (λ file,
       let source_file := path_join root file in
       let destination_file := path_join destination_dir file in
       copy2 source_file destination_file).

Definition paste_backup (fuel : nat) (target_dir : string) : M () :=
  w ← get_world;
  let absolute_target_dir := remove_escape_characters (realpath w target_dir) in
  if negb (is_valid_mac_path absolute_target_dir) then
    logging ERROR (PathInvalid target_dir)
  else if bool_decide (is_path_exist w absolute_target_dir ≠ directory) then
    logging ERROR (TargetNotDirectory absolute_target_dir)
  else
    config ← get_config_file PATH_TO_CONFIG_JSON;
    let backup_folder := backup_destination config in
    w ← get_world;
    if bool_decide (is_path_exist w backup_folder ≠ directory) then
      logging ERROR (PasteFolderMissing backup_folder)
    else
      try_except
        (os_walk fuel backup_folder
           (paste_body backup_folder absolute_target_dir) ();;
         logging INFO (BackupPasted absolute_target_dir))
        (λ e, logging ERROR PasteError).

(** ** Notions the properties are stated with *)

(** A string without a separator. *)
Definition no_sep (s : string) : Prop := Str.contains sep s = false.

(** A name a directory entry can have. *)
Definition clean_name (n : string) : Prop :=
  n ≠ "" ∧ n ≠ "." ∧ n ≠ ".." ∧ no_sep n.

(** [a] is a strict ancestor of [b] in the directory tree: the location
    of [a] is a proper prefix of the location of [b]. *)
Definition strict_ancestor (w : world) (a b : string) : Prop :=
  locate w a `prefix_of` locate w b ∧ locate w a ≠ locate w b.

#[global] Instance strict_ancestor_dec w a b : Decision (strict_ancestor w a b).
Proof. unfold strict_ancestor. apply _. Defined.

(** A canonical path string, as [os.path.realpath] returns it. *)
Definition canonical (s : string) : Prop :=
  ∃ c, Forall clean_name c ∧ s = path_str c.

(** The paths [get_filtered_files_list] keeps: the existing ones without a
    strict ancestor among the existing ones. *)
Definition uncovered (w : world) (list_of_paths : list string)
    : list (string * path_type) :=
  filter (λ pt, ¬ Exists (λ other, strict_ancestor w other pt.1)
                         (existing_paths w list_of_paths).*1)
         (existing_paths w list_of_paths).

(** The [interval] field of a configuration document. *)
Definition document_interval (c : option content) : option json :=
  match c with
  | Some (Document (JDict config)) => dict_lookup "interval" config
  | _ => None
  end.

(** The configuration [get_config_file] returns for a parsed object:
    each invalid field replaced by its default, in the order of the
    source. *)
Definition heal_interval (config : dict) : dict :=
  if interval_valid config then config
  else dict_set "interval" (JInt 300) config.

Definition heal_destination (w : world) (config : dict) : dict :=
  if destination_valid config then config
  else dict_set "backup_destination" (JStr (default_backup_destination w)) config.

Definition heal_items (config : dict) : dict :=
  if items_valid config then config
  else dict_set "items_to_backup" (JList []) config.

Definition healed (w : world) (config : dict) : dict :=
  heal_items (heal_destination w (heal_interval config)).

(** The warnings of that load, latest first. *)
Definition heal_warnings (w : world) (config : dict) : list (level * event) :=
  (if items_valid (heal_destination w (heal_interval config))
   then [] else [(WARNING, ConfigBadItems)]) ++
  (if destination_valid (heal_interval config)
   then [] else [(WARNING, ConfigBadDestination)]) ++
  (if interval_valid config then [] else [(WARNING, ConfigBadInterval)]).

(** The configuration written when there is no document. *)
Definition default_config (w : world) : dict :=
  [("interval", JInt 300);
   ("backup_destination", JStr (default_backup_destination w));
   ("items_to_backup", JList [])].

(** An outcome that hands control back to the caller: a return or an
    exception, not an exit and not an exhausted budget. *)
Definition returns_or_raises {A} (r : outcome A) : Prop :=
  match r with Ret _ | Raise _ => True | _ => False end.

(** The worlds [w] and [w'] differ at most in the directory tree. *)
Definition same_but_tree (w w' : world) : Prop :=
  w' = with_tree (tree w') w.

(** A call whose only effect is on the directory tree. *)
Definition tree_only {A} (m : M A) : Prop :=
  ∀ w, returns_or_raises (m w).1 ∧ same_but_tree w (m w).2.

(** A call that either returns after logging [entry] or raises without
    logging, and otherwise touches the directory tree only. *)
Definition logs_or_raises (entry : level * event) (m : M ()) : Prop :=
  ∀ w, ∃ t,
    m w = (Ret (), with_log (entry :: log w) (with_tree t w)) ∨
    ∃ e, m w = (Raise e, with_tree t w).

(** [w'] differs from [w] at most in the directory tree and the log. *)
Definition same_but_tree_log (w w' : world) : Prop :=
  w' = with_log (log w') (with_tree (tree w') w).

(** Every run of [m] relates the world before to the world after. *)
Definition preserves (R : relation world) {A} (m : M A) : Prop :=
  ∀ w, R w (m w).2.

(** The configuration a load returns, when the document is an object or
    is missing. *)
Definition loaded_config (w : world) : option dict :=
  match config_json w with
  | Some (Document (JDict config)) => Some (healed w config)
  | None => Some (default_config w)
  | _ => None
  end.

(** The path [change_backup_destination] takes as the new destination. *)
Definition absolute_new_path (w : world) (new_path : string) : string :=
  remove_escape_characters (realpath w new_path).

(** A directory tree as a file system keeps it: every entry has a proper
    name and sits in a directory. *)
Definition tree_wf (t : gmap path node) : Prop :=
  ∀ p n, t !! p = Some n →
    Forall clean_name p ∧ p ≠ [] ∧ node_at t (removelast p) = Some NDir.

(** [q] lies strictly below [p]. *)
Definition strictly_below (p q : path) : Prop := p `prefix_of` q ∧ q ≠ p.



(** The loop body of [clear_backup_folder]. *)
Definition clear_body (root : string) (dirs files : list string) (_ : ()) : M () :=
  for_each files
    (λ file,
       try_except
         (os_remove (path_join root file))
         (λ e, logging ERROR (RemoveFileError file)));;
  for_each dirs
    (λ dir,
       try_except
         (rmtree (path_join root dir))
         (λ e, logging ERROR (RemoveDirError dir))).

(** What the loop of a cycle sees of the source files: the outcome of
    [calculate_checksum] for each file, at the moment the loop reaches it. *)
Fixpoint observe (md5 : string → N) (config : dict) (files : list string)
    (checksums : json) (w : world) : list (outcome (option string)) :=
  match files with
  | [] => []
  | file_path :: rest =>
      (calculate_checksum md5 file_path w).1 ::
      match backup_file md5 config file_path checksums w with
      | (Ret checksums', w') => observe md5 config rest checksums' w'
      | _ => []
      end
  end.

(** The source files a cycle started in [w] resolves and the digests it
    computes for them; [None] when the cycle does not reach its loop. *)
Definition cycle_view (md5 : string → N) (fuel : nat) (w : world)
    : option (list string * list (outcome (option string))) :=
  match get_config_file PATH_TO_CONFIG_JSON w with
  | (Ret config, w1) =>
      match get_filtered_files_list fuel (items_to_backup config) w1 with
      | (Ret files, w2) =>
          match get_checksums_json PATH_TO_CHECKSUMS_JSON w2 with
          | (Ret checksums, w3) =>
              Some (files, observe md5 config files checksums w3)
          | _ => None
          end
      | _ => None
      end
  | _ => None
  end.

(** A log record of a copy attempt. *)
Definition is_copy_record (r : level * event) : Prop :=
  match r.2 with
  | FileCopied _ _ | CopyError _ _ => True
  | _ => False
  end.

#[global] Instance clean_name_dec n : Decision (clean_name n).
Proof. unfold clean_name, no_sep. apply _. Defined.

(** ** Sample worlds *)

(** A stand-in for the MD5 function where a concrete one is needed. *)
Definition sample_md5 (data : string) : N := N.of_nat (String.length data).

Definition sample_config (interval : Z) (destination : string)
    (items : list string) : dict :=
  [("interval", JInt interval);
   ("backup_destination", JStr destination);
   ("items_to_backup", JList (JStr <$> items))].

(** Sources under [/src] and [/var/log], an empty backup directory [/bk],
    a daemon with process id 42. *)
Definition sample_tree : gmap path node :=
  list_to_map
    [(["src"], NDir); (["src"; "a"], NFile "hello"); (["src"; "d"], NDir);
     (["src"; "d"; "b"], NFile "x"); (["bk"], NDir); (["var"], NDir);
     (["var"; "log"], NDir); (["var"; "log2"], NDir);
     (["var"; "log"; "m"], NFile "m")].

Definition sample_items : list string :=
  ["/src"; "/src/d"; "/var/log2"; "/var/log"; "/nope"].

Definition sample_world : world :=
  World "/" "/opt/backupd" sample_tree ∅
        (Some (Document (JDict (sample_config 5 "/bk" sample_items))))
        None (Some "42") {[42]} [] [].

(** The sample world after one backup cycle. *)
Definition backed_up_world : world :=
  (daemon_cycle sample_md5 5 sample_world).2.

(** A world where the backup location of [/src/a] is taken by a
    directory. *)
Definition blocked_world : world :=
  World "/" "/opt/backupd"
        (list_to_map
           [(["src"], NDir); (["src"; "a"], NFile "hello"); (["bk"], NDir);
            (["bk"; "src"], NDir); (["bk"; "src"; "a"], NDir)])
        ∅
        (Some (Document (JDict (sample_config 5 "/bk" ["/src/a"]))))
        None None ∅ [] [].

(** A world whose configured destination [/old] does not exist. *)
Definition no_destination_world : world :=
  World "/" "/opt/backupd" ∅ ∅
        (Some (Document (JDict (sample_config 5 "/old" []))))
        (Some (Document (JDict [("/src/a", JStr "0123")])))
        None ∅ [] [].

(** A world whose configuration has an invalid interval. *)
Definition bad_interval_world : world :=
  World "/" "/opt/backupd" sample_tree ∅
        (Some (Document (JDict (sample_config (-5) "/bk" []))))
        None None ∅ [] [].






(** ** Further notions *)

(** A configuration that passes the checks of [get_config_file], or fails
    the destination check with the default destination in place (the
    default is invalid when the installation directory does not pass
    [is_valid_mac_path]). *)
Definition settled (w : world) (config : dict) : Prop :=
  interval_valid config = true ∧
  items_valid config = true ∧
  (destination_valid config = true ∨
   dict_lookup "backup_destination" config
   = Some (JStr (default_backup_destination w))).

(** The path [add_backup_item] and [remove_backup_item] work with. *)
Definition absolute_item_path (w : world) (item_path : string) : string :=
  remove_escape_characters (realpath w item_path).

(** [w'] has the working directory and the directory tree of [w]. *)
Definition same_files (w w' : world) : Prop :=
  cwd w' = cwd w ∧ tree w' = tree w.

(** Entries of the same kind. *)
Definition same_kind (n n' : node) : Prop :=
  match n, n' with
  | NFile _, NFile _ | NDir, NDir | NSpecial, NSpecial => True
  | _, _ => False
  end.

(** From [w] to [w'] no entry of the directory tree was removed and none
    changed its kind: at most, entries were added and files rewritten. *)
Definition only_adds (w w' : world) : Prop :=
  ∀ p n, tree w !! p = Some n → ∃ n', tree w' !! p = Some n' ∧ same_kind n n'.

(** [w'] has the checksum document of [w]. *)
Definition keeps_checksums (w w' : world) : Prop :=
  checksums_json w' = checksums_json w.

(** Where [daemon_main] copies [file_path] to. *)
Definition backup_location (w : world) (config : dict) (file_path : string)
    : string :=
  path_join (backup_destination config) (relpath w file_path "/").

(** Started with working directory [c], a call leaves every existing entry
    that is not strictly below [D] exactly as it was. *)
Definition outside_kept (c : string) (D : path) (w w' : world) : Prop :=
  cwd w = c →
  cwd w' = c ∧
  ∀ q n, tree w !! q = Some n → ¬ strictly_below D q → tree w' !! q = Some n.

(** The length of the longest location in a tree. *)
Definition depth (t : gmap path node) : nat :=
  foldr Nat.max 0%nat (length <$> (map_to_list t).*1).

(** [q] is an entry strictly below the directory [top] that is not a
    directory. *)
Definition file_below (w : world) (top : string) (q : path) : Prop :=
  ∃ n, tree w !! q = Some n ∧ n ≠ NDir ∧ strictly_below (locate w top) q.

(** The loop body of [get_files_from_directory]. *)
Definition collect (root : string) (dirs files : list string)
    (files_list : list string) : M (list string) :=
  mret (files_list ++ (path_join root <$> files)).

(** An outcome that is a return or an exhausted budget: no exception and
    no exit. *)
Definition returns_or_runs_out {A} (r : outcome A) : Prop :=
  match r with Ret _ | OutOfFuel => True | _ => False end.

(** The sample world with an empty PID-marker file. *)
Definition empty_marker_world : world := with_pidfile (Some "") sample_world.

(** From [w] to [w'] entries were removed at most: every entry of [w'] is
    an entry of [w], unchanged. *)
Definition only_removes (w w' : world) : Prop :=
  ∀ p n, tree w' !! p = Some n → tree w !! p = Some n.

(** Every file of [w'] has the content of some file of [w]. *)
Definition no_new_content (w w' : world) : Prop :=
  ∀ p data, tree w' !! p = Some (NFile data) →
            ∃ q, tree w !! q = Some (NFile data).

(** The checksum document of [w'] is that of [w] or the empty mapping. *)
Definition checksums_kept_or_reset (w w' : world) : Prop :=
  checksums_json w' = checksums_json w ∨
  checksums_json w' = Some (Document (JDict [])).

(** [q] is a file that the configured path [item] names, or an entry below
    the directory it names that is not a directory. *)
Definition backed_up_by (w : world) (item : string) (q : path) : Prop :=
  (∃ data, tree w !! q = Some (NFile data) ∧ locate w item = q) ∨
  file_below w item q.

(** The loop body of [get_filtered_files_list] that fills [final_paths]. *)
Definition gather (fuel : nat) (entry : string * path_type)
    (final_paths : list string) : M (list string) :=
  match entry.2 with
  | directory =>
      files ← get_files_from_directory fuel entry.1;
      mret (final_paths ++ files)
  | file => mret (final_paths ++ [entry.1])
  | _ => mret final_paths
  end.

(** The sample world run from a working directory whose name holds a
    colon. *)
Definition colon_world : world :=
  World "/mnt/c:" "/opt/backupd" sample_tree ∅
        (Some (Document (JDict (sample_config 5 "/bk" sample_items))))
        None None ∅ [] [].

(** * Properties *)

(** ** Tactics *)


Lemma app_cons c a b : String c a +:+ b = String c (a +:+ b).
Proof. reflexivity. Qed.
Lemma app_nil b : "" +:+ b = b.
Proof. reflexivity. Qed.

Lemma split_not_nil c s : Str.split c s ≠ [].
Proof. induction s as [|c' s IH]; simpl; [done|]. case_bool_decide; [done|]. by destruct (Str.split c s). Qed.

Lemma split_app_sep a b :
  Str.split sep (a +:+ String sep b) = Str.split sep a ++ Str.split sep b.
Proof.
  induction a as [|c a IH].
  - rewrite app_nil. simpl. done.
  - rewrite app_cons. simpl. case_bool_decide.
    + by rewrite IH.
    + rewrite IH. pose proof (split_not_nil sep a). by destruct (Str.split sep a).
Qed.

Lemma split_no_sep s : no_sep s → Str.split sep s = [s].
Proof.
  unfold no_sep. induction s as [|c s IH]; simpl; [done|].
  intros [H1 H2]%orb_false_iff. rewrite H1. by rewrite IH.
Qed.

Lemma split_parts_no_sep s : Forall no_sep (Str.split sep s).
Proof.
  induction s as [|c s IH]; simpl.
  - by repeat constructor.
  - case_bool_decide as Hc.
    + by constructor.
    + pose proof (split_not_nil sep s). destruct (Str.split sep s) as [|x xs]; [done|].
      inversion IH; subst. constructor; [|done]. unfold no_sep in *. simpl.
      by rewrite bool_decide_false.
Qed.

Lemma split_join l : l ≠ [] → Forall no_sep l → Str.split sep (Str.join sep l) = l.
Proof.
  induction l as [|x l IH]; [done|]. intros _ Hl. inversion Hl; subst.
  destruct l as [|y l].
  - simpl. by apply split_no_sep.
  - change (Str.join sep (x :: y :: l)) with (x +:+ String sep (Str.join sep (y :: l))).
    rewrite split_app_sep, split_no_sep by done. rewrite IH by done. done.
Qed.

Lemma normalize_from_clean kept comps :
  Forall clean_name kept → Forall no_sep comps →
  Forall clean_name (normalize_from kept comps).
Proof.
  revert kept. induction comps as [|c cs IH]; intros kept Hk Hc; simpl; [done|].
  inversion Hc; subst.
  destruct (decide (c = "" ∨ c = ".")); [by apply IH|].
  destruct (decide (c = "..")).
  - apply IH; [|done]. destruct kept as [|k kept' _] using rev_ind; [done|].
    rewrite removelast_last. by apply Forall_app in Hk as [? _].
  - apply IH; [|done]. apply Forall_app; split; [done|].
    repeat constructor; naive_solver.
Qed.

Lemma normalize_from_clean_id kept comps :
  Forall clean_name comps → normalize_from kept comps = kept ++ comps.
Proof.
  revert kept. induction comps as [|c cs IH]; intros kept Hc; simpl.
  - by rewrite app_nil_r.
  - inversion Hc as [|?? (?&?&?&?)]; subst.
    destruct (decide (c = "" ∨ c = ".")) as [[?|?]|_]; [done..|].
    destruct (decide (c = "..")); [done|].
    rewrite IH by done. by rewrite <- app_assoc.
Qed.

Lemma locate_clean w p : Forall clean_name (locate w p).
Proof. apply normalize_from_clean; [done|apply split_parts_no_sep]. Qed.

Lemma clean_no_sep l : Forall clean_name l → Forall no_sep l.
Proof. intros H. eapply Forall_impl; [done|]. by intros ? (?&?&?&?). Qed.

Lemma split_path_str c :
  Forall clean_name c →
  Str.split sep (path_str c) = "" :: (if decide (c = []) then [""] else c).
Proof.
  intros Hc. unfold path_str. simpl.
  destruct (decide (c = [])) as [->|]; [done|].
  by rewrite split_join by eauto using clean_no_sep.
Qed.

Lemma isabs_path_str c : isabs (path_str c) = true.
Proof. done. Qed.

Lemma path_join_abs a b : isabs b = true → path_join a b = b.
Proof. unfold path_join. by intros ->. Qed.

Lemma locate_path_str w c : Forall clean_name c → locate w (path_str c) = c.
Proof.
  intros Hc. unfold locate. rewrite path_join_abs by done.
  rewrite split_path_str by done. simpl.
  destruct (decide (c = [])) as [->|]; [done|].
  by rewrite normalize_from_clean_id.
Qed.

Lemma path_components_path_str c :
  Forall clean_name c → path_components (path_str c) = c.
Proof.
  intros Hc. unfold path_components. rewrite split_path_str by done.
  rewrite filter_cons_False by naive_solver.
  destruct (decide (c = [])) as [->|]; [done|].
  clear n. induction Hc as [|x l (?&?&?&?) _ IH]; [done|].
  rewrite filter_cons_True by done. by rewrite IH.
Qed.

Lemma path_str_inj a b :
  Forall clean_name a → Forall clean_name b → path_str a = path_str b → a = b.
Proof.
  intros Ha Hb E. rewrite <- (path_components_path_str a), <- (path_components_path_str b) by done.
  by rewrite E.
Qed.

Lemma realpath_locate w p : locate w (realpath w p) = locate w p.
Proof. apply locate_path_str, locate_clean. Qed.

Lemma common_prefix_prefix_l a b : common_prefix a b `prefix_of` a.
Proof.
  revert b. induction a as [|x a IH]; intros [|y b]; simpl; try apply prefix_nil.
  destruct (decide (x = y)); [|apply prefix_nil]. by apply prefix_cons.
Qed.

Lemma common_prefix_eq_r a b : common_prefix a b = b ↔ b `prefix_of` a.
Proof.
  revert b. induction a as [|x a IH]; intros [|y b]; simpl.
  - split; [intros; apply prefix_nil|done].
  - split; [done|]. by intros ?%prefix_nil_inv.
  - split; [intros; apply prefix_nil|done].
  - destruct (decide (x = y)) as [->|Hne].
    + split.
      * intros [= E]. apply prefix_cons, IH, E.
      * intros H%prefix_cons_inv_2. f_equal. by apply IH.
    + split; [done|]. by intros ?%prefix_cons_inv_1.
Qed.

Lemma realpath_canonical w p : canonical (realpath w p).
Proof. exists (locate w p). split; [apply locate_clean|done]. Qed.

Lemma common_prefix_clean a b :
  Forall clean_name a → Forall clean_name (common_prefix a b).
Proof.
  intros Ha. destruct (common_prefix_prefix_l a b) as [k Hk].
  rewrite Hk in Ha. by apply Forall_app in Ha as [? _].
Qed.

Lemma commonpath_canonical a b :
  Forall clean_name a → Forall clean_name b →
  commonpath [path_str a; path_str b] = Some (path_str (common_prefix a b)).
Proof.
  intros Ha Hb. unfold commonpath. simpl forallb.
  rewrite !isabs_path_str. simpl.
  by rewrite !path_components_path_str.
Qed.

Lemma not_included_spec w path list_of_paths :
  canonical path → Forall canonical list_of_paths →
  not_included_in_other_directories path list_of_paths
  = Ret (bool_decide (¬ Exists (λ other, strict_ancestor w other path) list_of_paths)).
Proof.
  intros (c & Hc & ->) HS.
  induction HS as [|other rest (o & Ho & ->) _ IH];
    cbn [not_included_in_other_directories].
  - rewrite bool_decide_true; [done|]. by intros ?%Exists_nil.
  - assert (strict_ancestor w (path_str o) (path_str c) ↔ o `prefix_of` c ∧ o ≠ c) as Hsa.
    { unfold strict_ancestor. by rewrite !locate_path_str. }
    destruct (decide (path_str c = path_str o)) as [Heq|Hne].
    + rewrite bool_decide_false by (by intros ?).
      apply path_str_inj in Heq; [|done..]. subst o.
      rewrite IH. f_equal. apply bool_decide_ext.
      rewrite Exists_cons, Hsa. naive_solver.
    + rewrite bool_decide_true by done.
      rewrite commonpath_canonical by done.
      destruct (decide (path_str (common_prefix c o) = path_str o)) as [Heq|Hcp].
      * rewrite bool_decide_true by done.
        apply path_str_inj in Heq; [|by apply common_prefix_clean|done].
        apply common_prefix_eq_r in Heq.
        rewrite bool_decide_false; [done|].
        intros Hn. apply Hn. left. apply Hsa. split; [done|]. by intros ->.
      * rewrite bool_decide_false by done.
        rewrite IH. f_equal. apply bool_decide_ext.
        rewrite Exists_cons. rewrite Hsa.
        split; [|tauto]. intros Hn [[Hp _]|?]; [|done].
        apply Hcp. f_equal. by apply common_prefix_eq_r.
Qed.

Lemma existing_paths_canonical w l : Forall canonical (existing_paths w l).*1.
Proof.
  unfold existing_paths. apply Forall_fmap, Forall_forall.
  intros [p t] [_ Hin]%list_elem_of_filter.
  apply list_elem_of_fmap in Hin as (q & [= -> _] & Hq).
  apply list_elem_of_fmap in Hq as (? & -> & _). apply realpath_canonical.
Qed.

Lemma pre_filter_spec w S todo :
  Forall canonical S → Forall canonical todo.*1 →
  pre_filter S todo
  = Ret (filter (λ pt, ¬ Exists (λ other, strict_ancestor w other pt.1) S) todo).
Proof.
  intros HS. induction todo as [|[p t] todo IH]; intros Hcan; [done|].
  inversion Hcan; subst. cbn [pre_filter].
  rewrite (not_included_spec w) by done. rewrite IH by done.
  case_bool_decide as Hk.
  - by rewrite filter_cons_True.
  - by rewrite filter_cons_False by (by intros ?).
Qed.

Lemma pre_filtered_paths_spec w l :
  pre_filtered_paths w l = Ret (uncovered w l).
Proof.
  unfold pre_filtered_paths, uncovered.
  pose proof (existing_paths_canonical w l) as Hcan.
  rewrite (pre_filter_spec w); [|apply Forall_forall; intros x Hx; rewrite elem_of_remove_dups in Hx; rewrite Forall_forall in Hcan; by apply Hcan|done].
  f_equal. apply list_filter_iff. intros [p t]. simpl.
  rewrite !Exists_exists. by setoid_rewrite elem_of_remove_dups.
Qed.

Lemma existing_paths_Permutation w l l' :
  l' ≡ₚ l → existing_paths w l' ≡ₚ existing_paths w l.
Proof. intros H. unfold existing_paths. by rewrite H. Qed.

Lemma uncovered_Permutation w l l' :
  l' ≡ₚ l → uncovered w l' ≡ₚ uncovered w l.
Proof.
  intros H. pose proof (existing_paths_Permutation w l l' H) as HE.
  unfold uncovered. rewrite <- HE.
  erewrite (list_filter_iff _ _ (existing_paths w l')); [done|].
  intros pt. simpl. by rewrite HE.
Qed.

(** C1.  Redundancy elimination ([not_included_in_other_directories] as the
    first loop of [get_filtered_files_list] uses it).  For every list of
    configured paths the loop returns, and it keeps an existing path exactly
    when no other existing path is a strict ancestor of it in the file
    system; reordering the configured list permutes the result and nothing
    more.  A sibling that only shares a string prefix is no ancestor:
    [/var/log] does not cover [/var/log2], their common path is [/var]. *)
Theorem redundancy_elimination (w : world) (list_of_paths : list string) :
  ∃ kept,
    pre_filtered_paths w list_of_paths = Ret kept ∧
    (∀ entry, entry ∈ kept ↔
       entry ∈ existing_paths w list_of_paths ∧
       ¬ ∃ other, other ∈ (existing_paths w list_of_paths).*1 ∧
                  strict_ancestor w other entry.1) ∧
    (∀ reordered, reordered ≡ₚ list_of_paths →
       ∃ kept', pre_filtered_paths w reordered = Ret kept' ∧ kept' ≡ₚ kept) ∧
    ¬ strict_ancestor w "/var/log" "/var/log2" ∧
    commonpath ["/var/log2"; "/var/log"] = Some "/var".
Proof.
  exists (uncovered w list_of_paths). split; [apply pre_filtered_paths_spec|].
  split; [|split; [|split]].
  - intros entry. unfold uncovered. rewrite list_elem_of_filter, Exists_exists.
    naive_solver.
  - intros l' Hl'. exists (uncovered w l').
    split; [apply pre_filtered_paths_spec|by apply uncovered_Permutation].
  - intros [H _]. vm_compute in H. destruct H as [k Hk]. by destruct k.
  - reflexivity.
Qed.

(** Unfolding the monad. *)
Ltac unfold_monad :=
  unfold mbind, M_bind, mret, M_ret, get_world, raise, sys_exit, lift,
    logging, set_tree, set_config_json, set_checksums_json, set_pidfile,
    when, write_document, read_document, try_except, try_except_os in *.

Lemma dict_lookup_set k v d : dict_lookup k (dict_set k v d) = Some v.
Proof.
  induction d as [|[k' v'] d IH]; simpl.
  - by rewrite decide_True.
  - destruct (decide (k' = k)); simpl.
    + by rewrite decide_True.
    + by rewrite decide_False.
Qed.

Lemma dict_lookup_set_ne k k' v d :
  k ≠ k' → dict_lookup k' (dict_set k v d) = dict_lookup k' d.
Proof.
  intros Hne. induction d as [|[k0 v0] d IH]; simpl.
  - by rewrite decide_False.
  - destruct (decide (k0 = k)) as [->|]; simpl.
    + by rewrite !decide_False.
    + destruct (decide (k0 = k')); [done|apply IH].
Qed.

Lemma get_config_file_dict w config :
  config_json w = Some (Document (JDict config)) →
  get_config_file PATH_TO_CONFIG_JSON w
  = (Ret (healed w config),
     with_log ((INFO, ConfigLoaded) :: heal_warnings w config ++ log w)
       (with_config_json (Some (Document (JDict (healed w config)))) w)).
Proof.
  intros Hc. unfold get_config_file, healed, heal_warnings, heal_items,
    heal_destination, heal_interval.
  unfold_monad. rewrite Hc.
  destruct (interval_valid config); simpl;
    match goal with |- context [destination_valid ?c] => destruct (destination_valid c) end; simpl;
    match goal with |- context [items_valid ?c] => destruct (items_valid c) end; done.
Qed.

Lemma get_config_file_missing w :
  config_json w = None →
  get_config_file PATH_TO_CONFIG_JSON w
  = (Ret (default_config w),
     with_config_json (Some (Document (JDict (default_config w))))
       (with_log ((WARNING, ConfigNotFound) :: log w) w)).
Proof. intros Hc. unfold get_config_file. unfold_monad. by rewrite Hc. Qed.

Lemma get_config_file_undecodable w :
  config_json w = Some Undecodable →
  get_config_file PATH_TO_CONFIG_JSON w = (Raise UnicodeDecodeError, w).
Proof. intros Hc. unfold get_config_file. unfold_monad. by rewrite Hc. Qed.

Lemma get_config_file_garbage w raw :
  config_json w = Some (Garbage raw) →
  get_config_file PATH_TO_CONFIG_JSON w
  = (Exit 1, with_log ((ERROR, ConfigNotJson) :: log w) w).
Proof. intros Hc. unfold get_config_file. unfold_monad. by rewrite Hc. Qed.





Lemma healed_interval w config :
  dict_lookup "interval" (healed w config)
  = if interval_valid config then dict_lookup "interval" config
    else Some (JInt 300).
Proof.
  unfold healed, heal_items, heal_destination, heal_interval.
  repeat match goal with |- context [if ?b then _ else _] =>
    lazymatch b with
    | interval_valid _ => fail
    | _ => destruct b
    end end;
  rewrite ?dict_lookup_set_ne by done;
  destruct (interval_valid config); by rewrite ?dict_lookup_set.
Qed.

(** C10.  [update_sleep_interval] rejects zero and negative values with an
    error and leaves every document untouched; [get_config_file] accepts an
    interval of 0 as valid and keeps it, in the returned configuration and
    in the document; and whatever [update_sleep_interval] is called with,
    the document holds interval 0 afterwards only if it held it before. *)
Theorem zero_interval_only_by_hand :
  (∀ interval w, interval ≤ 0 →
     update_sleep_interval interval w
     = (Ret (), with_log ((ERROR, IntervalRejected) :: log w) w)) ∧
  (∀ w config,
     config_json w = Some (Document (JDict config)) →
     dict_lookup "interval" config = Some (JInt 0) →
     interval_valid config = true ∧
     ∃ config' w',
       get_config_file PATH_TO_CONFIG_JSON w = (Ret config', w') ∧
       dict_lookup "interval" config' = Some (JInt 0) ∧
       document_interval (config_json w') = Some (JInt 0)) ∧
  (∀ interval w r w',
     update_sleep_interval interval w = (r, w') →
     document_interval (config_json w') = Some (JInt 0) →
     document_interval (config_json w) = Some (JInt 0)).
Proof.
  split; [|split].
  - intros interval w Hle. unfold update_sleep_interval.
    by rewrite bool_decide_true.
  - intros w config Hc Hi.
    assert (interval_valid config = true) as Hv.
    { unfold interval_valid. by rewrite Hi. }
    split; [done|]. do 2 eexists.
    rewrite (get_config_file_dict w config Hc). split; [done|].
    simpl. rewrite healed_interval, Hv. done.
  - intros interval w r w'. unfold update_sleep_interval.
    case_bool_decide as Hle.
    { unfold_monad. by intros [= <- <-]. }
    destruct (config_json w) as [[raw|v|]|] eqn:Hc.
    + unfold_monad. rewrite (get_config_file_garbage w raw Hc).
      intros [= <- <-]. simpl. by rewrite Hc.
    + destruct v as [| | | | | |config];
        try (unfold get_config_file; unfold_monad; rewrite Hc;
             intros [= <- <-]; simpl; by rewrite Hc).
      unfold_monad. rewrite (get_config_file_dict w config Hc).
      unfold save_json_file. unfold_monad. simpl.
      intros [= <- <-]. simpl. rewrite dict_lookup_set. intros [= ->]. lia.
    + unfold_monad. rewrite (get_config_file_undecodable w Hc).
      intros [= <- <-]. simpl. by rewrite Hc.
    + unfold_monad. rewrite (get_config_file_missing w Hc).
      unfold save_json_file. unfold_monad. simpl.
      intros [= <- <-]. simpl. intros [=]. lia.
Qed.

Lemma hex_digits_length k n acc :
  String.length (hex_digits k n acc) = (k + String.length acc)%nat.
Proof.
  revert n acc. induction k as [|k IH]; intros n acc; simpl; [done|].
  rewrite IH. simpl. lia.
Qed.

Lemma hexdigest_length digest : String.length (hexdigest digest) = 32%nat.
Proof. unfold hexdigest. by rewrite hex_digits_length. Qed.

Lemma sentinel_not_a_digest digest : hexdigest digest ≠ "0".
Proof.
  intros E. pose proof (hexdigest_length digest) as H. rewrite E in H. done.
Qed.

Lemma same_but_tree_refl w : same_but_tree w w.
Proof. by destruct w. Qed.

Lemma same_but_tree_trans w1 w2 w3 :
  same_but_tree w1 w2 → same_but_tree w2 w3 → same_but_tree w1 w3.
Proof. unfold same_but_tree. intros -> ->. done. Qed.

Lemma same_but_tree_with_tree t w : same_but_tree w (with_tree t w).
Proof. done. Qed.

Lemma tree_only_bind {A B} (m : M A) (k : A → M B) :
  tree_only m → (∀ a, tree_only (k a)) → tree_only (x ← m; k x).
Proof.
  intros Hm Hk w. unfold_monad. destruct (Hm w) as [Hr Hs].
  destruct (m w) as [[a| | |] w1]; simpl in *; try done.
  destruct (Hk a w1) as [Hr' Hs']. split; [done|].
  by eapply same_but_tree_trans.
Qed.

Lemma tree_only_ret {A} (a : A) : tree_only (mret a).
Proof. intros w. split; [done|apply same_but_tree_refl]. Qed.

Lemma tree_only_raise {A} e : tree_only (@raise A e).
Proof. intros w. split; [done|apply same_but_tree_refl]. Qed.

Lemma tree_only_get_world : tree_only get_world.
Proof. intros w. split; [done|apply same_but_tree_refl]. Qed.


Lemma tree_only_when b m : tree_only m → tree_only (when b m).
Proof. destruct b; [done|]. intros _. apply tree_only_ret. Qed.

Ltac tree_only_cases w :=
  intros w; cbv beta zeta;
  repeat (first
    [ split; [exact I | apply same_but_tree_refl]
    | split; [exact I | apply same_but_tree_with_tree]
    | match goal with
      | |- context [match ?x with _ => _ end] => destruct x
      end ]).

Lemma tree_only_makedirs name : tree_only (makedirs name).
Proof. unfold makedirs, set_tree. tree_only_cases w. Qed.

Lemma tree_only_read_file name : tree_only (read_file name).
Proof. unfold read_file. tree_only_cases w. Qed.

Lemma tree_only_put_entry p n : tree_only (put_entry p n).
Proof. unfold put_entry, set_tree. tree_only_cases w. Qed.

Lemma tree_only_samefile a b : tree_only (samefile a b).
Proof. unfold samefile. tree_only_cases w. Qed.

Lemma tree_only_rmtree name : tree_only (rmtree name).
Proof. unfold rmtree, set_tree. tree_only_cases w. Qed.

Lemma tree_only_os_remove name : tree_only (os_remove name).
Proof. unfold os_remove, set_tree. tree_only_cases w. Qed.

Lemma tree_only_copy2 s d : tree_only (copy2 s d).
Proof.
  unfold copy2. apply tree_only_bind; [apply tree_only_read_file|]. intros data.
  apply tree_only_bind; [apply tree_only_get_world|]. intros w.
  destruct (decide _); [apply tree_only_raise|].
  destruct (decide _); [apply tree_only_raise|apply tree_only_put_entry].
Qed.

Lemma with_tree_id w : with_tree (tree w) w = w.
Proof. by destruct w. Qed.

Lemma logs_or_raises_logging lv e : logs_or_raises (lv, e) (logging lv e).
Proof. intros w. exists (tree w). left. unfold logging. by rewrite with_tree_id. Qed.

Lemma logs_or_raises_bind {A} entry (m : M A) (k : A → M ()) :
  tree_only m → (∀ a, logs_or_raises entry (k a)) →
  logs_or_raises entry (x ← m; k x).
Proof.
  intros Hm Hk w. unfold_monad. destruct (Hm w) as [Hr Hs].
  destruct (m w) as [[a| |e|] w1]; simpl in *; try done.
  - destruct (Hk a w1) as (t & [H|[e H]]); exists t; rewrite H, Hs; [left|right; exists e]; done.
  - exists (tree w1). right. exists e. unfold same_but_tree in Hs. congruence.
Qed.

Lemma copy_file_body_logs source destination :
  logs_or_raises (INFO, FileCopied source destination)
    (w ← get_world;
     when (os_path_isdir w destination) (raise IsADirectoryError);;
     same ← (if os_path_exists w destination
             then samefile source destination else mret false);
     when same (raise ValueError);;
     let destination_folder := dirname destination in
     when (negb (os_path_exists w destination_folder))
          (makedirs destination_folder);;
     copy2 source destination;;
     logging INFO (FileCopied source destination)).
Proof.
  apply logs_or_raises_bind; [apply tree_only_get_world|]. intros w.
  apply logs_or_raises_bind; [apply tree_only_when, tree_only_raise|]. intros _.
  apply logs_or_raises_bind.
  { destruct (os_path_exists w destination); [apply tree_only_samefile|apply tree_only_ret]. }
  intros same.
  apply logs_or_raises_bind; [apply tree_only_when, tree_only_raise|]. intros _.
  cbv zeta.
  apply logs_or_raises_bind; [apply tree_only_when, tree_only_makedirs|]. intros _.
  apply logs_or_raises_bind; [apply tree_only_copy2|]. intros _.
  apply logs_or_raises_logging.
Qed.

(** [copy_file] always returns, after exactly one log record: the copy
    or the error. *)
Lemma copy_file_returns source destination w :
  ∃ t, copy_file source destination w
       = (Ret (), with_log ((INFO, FileCopied source destination) :: log w) (with_tree t w))
     ∨ copy_file source destination w
       = (Ret (), with_log ((ERROR, CopyError source destination) :: log w) (with_tree t w)).
Proof.
  destruct (copy_file_body_logs source destination w) as (t & [H|[e H]]);
    exists t; cbv zeta in H; unfold copy_file, try_except; rewrite H; [by left|by right].
Qed.

Lemma read_file_world name w : (read_file name w).2 = w.
Proof. unfold read_file. repeat case_match; done. Qed.

Lemma read_file_stat name w data :
  (read_file name w).1 = Ret data → stat w name = Some (NFile data).
Proof.
  unfold read_file. destruct (stat w name) as [[d| |]|]; try done.
  - case_bool_decide; [done|]. by intros [= ->].
  - by case_match.
Qed.

Lemma calculate_checksum_readable md5 file_path w data :
  (read_file file_path w).1 = Ret data →
  calculate_checksum md5 file_path w = (Ret (Some (hexdigest (md5 data))), w).
Proof.
  intros H. unfold calculate_checksum. unfold_monad.
  pose proof (read_file_world file_path w) as Hw.
  destruct (read_file file_path w) as [r w1]. simpl in *. by subst.
Qed.

Section preserves.
Context (R : relation world) `{!PreOrder R}.

Lemma preserves_ret {A} (a : A) : preserves R (mret a).
Proof. intros w. simpl. reflexivity. Qed.

Lemma preserves_raise {A} e : preserves R (@raise A e).
Proof. intros w. simpl. reflexivity. Qed.

Lemma preserves_get_world : preserves R get_world.
Proof. intros w. simpl. reflexivity. Qed.

Lemma preserves_lift {A} (r : outcome A) : preserves R (lift r).
Proof. intros w. simpl. reflexivity. Qed.

Lemma preserves_bind {A B} (m : M A) (k : A → M B) :
  preserves R m → (∀ a, preserves R (k a)) → preserves R (x ← m; k x).
Proof.
  intros Hm Hk w. unfold_monad. specialize (Hm w).
  destruct (m w) as [[a| | |] w1]; simpl in *; try done.
  etrans; [done|apply Hk].
Qed.

Lemma preserves_try_except {A} (m : M A) handler :
  preserves R m → (∀ e, preserves R (handler e)) →
  preserves R (try_except m handler).
Proof.
  intros Hm Hh w. unfold try_except. specialize (Hm w).
  destruct (m w) as [[a| |e|] w1]; simpl in *; try done.
  etrans; [done|apply Hh].
Qed.

Lemma preserves_try_except_os {A} (m : M A) handler :
  preserves R m → (∀ e, preserves R (handler e)) →
  preserves R (try_except_os m handler).
Proof.
  intros Hm Hh w. unfold try_except_os. specialize (Hm w).
  destruct (m w) as [[a| |e|] w1]; simpl in *; try done.
  destruct (is_os_error e); [|done]. etrans; [done|apply Hh].
Qed.

Lemma preserves_when b m : preserves R m → preserves R (when b m).
Proof. destruct b; [done|]. intros _. apply preserves_ret. Qed.

Lemma preserves_for_each {A} (l : list A) body :
  (∀ x, preserves R (body x)) → preserves R (for_each l body).
Proof.
  intros Hb. induction l as [|x l IH]; simpl.
  - apply preserves_ret.
  - apply preserves_bind; [apply Hb|done].
Qed.

Lemma preserves_for_fold {A B} (l : list A) (body : A → B → M B) acc :
  (∀ x a, preserves R (body x a)) → preserves R (for_fold l body acc).
Proof.
  intros Hb. revert acc. induction l as [|x l IH]; intros acc; simpl.
  - apply preserves_ret.
  - apply preserves_bind; [apply Hb|done].
Qed.

Lemma preserves_os_walk {A} fuel top
    (body : string → list string → list string → A → M A) acc :
  (∀ root dirs files a, preserves R (body root dirs files a)) →
  preserves R (os_walk fuel top body acc).
Proof.
  intros Hb. revert top acc. induction fuel as [|fuel IH]; intros top acc.
  - intros w. simpl. reflexivity.
  - simpl. apply preserves_bind; [apply preserves_get_world|]. intros w.
    destruct (scandir w top) as [[dirs files]|]; [|apply preserves_ret].
    apply preserves_bind; [apply Hb|]. intros acc'.
    apply preserves_for_fold. intros d a. apply IH.
Qed.
End preserves.

#[global] Instance same_but_tree_log_preorder : PreOrder same_but_tree_log.
Proof.
  split.
  - intros w. unfold same_but_tree_log. by destruct w.
  - intros w1 w2 w3. unfold same_but_tree_log. intros -> ->. done.
Qed.

Lemma tree_only_preserves {A} (m : M A) :
  tree_only m → preserves same_but_tree_log m.
Proof.
  intros H w. destruct (H w) as [_ Hs]. unfold same_but_tree, same_but_tree_log in *.
  destruct (m w) as [r w1]. simpl in *. rewrite Hs. done.
Qed.

Lemma preserves_logging lv e : preserves same_but_tree_log (logging lv e).
Proof. intros w. unfold same_but_tree_log. by destruct w. Qed.


Lemma get_config_file_loaded w config :
  loaded_config w = Some config →
  ∃ l, get_config_file PATH_TO_CONFIG_JSON w
       = (Ret config,
          with_log (l ++ log w)
            (with_config_json (Some (Document (JDict config))) w)).
Proof.
  unfold loaded_config. intros H.
  destruct (config_json w) as [[raw|[| | | | | |c]|]|] eqn:Hc; simplify_eq.
  - rewrite (get_config_file_dict w c Hc). by eexists (_ :: _).
  - rewrite (get_config_file_missing w Hc). by exists [(WARNING, ConfigNotFound)].
Qed.


Lemma elem_of_ancestors_and_self q p :
  q ∈ ancestors_and_self p ↔ q `prefix_of` p ∧ q ≠ [].
Proof.
  unfold ancestors_and_self. rewrite list_elem_of_fmap. split.
  - intros (n & -> & Hn). apply elem_of_seq in Hn. split.
    + exists (drop n p). by rewrite take_drop.
    + destruct p, n; simpl in *; try done; lia.
  - intros [[k ->] Hne]. exists (length q). split.
    + by rewrite take_app_length.
    + apply elem_of_seq. rewrite length_app. destruct q; simpl in *; [done|lia].
Qed.

(** The tree [makedirs] leaves: the missing directories of the chain. *)
Lemma makedirs_tree_lookup (chain : list path) (t : gmap path node) (p : path) :
  foldr (λ q t, match t !! q with
                | None => <[q := NDir]> t
                | Some _ => t
                end) t chain !! p
  = match t !! p with
    | Some n => Some n
    | None => if bool_decide (p ∈ chain) then Some NDir else None
    end.
Proof.
  induction chain as [|q chain IH]; simpl.
  - by destruct (t !! p).
  - match goal with |- context [foldr ?f t chain] => set (t' := foldr f t chain) in * end.
    assert (∀ x, x ∈ q :: chain ↔ x = q ∨ x ∈ chain) as Hcons by (intros; apply elem_of_cons).
    destruct (decide (p = q)) as [->|Hne].
    + rewrite (bool_decide_true (q ∈ q :: chain)) by (by left).
      destruct (t' !! q) eqn:Hq.
      * rewrite Hq. rewrite IH in Hq. destruct (t !! q); [done|].
        by case_bool_decide.
      * rewrite lookup_insert_eq. rewrite IH in Hq. by destruct (t !! q).
    + assert (t' !! p = match t !! p with
                        | Some n => Some n
                        | None => if bool_decide (p ∈ q :: chain) then Some NDir else None
                        end) as IH'.
      { rewrite IH. destruct (t !! p); [done|]. apply (f_equal (λ b : bool, if b then Some NDir else None)).
        apply bool_decide_ext. rewrite Hcons. naive_solver. }
      destruct (t' !! q); [done|]. by rewrite lookup_insert_ne.
Qed.

Lemma makedirs_spec name w :
  (∃ e, makedirs name w = (Raise e, w) ∧ is_os_error e = true) ∨
  (∃ t, makedirs name w = (Ret (), with_tree t w) ∧
        ∀ p, t !! p = match tree w !! p with
                      | Some n => Some n
                      | None => if bool_decide (p `prefix_of` locate w name ∧ p ≠ [])
                                then Some NDir else None
                      end).
Proof.
  unfold makedirs. cbv zeta.
  destruct (decide (name = "")); [left; by eexists|].
  destruct (bool_decide _); [left; by eexists|].
  destruct (existsb _ _); [left; by eexists|].
  destruct (existsb _ _); [left; by eexists|].
  right. eexists. split; [done|]. intros p. rewrite makedirs_tree_lookup.
  destruct (tree w !! p); [done|].
  by rewrite (bool_decide_ext _ _ (elem_of_ancestors_and_self p (locate w name))).
Qed.


Ltac absurd_lookup :=
  exfalso;
  match goal with
  | H : ?t !! ?p = None, H' : is_Some (?t !! ?p) |- _ =>
      rewrite H in H'; by destruct H'
  end.


Lemma bind_ret_inv {A B} (m : M A) (k : A → M B) w b w' :
  (x ← m; k x) w = (Ret b, w') →
  ∃ a w1, m w = (Ret a, w1) ∧ k a w1 = (Ret b, w').
Proof.
  unfold_monad. destruct (m w) as [[a| | |] w1]; try done. eauto.
Qed.

Lemma try_except_ret_inv {A} (m : M A) handler w a w' :
  try_except m handler w = (Ret a, w') →
  m w = (Ret a, w') ∨ ∃ e w1, m w = (Raise e, w1) ∧ handler e w1 = (Ret a, w').
Proof.
  unfold try_except. destruct (m w) as [[| |e|] w1]; try done; eauto.
Qed.

Lemma get_config_file_ret_inv w config w' :
  get_config_file PATH_TO_CONFIG_JSON w = (Ret config, w') →
  loaded_config w = Some config ∧
  ∃ l, w' = with_log (l ++ log w)
              (with_config_json (Some (Document (JDict config))) w).
Proof.
  intros H. unfold loaded_config.
  destruct (config_json w) as [[raw|v|]|] eqn:Hc.
  - by rewrite (get_config_file_garbage w raw Hc) in H.
  - destruct v as [| | | | | |c];
      try (unfold get_config_file in H; unfold_monad; by rewrite Hc in H).
    rewrite (get_config_file_dict w c Hc) in H. simplify_eq.
    split; [done|]. by eexists (_ :: _).
  - by rewrite (get_config_file_undecodable w Hc) in H.
  - rewrite (get_config_file_missing w Hc) in H. simplify_eq.
    split; [done|]. by exists [(WARNING, ConfigNotFound)].
Qed.


Lemma same_but_tree_log_fields w w' :
  same_but_tree_log w w' →
  cwd w' = cwd w ∧ install_dir w' = install_dir w ∧
  config_json w' = config_json w ∧ checksums_json w' = checksums_json w ∧
  denied w' = denied w ∧ pidfile w' = pidfile w.
Proof. unfold same_but_tree_log. intros ->. done. Qed.

Lemma locate_same_cwd w w' p : cwd w' = cwd w → locate w' p = locate w p.
Proof. unfold locate. by intros ->. Qed.



Lemma string_app_assoc (a b c : string) : (a +:+ b) +:+ c = a +:+ (b +:+ c).
Proof. induction a as [|x a IH]; [done|]. rewrite !app_cons. by rewrite IH. Qed.

Lemma string_app_nil_r (a : string) : a +:+ "" = a.
Proof. induction a as [|x a IH]; [done|]. rewrite app_cons. by rewrite IH. Qed.

Lemma ends_with_inv c a :
  Str.ends_with c a = true → ∃ a', a = a' +:+ String c "".
Proof.
  induction a as [|x a IH]; [done|]. simpl. destruct a as [|y a].
  - intros ->%bool_decide_eq_true. by exists "".
  - intros [a' Ha']%IH. exists (String x a'). by rewrite app_cons, <- Ha'.
Qed.

Lemma ends_with_app c a b :
  b ≠ "" → Str.ends_with c (a +:+ b) = Str.ends_with c b.
Proof.
  intros Hb. induction a as [|x a IH]; [done|]. rewrite app_cons.
  simpl. destruct (a +:+ b) eqn:E; [|done].
  destruct a; [|done]. rewrite app_nil in E. done.
Qed.

Lemma isabs_app a b : a ≠ "" → isabs (a +:+ b) = isabs a.
Proof. by destruct a. Qed.

Lemma normalize_from_app kept l1 l2 :
  normalize_from kept (l1 ++ l2) = normalize_from (normalize_from kept l1) l2.
Proof.
  revert kept. induction l1 as [|c l1 IH]; intros kept; simpl; [done|].
  repeat case_decide; apply IH.
Qed.

(** Resolving a concatenation with a separator in between. *)
Lemma normalize_split_sep kept x y :
  normalize_from kept (Str.split sep (x +:+ String sep y))
  = normalize_from (normalize_from kept (Str.split sep x)) (Str.split sep y).
Proof. by rewrite split_app_sep, normalize_from_app. Qed.

Lemma normalize_split_join kept a b :
  isabs b = false →
  normalize_from kept (Str.split sep (path_join a b))
  = normalize_from (normalize_from kept (Str.split sep a)) (Str.split sep b).
Proof.
  intros Hb. unfold path_join. rewrite Hb.
  destruct (decide (a = "")) as [->|Ha].
  { by rewrite bool_decide_true. }
  rewrite bool_decide_false by done. simpl.
  destruct (Str.ends_with sep a) eqn:He; [|apply normalize_split_sep].
  apply ends_with_inv in He as [a' ->].
  rewrite string_app_assoc. rewrite app_cons, app_nil.
  rewrite normalize_split_sep.
  rewrite <- (string_app_nil_r (a' +:+ String sep "")), string_app_assoc.
  rewrite app_cons, app_nil, normalize_split_sep. simpl.
  done.
Qed.

Lemma path_join_rel_assoc c a b :
  a ≠ "" → isabs a = false → isabs b = false →
  path_join c (path_join a b) = path_join (path_join c a) b.
Proof.
  intros Ha Haa Hb.
  assert (isabs (path_join a b) = false) as Hab.
  { unfold path_join. rewrite Hb. rewrite bool_decide_false by done. simpl.
    destruct (Str.ends_with sep a); by rewrite isabs_app. }
  unfold path_join at 1. rewrite Hab.
  unfold path_join at 3. rewrite Hb.
  assert (path_join c a ≠ "") as Hne.
  { unfold path_join. rewrite Haa.
    destruct (_ || _); destruct c, a; done. }
  assert (Str.ends_with sep (path_join c a) = Str.ends_with sep a) as He.
  { unfold path_join. rewrite Haa.
    destruct (_ || _).
    - by apply ends_with_app.
    - change (c +:+ String sep a) with (c +:+ (String sep "" +:+ a)).
      rewrite <- string_app_assoc. by apply ends_with_app. }
  rewrite (bool_decide_false (path_join c a = "")) by done. rewrite He. simpl.
  unfold path_join. rewrite Hb, Haa. rewrite (bool_decide_false (a = "")) by done.
  simpl.
  destruct (bool_decide (c = "") || Str.ends_with sep c), (Str.ends_with sep a);
    rewrite ?string_app_assoc, ?app_cons, ?app_nil; done.
Qed.

(** Joining a relative path onto a path resolves from where that path
    resolves. *)
Lemma locate_path_join w a b :
  a ≠ "" → isabs b = false →
  locate w (path_join a b) = normalize_from (locate w a) (Str.split sep b).
Proof.
  intros Ha Hb. unfold locate.
  destruct (isabs a) eqn:Haa.
  - assert (isabs (path_join a b) = true) as Hab.
    { unfold path_join. rewrite Hb. rewrite bool_decide_false by done. simpl.
      destruct (Str.ends_with sep a); by rewrite isabs_app. }
    rewrite (path_join_abs (cwd w) (path_join a b)) by done.
    rewrite (path_join_abs (cwd w) a) by done. by apply normalize_split_join.
  - rewrite path_join_rel_assoc by done. by apply normalize_split_join.
Qed.

Lemma clean_name_not_abs name : clean_name name → isabs name = false.
Proof.
  intros (Hne & _ & _ & Hs). destruct name as [|c name]; [done|].
  unfold no_sep in Hs. simpl in *. apply orb_false_iff in Hs as [Hc _]. done.
Qed.

Lemma locate_path_join_name w root name :
  root ≠ "" → clean_name name →
  locate w (path_join root name) = locate w root ++ [name].
Proof.
  intros Hr Hn. rewrite locate_path_join by auto using clean_name_not_abs.
  destruct Hn as (?&?&?&Hs). rewrite split_no_sep by done.
  rewrite normalize_from_clean_id; [done|]. repeat constructor; done.
Qed.

Lemma strip_prefix_Some p k s : strip_prefix p k = Some s ↔ k = p ++ s.
Proof.
  revert k. induction p as [|x p IH]; intros k; simpl.
  - naive_solver.
  - destruct k as [|y k]; [naive_solver|].
    destruct (decide (x = y)) as [->|]; [|naive_solver].
    rewrite IH. naive_solver.
Qed.

Lemma elem_of_children (t : gmap path node) r name n :
  (name, n) ∈ children t r ↔ t !! (r ++ [name]) = Some n.
Proof.
  unfold children. rewrite list_elem_of_omap. split.
  - intros ([k v] & Hkv%elem_of_map_to_list & Hf). simpl in Hf.
    destruct (strip_prefix r k) as [[|x [|]]|] eqn:Hs; simplify_eq.
    apply strip_prefix_Some in Hs as ->. done.
  - intros H. exists (r ++ [name], n). split; [by apply elem_of_map_to_list|].
    simpl. by rewrite (proj2 (strip_prefix_Some r (r ++ [name]) [name]) eq_refl).
Qed.

Lemma scandir_Some w top dirs files :
  scandir w top = Some (dirs, files) →
  top ≠ "" ∧
  (∀ d, d ∈ dirs ↔ tree w !! (locate w top ++ [d]) = Some NDir) ∧
  (∀ f, f ∈ files ↔ ∃ n, tree w !! (locate w top ++ [f]) = Some n ∧ n ≠ NDir).
Proof.
  unfold scandir, stat. destruct (decide (top = "")) as [|Htop]; [done|].
  destruct (node_at _ _) as [[| |]|]; try done.
  case_bool_decide as Hden; [done|]. intros [= <- <-]. split; [done|]. split.
  - intros d. rewrite list_elem_of_fmap. split.
    + intros ([x n] & -> & [Hn Hin]%list_elem_of_filter). simpl in *.
      apply elem_of_children in Hin. by destruct n.
    + intros Hd. exists (d, NDir). split; [done|].
      apply list_elem_of_filter. split; [done|]. by apply elem_of_children.
  - intros f. rewrite list_elem_of_fmap. split.
    + intros ([x n] & -> & [Hn Hin]%list_elem_of_filter). simpl in *.
      apply elem_of_children in Hin. exists n. split; [done|]. by intros ->.
    + intros (n & Hf & Hn). exists (f, n). split; [done|].
      apply list_elem_of_filter. split; [by destruct n|]. by apply elem_of_children.
Qed.

Lemma node_at_cons (t : gmap path node) p : p ≠ [] → node_at t p = t !! p.
Proof. by destruct p. Qed.

Lemma node_at_snoc (t : gmap path node) p x : node_at t (p ++ [x]) = t !! (p ++ [x]).
Proof. apply node_at_cons. by destruct p. Qed.

(** Below a location that is not a directory a well-formed tree has
    nothing. *)
Lemma tree_wf_below (t : gmap path node) p q :
  tree_wf t → p ≠ [] → t !! p ≠ Some NDir → strictly_below p q → t !! q = None.
Proof.
  intros Hwf Hp Hnd [[k ->] Hne].
  induction k as [|x k IH] using rev_ind.
  { by rewrite app_nil_r in Hne. }
  destruct (t !! (p ++ k ++ [x])) as [n|] eqn:Hq; [|done]. exfalso.
  apply Hwf in Hq as (_ & _ & Hpar).
  rewrite app_assoc, removelast_last in Hpar.
  destruct k as [|y k] using rev_ind.
  - rewrite app_nil_r in Hpar. by rewrite node_at_cons in Hpar.
  - rewrite node_at_cons in Hpar by (by destruct p).
    rewrite IH in Hpar; [done|]. intros E.
    apply (f_equal length) in E. rewrite !length_app in E. simpl in E. lia.
Qed.

(** The entries above an entry exist. *)
Lemma tree_wf_above (t : gmap path node) p k n :
  tree_wf t → p ≠ [] → t !! (p ++ k) = Some n → is_Some (t !! p).
Proof.
  intros Hwf Hp. revert n. induction k as [|x k IH] using rev_ind; intros n Hq.
  { rewrite app_nil_r in Hq. eauto. }
  apply Hwf in Hq as (_ & _ & Hpar).
  rewrite app_assoc, removelast_last in Hpar.
  rewrite node_at_cons in Hpar by (by destruct p). eauto.
Qed.

Lemma same_but_tree_log_with_tree w wc t :
  same_but_tree_log w wc → same_but_tree_log w (with_tree t wc).
Proof. unfold same_but_tree_log. intros ->. done. Qed.

Lemma same_but_tree_log_with_log w wc l :
  same_but_tree_log w wc → same_but_tree_log w (with_log l wc).
Proof. unfold same_but_tree_log. intros ->. done. Qed.




Lemma denied_below_false w p q :
  denied_below w p = false → q ∈ denied w → p `prefix_of` q →
  node_at (tree w) q = None.
Proof.
  unfold denied_below. intros H Hq Hp.
  destruct (node_at (tree w) q) eqn:E; [|done]. exfalso.
  assert (existsb (λ q, bool_decide (p `prefix_of` q) &&
                        bool_decide (is_Some (node_at (tree w) q)))
                  (elements (denied w)) = true) as Ht; [|congruence].
  apply existsb_exists. exists q. split; [by apply list_elem_of_In, elem_of_elements|].
  rewrite !bool_decide_true; eauto.
Qed.

Section clear_step.
Context (w : world) (root : string) (r : path).
Hypothesis Hroot : root ≠ "".
Hypothesis Hr : locate w root = r.
Hypothesis Hden : denied_below w r = false.


Lemma path_join_name_nonempty name : clean_name name → path_join root name ≠ "".
Proof.
  intros Hn. pose proof (clean_name_not_abs name Hn) as Habs.
  unfold path_join. rewrite Habs. destruct (_ || _); destruct root; done.
Qed.




End clear_step.




Lemma clear_backup_folder_unfold fuel :
  clear_backup_folder fuel =
  (config ← get_config_file PATH_TO_CONFIG_JSON;
   let backup_folder := backup_destination config in
   w ← get_world;
   if bool_decide (is_path_exist w backup_folder ≠ directory) then
     logging ERROR (BackupFolderMissing backup_folder)
   else
     try_except
       (os_walk fuel backup_folder clear_body ();;
        logging INFO (BackupFolderCleared backup_folder);;
        clear_checksums_file)
       (λ e, logging ERROR ClearError)).
Proof. reflexivity. Qed.

Lemma is_path_exist_directory w p :
  is_path_exist w p = directory ↔ stat w p = Some NDir.
Proof. unfold is_path_exist. destruct (stat w p) as [[| |]|]; naive_solver. Qed.


Lemma calculate_checksum_cases md5 file_path w :
  (∃ data, (read_file file_path w).1 = Ret data ∧
           calculate_checksum md5 file_path w
           = (Ret (Some (hexdigest (md5 data))), w)) ∨
  (∃ ev, calculate_checksum md5 file_path w
         = (Ret None, with_log ((ERROR, ev) :: log w) w) ∧
         (ev = ChecksumAccessError file_path ∨ ev = ChecksumOtherError file_path)).
Proof.
  unfold calculate_checksum. unfold_monad.
  pose proof (read_file_world file_path w) as Hw.
  pose proof (tree_only_read_file file_path w) as [Hr _].
  destruct (read_file file_path w) as [[data| |e|] w1]; simpl in *; subst; try done.
  - left. eauto.
  - right. destruct e; eauto.
Qed.

#[global] Instance preorder_eq_world : PreOrder (@eq world).
Proof. split; [by intros ?|by intros ??? -> ->]. Qed.

Lemma get_files_from_directory_pure fuel directory_path :
  preserves eq (get_files_from_directory fuel directory_path).
Proof.
  apply preserves_os_walk; [apply _|]. intros. apply preserves_ret. apply _.
Qed.

Lemma get_filtered_files_list_pure fuel list_of_paths :
  preserves eq (get_filtered_files_list fuel list_of_paths).
Proof.
  unfold get_filtered_files_list.
  apply preserves_bind; [apply _|apply preserves_get_world; apply _|]. intros w.
  apply preserves_bind; [apply _|apply preserves_lift; apply _|]. intros pre.
  apply preserves_bind; [apply _| |intros; apply preserves_ret; apply _].
  apply preserves_for_fold; [apply _|]. intros [p t] acc.
  destruct t; try (apply preserves_ret; apply _).
  apply preserves_bind; [apply _|apply get_files_from_directory_pure|].
  intros. apply preserves_ret. apply _.
Qed.

Lemma get_filtered_files_list_NoDup fuel list_of_paths w files w' :
  get_filtered_files_list fuel list_of_paths w = (Ret files, w') → NoDup files.
Proof.
  unfold get_filtered_files_list. intros H.
  apply bind_ret_inv in H as (? & ? & _ & H).
  apply bind_ret_inv in H as (? & ? & _ & H).
  apply bind_ret_inv in H as (? & ? & _ & H).
  injection H as <- _. apply NoDup_remove_dups.
Qed.

Lemma differs_false d stored : differs d stored = false → stored = JStr d.
Proof.
  destruct stored; try done. simpl. intros H%bool_decide_eq_false.
  f_equal. symmetry. by apply dec_stable.
Qed.

(** What one iteration of the loop does to the checksums. *)
Lemma backup_file_ret md5 config file_path checksums w checksums' w' :
  backup_file md5 config file_path checksums w = (Ret checksums', w') →
  ((calculate_checksum md5 file_path w).1 = Ret None ∧ checksums' = checksums) ∨
  (∃ d entries entries',
     (calculate_checksum md5 file_path w).1 = Ret (Some d) ∧
     checksums = JDict entries ∧ checksums' = JDict entries' ∧
     dict_lookup file_path entries' = Some (JStr d) ∧
     ∀ other, other ≠ file_path →
              dict_lookup other entries' = dict_lookup other entries).
Proof.
  unfold backup_file. unfold mbind at 1, M_bind at 1.
  destruct (calculate_checksum_cases md5 file_path w)
    as [(data & _ & ->)|(ev & -> & _)].
  2:{ intros [= <- <-]. by left. }
  intros H. right. destruct checksums as [| | | | | |entries]; try done.
  exists (hexdigest (md5 data)), entries.
  destruct (differs _ _) eqn:Hd.
  - apply bind_ret_inv in H as (? & ? & _ & H).
    apply bind_ret_inv in H as (? & ? & _ & H). injection H as <- _.
    eexists. split; [done|]. split; [done|]. split; [done|].
    split; [apply dict_lookup_set|]. intros other Hne. by apply dict_lookup_set_ne.
  - injection H as <- _. exists entries. split; [done|]. split; [done|].
    split; [done|]. split; [|done].
    apply differs_false in Hd. unfold dict_get in Hd.
    destruct (dict_lookup file_path entries); [by subst|].
    exfalso. apply (sentinel_not_a_digest (md5 data)).
    exact (f_equal (λ j, match j with JStr s => s | _ => "" end) (eq_sym Hd)).
Qed.

Lemma backup_loop_other md5 config files :
  ∀ checksums w checksums' w' entries other,
    for_fold files (backup_file md5 config) checksums w = (Ret checksums', w') →
    checksums = JDict entries → other ∉ files →
    ∃ entries', checksums' = JDict entries' ∧
                dict_lookup other entries' = dict_lookup other entries.
Proof.
  induction files as [|f files IH]; intros c w c' w' entries other Hrun -> Hnot.
  - injection Hrun as <- _. eauto.
  - cbn [for_fold] in Hrun. apply bind_ret_inv in Hrun as (c1 & w1 & Hstep & Hrun).
    apply not_elem_of_cons in Hnot as [Hne Hnot].
    apply backup_file_ret in Hstep as [[_ ->]|(d & e & e1 & _ & [= <-] & -> & _ & Hother)].
    + by eapply IH.
    + destruct (IH _ _ _ _ e1 other Hrun eq_refl Hnot) as (e2 & -> & Hl).
      exists e2. split; [done|]. rewrite Hl. by apply Hother.
Qed.

(** After the loop, the checksums hold the digest the loop computed for
    each file it could read. *)
Lemma backup_loop_records md5 config files :
  ∀ checksums w checksums' w',
    NoDup files →
    for_fold files (backup_file md5 config) checksums w = (Ret checksums', w') →
    ∀ i file_path d,
      files !! i = Some file_path →
      observe md5 config files checksums w !! i = Some (Ret (Some d)) →
      ∃ entries, checksums' = JDict entries ∧
                 dict_lookup file_path entries = Some (JStr d).
Proof.
  induction files as [|f files IH]; intros c w c' w' Hnd Hrun i file_path d Hi Ho;
    [done|].
  cbn [for_fold] in Hrun. apply bind_ret_inv in Hrun as (c1 & w1 & Hstep & Hrun).
  apply NoDup_cons in Hnd as [Hnot Hnd].
  cbn [observe] in Ho. rewrite Hstep in Ho.
  destruct i as [|i]; simpl in Hi, Ho.
  - injection Hi as ->. injection Ho as Ho.
    apply backup_file_ret in Hstep as [[Hn _]|(d' & e & e1 & Hd & _ & -> & Hl & _)].
    { congruence. }
    assert (d' = d) as -> by congruence.
    destruct (backup_loop_other _ _ _ _ _ _ _ e1 file_path Hrun eq_refl Hnot) as (e2 & -> & Hl2).
    exists e2. split; [done|]. congruence.
  - by eapply IH.
Qed.





Lemma backup_file_changed md5 config file_path entries w data :
  (read_file file_path w).1 = Ret data →
  differs (hexdigest (md5 data)) (dict_get file_path (JStr "0") entries) = true →
  backup_file md5 config file_path (JDict entries) w
  = (Ret (JDict (dict_set file_path (JStr (hexdigest (md5 data))) entries)),
     (copy_file file_path
        (path_join (backup_destination config) (relpath w file_path "/")) w).2).
Proof.
  intros Hread Hd. unfold backup_file. unfold mbind at 1, M_bind at 1.
  rewrite (calculate_checksum_readable md5 file_path w data Hread).
  rewrite Hd. unfold_monad.
  destruct (copy_file_returns file_path
              (path_join (backup_destination config) (relpath w file_path "/")) w)
    as (t & [H|H]); by rewrite H.
Qed.

Lemma backup_file_same md5 config file_path entries w data :
  (read_file file_path w).1 = Ret data →
  dict_lookup file_path entries = Some (JStr (hexdigest (md5 data))) →
  backup_file md5 config file_path (JDict entries) w = (Ret (JDict entries), w).
Proof.
  intros Hread Hl. unfold backup_file. unfold mbind at 1, M_bind at 1.
  rewrite (calculate_checksum_readable md5 file_path w data Hread).
  unfold dict_get. rewrite Hl. unfold differs.
  by rewrite bool_decide_false by (by intros ?).
Qed.

Lemma bind_run {A B} (m : M A) (k : A → M B) w a w1 :
  m w = (Ret a, w1) → (x ← m; k x) w = k a w1.
Proof. intros H. unfold mbind, M_bind. by rewrite H. Qed.

(** C2.  A refused copy is not retried.  In [blocked_world] the file
    [/src/a] is new and its place in the destination, [/bk/src/a], is taken
    by a directory.  The first cycle logs the refused copy and goes on, but
    it has already recorded the new digest, and persists it; the second
    cycle finds the digests equal, logs no copy attempt and leaves the
    destination as it was.  This holds for every hash function. *)
Theorem failed_copy_is_not_retried (md5 : string → N) :
  ∃ w1 w2,
    daemon_cycle md5 1 blocked_world = (Ret (), w1) ∧
    log w1 = [(INFO, CycleDone); (INFO, JsonSaved);
              (ERROR, CopyError "/src/a" "/bk/src/a");
              (WARNING, ChecksumsNotFound); (INFO, ConfigLoaded)] ∧
    checksums_json w1
    = Some (Document (JDict [("/src/a", JStr (hexdigest (md5 "hello")))])) ∧
    tree w1 = tree blocked_world ∧
    daemon_cycle md5 1 w1 = (Ret (), w2) ∧
    log w2 = [(INFO, CycleDone); (INFO, JsonSaved); (INFO, ChecksumsLoaded);
              (INFO, ConfigLoaded)] ++ log w1 ∧
    tree w2 = tree blocked_world ∧
    stat w2 "/bk/src/a" = Some NDir.
Proof.
  set (cfg := sample_config 5 "/bk" ["/src/a"]).
  set (d := hexdigest (md5 "hello")).
  set (wa := with_log [(INFO, ConfigLoaded)]
               (with_config_json (Some (Document (JDict cfg))) blocked_world)).
  set (wc := with_checksums_json (Some (Document (JDict [])))
               (with_log ((WARNING, ChecksumsNotFound) :: log wa) wa)).
  set (wd := with_log ((ERROR, CopyError "/src/a" "/bk/src/a") :: log wc) wc).
  set (w1 := with_log ((INFO, CycleDone) :: (INFO, JsonSaved) :: log wd)
               (with_checksums_json
                  (Some (Document (JDict [("/src/a", JStr d)]))) wd)).
  set (wa2 := with_log ((INFO, ConfigLoaded) :: log w1)
                (with_config_json (Some (Document (JDict cfg))) w1)).
  set (wc2 := with_log ((INFO, ChecksumsLoaded) :: log wa2) wa2).
  set (w2 := with_log ((INFO, CycleDone) :: (INFO, JsonSaved) :: log wc2)
               (with_checksums_json
                  (Some (Document (JDict [("/src/a", JStr d)]))) wc2)).
  assert (get_config_file PATH_TO_CONFIG_JSON blocked_world = (Ret cfg, wa)) as H1
    by reflexivity.
  assert (get_filtered_files_list 1 (items_to_backup cfg) wa = (Ret ["/src/a"], wa))
    as H2 by (vm_compute; reflexivity).
  assert (get_checksums_json PATH_TO_CHECKSUMS_JSON wa = (Ret (JDict []), wc)) as H3
    by reflexivity.
  assert (backup_file md5 cfg "/src/a" (JDict []) wc
          = (Ret (JDict [("/src/a", JStr d)]), wd)) as H4.
  { rewrite (backup_file_changed md5 cfg "/src/a" [] wc "hello").
    - apply (f_equal (pair _)). vm_compute. reflexivity.
    - vm_compute. reflexivity.
    - change (differs d (JStr "0") = true). unfold differs.
      rewrite bool_decide_true; [done|apply sentinel_not_a_digest]. }
  assert (d = hexdigest (md5 "hello")) as Hd by reflexivity.
  clearbody d.
  assert (get_config_file PATH_TO_CONFIG_JSON w1 = (Ret cfg, wa2)) as H5
    by reflexivity.
  assert (get_filtered_files_list 1 (items_to_backup cfg) wa2 = (Ret ["/src/a"], wa2))
    as H6 by (vm_compute; reflexivity).
  assert (get_checksums_json PATH_TO_CHECKSUMS_JSON wa2
          = (Ret (JDict [("/src/a", JStr d)]), wc2)) as H7 by reflexivity.
  exists w1, w2.
  split.
  { unfold daemon_cycle.
    rewrite (bind_run _ _ _ _ _ H1), (bind_run _ _ _ _ _ H2), (bind_run _ _ _ _ _ H3).
    erewrite bind_run; [reflexivity|].
    cbn [for_fold]. by rewrite (bind_run _ _ _ _ _ H4). }
  split; [reflexivity|]. split; [reflexivity|]. split; [reflexivity|].
  split; [|split; [reflexivity|split; [reflexivity|vm_compute; reflexivity]]].
  unfold daemon_cycle.
  rewrite (bind_run _ _ _ _ _ H5), (bind_run _ _ _ _ _ H6), (bind_run _ _ _ _ _ H7).
  erewrite bind_run; [reflexivity|].
  cbn [for_fold]. erewrite bind_run; [reflexivity|].
  apply (backup_file_same md5 cfg "/src/a" _ wc2 "hello").
  - vm_compute. reflexivity.
  - simpl. by rewrite Hd.
Qed.

Lemma tree_wf_decide (t : gmap path node) :
  map_Forall (λ p _, Forall clean_name p ∧ p ≠ [] ∧
                     node_at t (removelast p) = Some NDir) t →
  tree_wf t.
Proof. intros H p n Hp. exact (H p n Hp). Qed.

Lemma sample_tree_wf : tree_wf sample_tree.
Proof. apply tree_wf_decide. apply (bool_decide_unpack _). vm_compute. reflexivity. Qed.




Lemma redundancy_elimination_witness :
  ∃ kept,
    pre_filtered_paths sample_world sample_items = Ret kept ∧
    (∀ entry, entry ∈ kept ↔
       entry ∈ existing_paths sample_world sample_items ∧
       ¬ ∃ other, other ∈ (existing_paths sample_world sample_items).*1 ∧
                  strict_ancestor sample_world other entry.1) ∧
    (∀ reordered, reordered ≡ₚ sample_items →
       ∃ kept', pre_filtered_paths sample_world reordered = Ret kept' ∧
                kept' ≡ₚ kept) ∧
    ¬ strict_ancestor sample_world "/var/log" "/var/log2" ∧
    commonpath ["/var/log2"; "/var/log"] = Some "/var".
Proof. exact (redundancy_elimination sample_world sample_items). Defined.








Lemma zero_interval_only_by_hand_witness :
  0 ≤ 0 ∧
  update_sleep_interval 0 sample_world
  = (Ret (), with_log ((ERROR, IntervalRejected) :: log sample_world) sample_world).
Proof.
  assert (0 ≤ 0) as H by lia.
  split; [exact H|].
  exact (proj1 zero_interval_only_by_hand 0 sample_world H).
Defined.

(** ** Further properties of the program *)

Lemma dict_set_same k v d : dict_lookup k d = Some v → dict_set k v d = d.
Proof.
  induction d as [|[k' v'] d IH]; simpl; [done|].
  destruct (decide (k' = k)) as [->|]; [by intros [= ->]|].
  intros H. by rewrite IH.
Qed.

Lemma interval_valid_set k v config :
  k ≠ "interval" → interval_valid (dict_set k v config) = interval_valid config.
Proof. intros H. unfold interval_valid. by rewrite dict_lookup_set_ne. Qed.

Lemma destination_valid_set k v config :
  k ≠ "backup_destination" →
  destination_valid (dict_set k v config) = destination_valid config.
Proof. intros H. unfold destination_valid. by rewrite dict_lookup_set_ne. Qed.

Lemma items_valid_set k v config :
  k ≠ "items_to_backup" → items_valid (dict_set k v config) = items_valid config.
Proof. intros H. unfold items_valid. by rewrite dict_lookup_set_ne. Qed.

Lemma heal_interval_valid config : interval_valid (heal_interval config) = true.
Proof.
  unfold heal_interval. destruct (interval_valid config) eqn:H; [done|].
  unfold interval_valid. by rewrite dict_lookup_set.
Qed.

Lemma heal_items_valid config : items_valid (heal_items config) = true.
Proof.
  unfold heal_items. destruct (items_valid config) eqn:H; [done|].
  unfold items_valid. by rewrite dict_lookup_set.
Qed.

Lemma healed_settled w config : settled w (healed w config).
Proof.
  unfold settled, healed. split; [|split].
  - unfold heal_items, heal_destination.
    repeat (case_match; rewrite ?interval_valid_set by done);
      apply heal_interval_valid.
  - apply heal_items_valid.
  - unfold heal_items.
    assert (destination_valid (heal_destination w (heal_interval config)) = true ∨
            dict_lookup "backup_destination" (heal_destination w (heal_interval config))
            = Some (JStr (default_backup_destination w))) as H.
    { unfold heal_destination. case_match; [by left|right]. apply dict_lookup_set. }
    case_match; [done|].
    rewrite destination_valid_set by done. by rewrite dict_lookup_set_ne.
Qed.

Lemma settled_healed w config : settled w config → healed w config = config.
Proof.
  intros (Hi & Hl & Hd). unfold healed, heal_interval. rewrite Hi.
  assert (heal_destination w config = config) as ->.
  { unfold heal_destination. destruct Hd as [->|Hd]; [done|].
    case_match; [done|]. by apply dict_set_same. }
  unfold heal_items. by rewrite Hl.
Qed.

Lemma default_config_settled w : settled w (default_config w).
Proof. split; [done|]. split; [done|]. by right. Qed.

Lemma loaded_config_settled w config :
  loaded_config w = Some config → settled w config.
Proof.
  unfold loaded_config. intros H.
  destruct (config_json w) as [[raw|[| | | | | |c]|]|]; simplify_eq.
  - apply healed_settled.
  - apply default_config_settled.
Qed.

(** X1.  What a load guarantees ([get_config_file]).  Whenever the load
    returns a configuration, its interval is an integer that is not
    negative, its list of items holds only strings that pass
    [is_valid_mac_path], its destination is a string that passes the check
    or is the default destination, and the config document holds exactly
    the configuration returned. *)
Theorem loaded_configuration_is_valid (w : world) (config : dict) (w' : world) :
  get_config_file PATH_TO_CONFIG_JSON w = (Ret config, w') →
  (∃ n, dict_lookup "interval" config = Some n ∧ is_int n = true ∧ 0 ≤ int_value n) ∧
  (∃ items, dict_lookup "items_to_backup" config = Some (JList items) ∧
            ∀ item, item ∈ items →
                    ∃ s, item = JStr s ∧ is_valid_mac_path s = true) ∧
  (∃ s, dict_lookup "backup_destination" config = Some (JStr s) ∧
        (is_valid_mac_path s = true ∨ s = default_backup_destination w)) ∧
  config_json w' = Some (Document (JDict config)).
Proof.
  intros H. apply get_config_file_ret_inv in H as (Hl & l & ->).
  apply loaded_config_settled in Hl as (Hi & Hit & Hd).
  split; [|split; [|split]].
  - unfold interval_valid in Hi. destruct (dict_lookup "interval" config) as [n|]; [|done].
    apply andb_true_iff in Hi as [H1 H2]. exists n. split; [done|]. split; [done|].
    apply negb_true_iff, Z.ltb_ge in H2. done.
  - unfold items_valid in Hit.
    destruct (dict_lookup "items_to_backup" config) as [[| | | | |items|]|]; try done.
    exists items. split; [done|]. intros item Hin.
    rewrite forallb_forall in Hit. specialize (Hit item).
    rewrite <- list_elem_of_In in Hit. specialize (Hit Hin).
    destruct item; try done. eauto.
  - unfold destination_valid in Hd.
    destruct Hd as [Hd|Hd].
    + destruct (dict_lookup "backup_destination" config) as [[| | | |s| |]|]; try done.
      eauto.
    + eauto.
  - done.
Qed.

Lemma settled_install_dir w w' config :
  install_dir w' = install_dir w → settled w config → settled w' config.
Proof.
  intros H (H1 & H2 & H3). split; [done|]. split; [done|].
  unfold default_backup_destination. by rewrite H.
Qed.

Lemma with_config_json_id w : with_config_json (config_json w) w = w.
Proof. by destruct w. Qed.

Lemma get_config_file_settled w config :
  config_json w = Some (Document (JDict config)) →
  settled w config →
  ∃ l, get_config_file PATH_TO_CONFIG_JSON w
       = (Ret config, with_log (l ++ log w) w) ∧
       Forall (λ r, r = (INFO, ConfigLoaded) ∨ r = (WARNING, ConfigBadDestination)) l.
Proof.
  intros Hc Hs. pose proof Hs as (Hi & Hit & Hd).
  rewrite (get_config_file_dict _ config) by done.
  rewrite (settled_healed w config Hs).
  rewrite <- Hc, with_config_json_id.
  exists ((INFO, ConfigLoaded) :: heal_warnings w config).
  split; [done|].
  constructor; [by left|].
  unfold heal_warnings, heal_interval. rewrite Hi.
  assert (items_valid (heal_destination w config) = true) as ->.
  { unfold heal_destination. case_match; [done|]. by rewrite items_valid_set. }
  simpl. case_match; simpl; [constructor|constructor; [by right|constructor]].
Qed.

(** X2.  Loading twice ([get_config_file]).  In the world a load leaves,
    a second load returns the same configuration and changes nothing but
    the log; it repeats at most the warning about the destination (when the
    default destination itself does not pass the check). *)
Theorem config_load_is_idempotent (w : world) (config : dict) (w1 : world) :
  get_config_file PATH_TO_CONFIG_JSON w = (Ret config, w1) →
  ∃ l, get_config_file PATH_TO_CONFIG_JSON w1
       = (Ret config, with_log (l ++ log w1) w1) ∧
       Forall (λ r, r = (INFO, ConfigLoaded) ∨ r = (WARNING, ConfigBadDestination)) l.
Proof.
  intros H. apply get_config_file_ret_inv in H as (Hl & l & ->).
  apply loaded_config_settled in Hl.
  apply get_config_file_settled; [done|].
  by apply (settled_install_dir w).
Qed.

Lemma healed_lookup_other w config k :
  k ≠ "interval" → k ≠ "backup_destination" → k ≠ "items_to_backup" →
  dict_lookup k (healed w config) = dict_lookup k config.
Proof.
  intros H1 H2 H3. unfold healed, heal_items, heal_destination, heal_interval.
  repeat case_match; by rewrite ?dict_lookup_set_ne by done.
Qed.

Lemma healed_destination w config :
  dict_lookup "backup_destination" (healed w config)
  = if destination_valid config then dict_lookup "backup_destination" config
    else Some (JStr (default_backup_destination w)).
Proof.
  unfold healed, heal_items.
  assert (dict_lookup "backup_destination" (heal_destination w (heal_interval config))
          = if destination_valid config then dict_lookup "backup_destination" config
            else Some (JStr (default_backup_destination w))) as H.
  { unfold heal_destination, heal_interval.
    destruct (interval_valid config).
    - destruct (destination_valid config); [done|apply dict_lookup_set].
    - rewrite destination_valid_set by done.
      destruct (destination_valid config);
        [by rewrite dict_lookup_set_ne|apply dict_lookup_set]. }
  destruct (items_valid (heal_destination w (heal_interval config))); [done|].
  by rewrite dict_lookup_set_ne.
Qed.

Lemma healed_items w config :
  dict_lookup "items_to_backup" (healed w config)
  = if items_valid config then dict_lookup "items_to_backup" config
    else Some (JList []).
Proof.
  unfold healed.
  assert (items_valid (heal_destination w (heal_interval config)) = items_valid config) as Hv.
  { unfold heal_destination, heal_interval.
    repeat case_match; by rewrite ?items_valid_set by done. }
  unfold heal_items. rewrite Hv. destruct (items_valid config).
  - unfold heal_destination, heal_interval.
    repeat case_match; by rewrite ?dict_lookup_set_ne by done.
  - apply dict_lookup_set.
Qed.

(** X3.  The load repairs field by field ([get_config_file]).  For a
    config document that is an object, the load returns and rewrites the
    document; a field that passes its check is kept, a field that fails is
    replaced by its default (300, the default destination, the empty list),
    every other key is kept; and one invalid entry in the list of items
    makes the whole list empty. *)
Theorem config_load_repairs_field_by_field (w : world) (stored : dict) :
  config_json w = Some (Document (JDict stored)) →
  ∃ config w',
    get_config_file PATH_TO_CONFIG_JSON w = (Ret config, w') ∧
    config_json w' = Some (Document (JDict config)) ∧
    (∀ k, k ≠ "interval" → k ≠ "backup_destination" → k ≠ "items_to_backup" →
          dict_lookup k config = dict_lookup k stored) ∧
    dict_lookup "interval" config
    = (if interval_valid stored then dict_lookup "interval" stored
       else Some (JInt 300)) ∧
    dict_lookup "backup_destination" config
    = (if destination_valid stored then dict_lookup "backup_destination" stored
       else Some (JStr (default_backup_destination w))) ∧
    dict_lookup "items_to_backup" config
    = (if items_valid stored then dict_lookup "items_to_backup" stored
       else Some (JList [])) ∧
    (∀ items bad,
       dict_lookup "items_to_backup" stored = Some (JList items) →
       bad ∈ items → item_valid bad = false →
       dict_lookup "items_to_backup" config = Some (JList [])).
Proof.
  intros Hc. do 2 eexists. rewrite (get_config_file_dict w stored Hc).
  split; [done|]. split; [done|].
  split; [intros; by apply healed_lookup_other|].
  split; [apply healed_interval|].
  split; [apply healed_destination|].
  split; [apply healed_items|].
  intros items bad Hl Hin Hbad. rewrite healed_items.
  assert (items_valid stored = false) as ->; [|done].
  unfold items_valid. rewrite Hl.
  apply not_true_is_false. intros Hall.
  rewrite forallb_forall in Hall. specialize (Hall bad).
  rewrite <- list_elem_of_In in Hall. specialize (Hall Hin). congruence.
Qed.

Lemma contains_remove_char c s : Str.contains c (Str.remove_char c s) = false.
Proof.
  induction s as [|c' s IH]; simpl; [done|].
  case_bool_decide as H; [done|]. simpl. by rewrite bool_decide_false.
Qed.

Lemma contains_remove_char_ne c d s :
  c ≠ d → Str.contains d (Str.remove_char c s) = Str.contains d s.
Proof.
  intros Hne. induction s as [|c' s IH]; simpl; [done|].
  case_bool_decide as H.
  - subst. by rewrite bool_decide_false.
  - simpl. by rewrite IH.
Qed.

Lemma remove_char_idemp c s :
  Str.remove_char c (Str.remove_char c s) = Str.remove_char c s.
Proof.
  induction s as [|c' s IH]; simpl; [done|].
  case_bool_decide as H; [done|]. simpl. rewrite bool_decide_false by done.
  by rewrite IH.
Qed.

Lemma is_valid_mac_path_eq path :
  is_valid_mac_path path
  = isabs (remove_escape_characters path) && negb (Str.contains ":"%char path).
Proof.
  unfold is_valid_mac_path, isabs, remove_escape_characters, sep.
  rewrite contains_remove_char, contains_remove_char_ne by done.
  destruct (Str.starts_with _ _); simpl; [|done].
  by destruct (Str.contains _ _).
Qed.

(** X4.  What [is_valid_mac_path] accepts.  A path is valid exactly when,
    backslashes removed, it starts with a slash, and it holds no colon; the
    backslash of the pattern can never match, since
    [remove_escape_characters] leaves none; removing the backslashes twice
    is removing them once, and does not change validity. *)
Theorem valid_path_characterisation (path : string) :
  (is_valid_mac_path path = true ↔
     Str.starts_with "/"%char (remove_escape_characters path) = true ∧
     Str.contains ":"%char path = false) ∧
  Str.contains "\"%char (remove_escape_characters path) = false ∧
  remove_escape_characters (remove_escape_characters path)
  = remove_escape_characters path ∧
  is_valid_mac_path (remove_escape_characters path) = is_valid_mac_path path.
Proof.
  split; [|split; [|split]].
  - rewrite is_valid_mac_path_eq, andb_true_iff, negb_true_iff. done.
  - apply contains_remove_char.
  - apply remove_char_idemp.
  - rewrite !is_valid_mac_path_eq. unfold remove_escape_characters.
    rewrite remove_char_idemp. by rewrite contains_remove_char_ne.
Qed.

Lemma settled_set_interval w config interval :
  0 ≤ interval → settled w config →
  settled w (dict_set "interval" (JInt interval) config).
Proof.
  intros Hi (H1 & H2 & H3). split; [|split].
  - unfold interval_valid. rewrite dict_lookup_set. simpl.
    apply negb_true_iff, Z.ltb_ge. done.
  - by rewrite items_valid_set.
  - rewrite destination_valid_set by done. by rewrite dict_lookup_set_ne.
Qed.

(** X5.  A positive interval is stored and read back
    ([update_sleep_interval], [get_config_file]).  With a loadable
    configuration, setting a positive interval returns after reporting the
    change, leaves the tree and the checksums alone, writes the loaded
    configuration with the new interval, and a following load returns that
    configuration and leaves the document as it is. *)
Theorem set_interval_round_trip (interval : Z) (w : world) (config : dict) :
  0 < interval →
  loaded_config w = Some config →
  ∃ w' w'',
    update_sleep_interval interval w = (Ret (), w') ∧
    head (log w') = Some (INFO, IntervalChanged interval) ∧
    tree w' = tree w ∧ checksums_json w' = checksums_json w ∧
    config_json w'
    = Some (Document (JDict (dict_set "interval" (JInt interval) config))) ∧
    get_config_file PATH_TO_CONFIG_JSON w'
    = (Ret (dict_set "interval" (JInt interval) config), w'') ∧
    config_json w'' = config_json w'.
Proof.
  intros Hpos Hl.
  destruct (get_config_file_loaded w config Hl) as (l & Hrun).
  pose proof (loaded_config_settled w config Hl) as Hs.
  unfold update_sleep_interval. rewrite bool_decide_false by lia.
  rewrite (bind_run _ _ _ _ _ Hrun).
  unfold save_json_file. unfold_monad. simpl.
  do 2 eexists. split; [reflexivity|].
  split; [done|]. split; [done|]. split; [done|]. split; [done|].
  erewrite get_config_file_dict by done.
  match goal with |- context [healed ?w' _] =>
    rewrite (settled_healed w' (dict_set "interval" (JInt interval) config))
  end.
  - split; reflexivity.
  - apply (settled_set_interval w); [lia|done].
Qed.

(** X6.  A PID marker that holds no number ([stop_daemon]).  When the
    (ASCII) text of the marker file is not an integer literal as [int]
    reads it (an optional sign, then decimal digits with single underscores
    between them, white space around), [int] raises [ValueError]:
    [stop_daemon] ends with that exception, the marker is not removed, no
    signal is sent and nothing is logged.  An empty marker file is such a
    text, and so are [1__2], [_12], [12_] and [+]; [1_656] is not, it is
    the number 1656. *)
Theorem stop_with_unreadable_marker (w : world) (text : string) :
  pidfile w = Some text →
  isascii text = true →
  py_int (strip text) = None →
  stop_daemon w = (Raise ValueError, w) ∧
  (text = "" → py_int (strip text) = None) ∧
  py_int "1__2" = None ∧ py_int "_12" = None ∧ py_int "12_" = None ∧
  py_int "+" = None ∧ py_int "1_656" = Some 1656.
Proof.
  intros Hp _ Hi. split; [|split; [by intros ->|by vm_compute]].
  unfold stop_daemon. unfold_monad. by rewrite Hp, Hi.
Qed.

Lemma dict_set_set k v v' d : dict_set k v (dict_set k v' d) = dict_set k v d.
Proof.
  induction d as [|[k' x] d IH]; simpl.
  - by rewrite decide_True.
  - destruct (decide (k' = k)) as [->|]; simpl.
    + by rewrite decide_True.
    + rewrite decide_False by done. by rewrite IH.
Qed.

Lemma items_list_set items config :
  items_list (dict_set "items_to_backup" (JList items) config) = items.
Proof. unfold items_list, dict_get. by rewrite dict_lookup_set. Qed.

Lemma settled_items_lookup w config :
  settled w config →
  dict_lookup "items_to_backup" config = Some (JList (items_list config)) ∧
  forallb item_valid (items_list config) = true.
Proof.
  intros (_ & H & _). unfold items_valid in H. unfold items_list, dict_get.
  destruct (dict_lookup "items_to_backup" config) as [[| | | | |items|]|]; done.
Qed.

Lemma settled_set_items w config items :
  forallb item_valid items = true → settled w config →
  settled w (dict_set "items_to_backup" (JList items) config).
Proof.
  intros Hi (H1 & H2 & H3). split; [|split].
  - by rewrite interval_valid_set.
  - unfold items_valid. by rewrite dict_lookup_set.
  - rewrite destination_valid_set by done. by rewrite dict_lookup_set_ne.
Qed.

Lemma existsb_is_item_snoc p items :
  existsb (is_item p) (items ++ [JStr p]) = true.
Proof.
  rewrite existsb_app. simpl. rewrite bool_decide_true by done.
  by rewrite orb_true_r.
Qed.

Lemma list_remove_snoc p items :
  existsb (is_item p) items = false → list_remove p (items ++ [JStr p]) = items.
Proof.
  induction items as [|x items IH]; simpl.
  - by rewrite bool_decide_true.
  - intros [H1 H2]%orb_false_iff. rewrite H1. by rewrite IH.
Qed.

Lemma list_remove_valid p items :
  forallb item_valid items = true → forallb item_valid (list_remove p items) = true.
Proof.
  induction items as [|x items IH]; simpl; [done|].
  intros [H1 H2]%andb_true_iff. destruct (is_item p x); [done|].
  simpl. by rewrite H1, IH.
Qed.

Lemma list_remove_length p items :
  existsb (is_item p) items = true →
  S (length (list_remove p items)) = length items.
Proof.
  induction items as [|x items IH]; simpl; [done|].
  destruct (is_item p x); simpl; [done|]. intros H. by rewrite IH.
Qed.

Lemma list_remove_others p items :
  filter (λ item, is_item p item = false) (list_remove p items)
  = filter (λ item, is_item p item = false) items.
Proof.
  induction items as [|x items IH]; simpl; [done|].
  destruct (is_item p x) eqn:Hx.
  - by rewrite filter_cons_False by (by rewrite Hx).
  - rewrite !filter_cons_True by done. by rewrite IH.
Qed.

(** The steps the two commands share, run in a world where the path is
    valid and exists. *)
Lemma add_backup_item_run item_path w config :
  is_valid_mac_path (absolute_item_path w item_path) = true →
  is_path_exist w (absolute_item_path w item_path) ≠ not_exists →
  loaded_config w = Some config →
  ∃ l, add_backup_item item_path w
       = (let p := absolute_item_path w item_path in
          let w1 := with_log (l ++ log w)
                      (with_config_json (Some (Document (JDict config))) w) in
          if existsb (is_item p) (items_list config) then
            (Ret (), with_log ((INFO, ItemAlreadyListed p) :: log w1) w1)
          else
            (Ret (),
             with_log ((INFO, ItemAdded p) :: (INFO, JsonSaved) :: log w1)
               (with_config_json
                  (Some (Document (JDict
                     (dict_set "items_to_backup"
                        (JList (items_list config ++ [JStr p])) config)))) w1))).
Proof.
  intros Hv He Hl. destruct (get_config_file_loaded w config Hl) as (l & Hrun).
  exists l. unfold add_backup_item. unfold mbind at 1, M_bind at 1, get_world at 1.
  fold (absolute_item_path w item_path). rewrite Hv. rewrite bool_decide_false by done. cbn [negb].
  rewrite (bind_run _ _ _ _ _ Hrun). cbv zeta.
  destruct (existsb _ _); [done|].
  unfold save_json_file. unfold_monad. done.
Qed.

Lemma remove_backup_item_run item_path w config :
  is_valid_mac_path (absolute_item_path w item_path) = true →
  is_path_exist w (absolute_item_path w item_path) ≠ not_exists →
  loaded_config w = Some config →
  ∃ l, remove_backup_item item_path w
       = (let p := absolute_item_path w item_path in
          let w1 := with_log (l ++ log w)
                      (with_config_json (Some (Document (JDict config))) w) in
          if existsb (is_item p) (items_list config) then
            (Ret (),
             with_log ((INFO, ItemRemoved p) :: (INFO, JsonSaved) :: log w1)
               (with_config_json
                  (Some (Document (JDict
                     (dict_set "items_to_backup"
                        (JList (list_remove p (items_list config))) config)))) w1))
          else
            (Ret (), with_log ((WARNING, ItemNotListed p) :: log w1) w1)).
Proof.
  intros Hv He Hl. destruct (get_config_file_loaded w config Hl) as (l & Hrun).
  exists l. unfold remove_backup_item. unfold mbind at 1, M_bind at 1, get_world at 1.
  fold (absolute_item_path w item_path). rewrite Hv. rewrite bool_decide_false by done. cbn [negb].
  rewrite (bind_run _ _ _ _ _ Hrun). cbv zeta.
  destruct (existsb _ _); [|done].
  unfold save_json_file. unfold_monad. done.
Qed.

(** X7.  [add_backup_item] appends.  For a valid path that exists and is
    not yet listed, with a loadable configuration, the command returns after
    reporting the addition; the config document then lists the old items
    followed by the new absolute path, every other field is as loaded, the
    result passes the checks of the load; the tree and the checksums are
    untouched. *)
Theorem add_item_appends (item_path : string) (w : world) (config : dict) :
  is_valid_mac_path (absolute_item_path w item_path) = true →
  is_path_exist w (absolute_item_path w item_path) ≠ not_exists →
  loaded_config w = Some config →
  existsb (is_item (absolute_item_path w item_path)) (items_list config) = false →
  ∃ w',
    add_backup_item item_path w = (Ret (), w') ∧
    head (log w') = Some (INFO, ItemAdded (absolute_item_path w item_path)) ∧
    tree w' = tree w ∧ checksums_json w' = checksums_json w ∧
    ∃ config',
      config_json w' = Some (Document (JDict config')) ∧
      items_list config'
      = items_list config ++ [JStr (absolute_item_path w item_path)] ∧
      (∀ k, k ≠ "items_to_backup" → dict_lookup k config' = dict_lookup k config) ∧
      settled w config'.
Proof.
  intros Hv He Hl Hnew.
  destruct (add_backup_item_run item_path w config Hv He Hl) as (l & Hrun).
  cbv zeta in Hrun. rewrite Hnew in Hrun.
  eexists. split; [exact Hrun|]. split; [done|]. split; [done|]. split; [done|].
  eexists. split; [done|]. split; [apply items_list_set|].
  split; [intros k Hk; by rewrite dict_lookup_set_ne|].
  pose proof (loaded_config_settled w config Hl) as Hs.
  apply settled_set_items; [|done].
  destruct (settled_items_lookup w config Hs) as [_ Hall].
  rewrite forallb_app, Hall. simpl. by rewrite Hv.
Qed.

Lemma loaded_config_of_settled w config :
  config_json w = Some (Document (JDict config)) → settled w config →
  loaded_config w = Some config.
Proof. intros Hc Hs. unfold loaded_config. rewrite Hc. by rewrite settled_healed. Qed.

Lemma add_backup_item_invalid item_path w :
  is_valid_mac_path (absolute_item_path w item_path) = false →
  add_backup_item item_path w
  = (Ret (), with_log ((ERROR, PathInvalid item_path) :: log w) w).
Proof.
  intros Hv. unfold add_backup_item. unfold mbind at 1, M_bind at 1, get_world at 1.
  fold (absolute_item_path w item_path). by rewrite Hv.
Qed.

Lemma add_backup_item_missing item_path w :
  is_valid_mac_path (absolute_item_path w item_path) = true →
  is_path_exist w (absolute_item_path w item_path) = not_exists →
  add_backup_item item_path w
  = (Ret (), with_log ((ERROR, ItemPathMissing (absolute_item_path w item_path))
                         :: log w) w).
Proof.
  intros Hv He. unfold add_backup_item. unfold mbind at 1, M_bind at 1, get_world at 1.
  fold (absolute_item_path w item_path). rewrite Hv.
  by rewrite bool_decide_true by done.
Qed.

Lemma remove_backup_item_invalid item_path w :
  is_valid_mac_path (absolute_item_path w item_path) = false →
  remove_backup_item item_path w
  = (Ret (), with_log ((ERROR, PathInvalid item_path) :: log w) w).
Proof.
  intros Hv. unfold remove_backup_item. unfold mbind at 1, M_bind at 1, get_world at 1.
  fold (absolute_item_path w item_path). by rewrite Hv.
Qed.

Lemma remove_backup_item_missing item_path w :
  is_valid_mac_path (absolute_item_path w item_path) = true →
  is_path_exist w (absolute_item_path w item_path) = not_exists →
  remove_backup_item item_path w
  = (Ret (), with_log ((ERROR, ItemPathMissing (absolute_item_path w item_path))
                         :: log w) w).
Proof.
  intros Hv He. unfold remove_backup_item. unfold mbind at 1, M_bind at 1, get_world at 1.
  fold (absolute_item_path w item_path). rewrite Hv.
  by rewrite bool_decide_true by done.
Qed.

(** When the path is valid and exists, the command returns only if the
    load does. *)
Lemma add_backup_item_loads item_path w w1 :
  is_valid_mac_path (absolute_item_path w item_path) = true →
  is_path_exist w (absolute_item_path w item_path) ≠ not_exists →
  add_backup_item item_path w = (Ret (), w1) →
  ∃ config, loaded_config w = Some config.
Proof.
  intros Hv He. unfold add_backup_item. unfold mbind at 1, M_bind at 1, get_world at 1.
  fold (absolute_item_path w item_path). rewrite Hv.
  rewrite bool_decide_false by done. cbn [negb].
  intros (config & w' & Hload & _)%bind_ret_inv.
  apply get_config_file_ret_inv in Hload as [Hl _]. eauto.
Qed.

(** X8.  Adding twice is adding once ([add_backup_item]).  Whenever the
    command returns, running it again with the same argument returns too,
    leaves the config document, the tree and the checksums as the first run
    left them, and does not report an addition. *)
Theorem add_item_is_idempotent (item_path : string) (w w1 : world) :
  add_backup_item item_path w = (Ret (), w1) →
  ∃ w2,
    add_backup_item item_path w1 = (Ret (), w2) ∧
    config_json w2 = config_json w1 ∧
    tree w2 = tree w1 ∧
    checksums_json w2 = checksums_json w1 ∧
    head (log w2) ≠ Some (INFO, ItemAdded (absolute_item_path w1 item_path)).
Proof.
  intros Hadd.
  destruct (is_valid_mac_path (absolute_item_path w item_path)) eqn:Hv.
  2: { rewrite add_backup_item_invalid in Hadd by done. simplify_eq.
       rewrite add_backup_item_invalid by done. eexists. split; [done|]. done. }
  destruct (decide (is_path_exist w (absolute_item_path w item_path) = not_exists))
    as [He|He].
  { rewrite add_backup_item_missing in Hadd by done. simplify_eq.
    rewrite add_backup_item_missing by done. eexists. split; [done|]. done. }
  destruct (add_backup_item_loads item_path w w1 Hv He Hadd) as (config & Hl).
  pose proof (loaded_config_settled w config Hl) as Hs.
  destruct (settled_items_lookup w config Hs) as [Hlk Hall].
  destruct (add_backup_item_run item_path w config Hv He Hl) as (l & Hrun).
  cbv zeta in Hrun. rewrite Hrun in Hadd. clear Hrun.
  destruct (existsb (is_item (absolute_item_path w item_path)) (items_list config))
    eqn:Hin; simplify_eq.
  - (* already listed *)
    match goal with |- context [add_backup_item _ ?x] => set (wa := x) end.
    assert (loaded_config wa = Some config) as Hl1.
    { apply loaded_config_of_settled; [done|]. by apply (settled_install_dir w). }
    destruct (add_backup_item_run item_path wa config Hv He Hl1) as (l1 & Hrun).
    cbv zeta in Hrun. change (absolute_item_path wa item_path)
      with (absolute_item_path w item_path) in Hrun. rewrite Hin in Hrun.
    eexists. split; [exact Hrun|]. done.
  - (* added *)
    match goal with |- context [add_backup_item _ ?x] => set (wa := x) end.
    set (config' := dict_set "items_to_backup"
                      (JList (items_list config ++
                              [JStr (absolute_item_path w item_path)])) config).
    assert (settled w config') as Hs'.
    { apply settled_set_items; [|done].
      rewrite forallb_app, Hall. simpl. by rewrite Hv. }
    assert (loaded_config wa = Some config') as Hl1.
    { apply loaded_config_of_settled; [done|]. by apply (settled_install_dir w). }
    destruct (add_backup_item_run item_path wa config' Hv He Hl1) as (l1 & Hrun).
    cbv zeta in Hrun. change (absolute_item_path wa item_path)
      with (absolute_item_path w item_path) in Hrun.
    unfold config' in Hrun at 1. rewrite items_list_set, existsb_is_item_snoc in Hrun.
    eexists. split; [exact Hrun|]. done.
Qed.

(** X9.  [remove_backup_item] undoes [add_backup_item].  For a valid
    existing path that is not listed, adding it and then removing it
    returns, reports the removal, and leaves the config document holding
    the configuration as it was loaded; tree and checksums are untouched. *)
Theorem remove_undoes_add (item_path : string) (w : world) (config : dict) :
  is_valid_mac_path (absolute_item_path w item_path) = true →
  is_path_exist w (absolute_item_path w item_path) ≠ not_exists →
  loaded_config w = Some config →
  existsb (is_item (absolute_item_path w item_path)) (items_list config) = false →
  ∃ w1 w2,
    add_backup_item item_path w = (Ret (), w1) ∧
    remove_backup_item item_path w1 = (Ret (), w2) ∧
    head (log w2) = Some (INFO, ItemRemoved (absolute_item_path w item_path)) ∧
    config_json w2 = Some (Document (JDict config)) ∧
    tree w2 = tree w ∧ checksums_json w2 = checksums_json w.
Proof.
  intros Hv He Hl Hnew.
  pose proof (loaded_config_settled w config Hl) as Hs.
  destruct (settled_items_lookup w config Hs) as [Hlk Hall].
  destruct (add_backup_item_run item_path w config Hv He Hl) as (l & Hrun).
  cbv zeta in Hrun. rewrite Hnew in Hrun.
  match type of Hrun with _ = (_, ?x) => set (wa := x) in * end.
  set (config' := dict_set "items_to_backup"
                    (JList (items_list config ++
                            [JStr (absolute_item_path w item_path)])) config).
  assert (settled w config') as Hs'.
  { apply settled_set_items; [|done].
    rewrite forallb_app, Hall. simpl. by rewrite Hv. }
  assert (loaded_config wa = Some config') as Hl1.
  { apply loaded_config_of_settled; [done|]. by apply (settled_install_dir w). }
  destruct (remove_backup_item_run item_path wa config' Hv He Hl1) as (l1 & Hrem).
  cbv zeta in Hrem. change (absolute_item_path wa item_path)
    with (absolute_item_path w item_path) in Hrem.
  rewrite (items_list_set _ config : items_list config' = _) in Hrem.
  rewrite existsb_is_item_snoc, list_remove_snoc in Hrem by done.
  eexists. eexists. split; [exact Hrun|].
  split; [exact Hrem|]. split; [done|]. split; [|done].
  cbn. unfold config'. rewrite dict_set_set.
  by rewrite (dict_set_same _ _ _ Hlk).
Qed.

(** X10.  A path that does not exist ([add_backup_item],
    [remove_backup_item]).  Both commands refuse a valid path that names
    nothing on disk: they log the error and change nothing else, the
    configuration is not even loaded.  So an item whose file has been
    deleted cannot be removed from the list by the command. *)
Theorem items_of_missing_paths_are_refused (item_path : string) (w : world) :
  is_valid_mac_path (absolute_item_path w item_path) = true →
  is_path_exist w (absolute_item_path w item_path) = not_exists →
  add_backup_item item_path w
  = (Ret (), with_log ((ERROR, ItemPathMissing (absolute_item_path w item_path))
                         :: log w) w) ∧
  remove_backup_item item_path w
  = (Ret (), with_log ((ERROR, ItemPathMissing (absolute_item_path w item_path))
                         :: log w) w).
Proof.
  intros Hv He. split.
  - by apply add_backup_item_missing.
  - by apply remove_backup_item_missing.
Qed.

(** X11.  [remove_backup_item] takes one occurrence away.  For a valid
    existing path that is listed, the command returns after reporting the
    removal; the list in the config document is one element shorter, the
    items different from the path are all kept in their order, every other
    field is as loaded; tree and checksums are untouched. *)
Theorem remove_item_takes_first_occurrence (item_path : string) (w : world)
    (config : dict) :
  is_valid_mac_path (absolute_item_path w item_path) = true →
  is_path_exist w (absolute_item_path w item_path) ≠ not_exists →
  loaded_config w = Some config →
  existsb (is_item (absolute_item_path w item_path)) (items_list config) = true →
  ∃ w' config',
    remove_backup_item item_path w = (Ret (), w') ∧
    head (log w') = Some (INFO, ItemRemoved (absolute_item_path w item_path)) ∧
    config_json w' = Some (Document (JDict config')) ∧
    S (length (items_list config')) = length (items_list config) ∧
    filter (λ item, is_item (absolute_item_path w item_path) item = false)
           (items_list config')
    = filter (λ item, is_item (absolute_item_path w item_path) item = false)
             (items_list config) ∧
    (∀ k, k ≠ "items_to_backup" → dict_lookup k config' = dict_lookup k config) ∧
    tree w' = tree w ∧ checksums_json w' = checksums_json w.
Proof.
  intros Hv He Hl Hin.
  destruct (remove_backup_item_run item_path w config Hv He Hl) as (l & Hrun).
  cbv zeta in Hrun. rewrite Hin in Hrun.
  do 2 eexists. split; [exact Hrun|]. split; [done|]. split; [done|].
  rewrite items_list_set.
  split; [by apply list_remove_length|]. split; [apply list_remove_others|].
  split; [intros k Hk; by rewrite dict_lookup_set_ne|]. done.
Qed.

(** X12.  [list_backup_items].  With a loadable configuration the command
    returns the items of the loaded configuration, each a string that
    passes [is_valid_mac_path]; it reports an empty list exactly when there
    is none; it writes the loaded configuration to the config document and
    leaves the tree and the checksums alone. *)
Theorem list_items_effect (w : world) (config : dict) :
  loaded_config w = Some config →
  ∃ w',
    list_backup_items w = (Ret (items_list config), w') ∧
    (∀ item, item ∈ items_list config →
             ∃ s, item = JStr s ∧ is_valid_mac_path s = true) ∧
    head (log w')
    = Some (INFO, if decide (items_list config = []) then ItemsListEmpty
                  else ItemsListed) ∧
    config_json w' = Some (Document (JDict config)) ∧
    tree w' = tree w ∧ checksums_json w' = checksums_json w.
Proof.
  intros Hl. destruct (get_config_file_loaded w config Hl) as (l & Hrun).
  pose proof (loaded_config_settled w config Hl) as Hs.
  destruct (settled_items_lookup w config Hs) as [Hlk Hall].
  unfold list_backup_items. rewrite (bind_run _ _ _ _ _ Hrun). cbv zeta.
  assert (∀ item, item ∈ items_list config →
                  ∃ s, item = JStr s ∧ is_valid_mac_path s = true) as Hvalid.
  { intros item Hin. rewrite forallb_forall in Hall. specialize (Hall item).
    rewrite <- list_elem_of_In in Hall. specialize (Hall Hin).
    destruct item; try done. eauto. }
  destruct (items_list config) as [|item rest];
    (eexists; split; [reflexivity|]; split; [exact Hvalid|done]).
Qed.

#[global] Instance same_files_preorder : PreOrder same_files.
Proof.
  split.
  - by intros w.
  - intros w1 w2 w3 [H1 H2] [H3 H4]. split; congruence.
Qed.

Lemma same_kind_refl n : same_kind n n.
Proof. by destruct n. Qed.

Lemma same_kind_trans n1 n2 n3 : same_kind n1 n2 → same_kind n2 n3 → same_kind n1 n3.
Proof. by destruct n1, n2, n3. Qed.

#[global] Instance only_adds_preorder : PreOrder only_adds.
Proof.
  split.
  - intros w p n H. exists n. split; [done|apply same_kind_refl].
  - intros w1 w2 w3 H1 H2 p n H.
    destruct (H1 p n H) as (n' & H' & Hk).
    destruct (H2 p n' H') as (n'' & H'' & Hk').
    exists n''. split; [done|]. by apply (same_kind_trans _ n').
Qed.

Lemma same_files_logging lv e : preserves same_files (logging lv e).
Proof. by intros w. Qed.

Lemma same_files_get_config_file :
  preserves same_files (get_config_file PATH_TO_CONFIG_JSON).
Proof.
  intros w. destruct (config_json w) as [[raw|v|]|] eqn:Hc.
  - by rewrite (get_config_file_garbage w raw Hc).
  - destruct v as [| | | | | |config];
      try (unfold get_config_file; unfold_monad; by rewrite Hc).
    by rewrite (get_config_file_dict w config Hc).
  - by rewrite (get_config_file_undecodable w Hc).
  - by rewrite (get_config_file_missing w Hc).
Qed.

Lemma same_files_get_checksums_json :
  preserves same_files (get_checksums_json PATH_TO_CHECKSUMS_JSON).
Proof.
  intros w. unfold get_checksums_json. unfold_monad.
  by destruct (checksums_json w) as [[raw|v|]|].
Qed.

Lemma same_files_save_json_file v path :
  preserves same_files (save_json_file v path).
Proof. intros w. unfold save_json_file. unfold_monad. by destruct path. Qed.

Lemma same_files_calculate_checksum md5 file_path :
  preserves same_files (calculate_checksum md5 file_path).
Proof.
  intros w. destruct (calculate_checksum_cases md5 file_path w)
    as [(data & _ & ->)|(ev & -> & _)]; done.
Qed.

Lemma same_files_eq {A} (m : M A) : preserves eq m → preserves same_files m.
Proof. intros H w. by rewrite <- (H w). Qed.

Lemma same_files_only_adds {A} (m : M A) :
  preserves same_files m → preserves only_adds m.
Proof.
  intros H w p n Hp. destruct (H w) as [_ Ht]. rewrite Ht.
  exists n. split; [done|apply same_kind_refl].
Qed.

Lemma makedirs_keeps name w p n :
  tree w !! p = Some n → tree (makedirs name w).2 !! p = Some n.
Proof.
  intros Hp. destruct (makedirs_spec name w) as [(e & -> & _)|(t & -> & Ht)]; [done|].
  simpl. by rewrite Ht, Hp.
Qed.

Lemma only_adds_makedirs name : preserves only_adds (makedirs name).
Proof.
  intros w p n Hp. exists n. split; [by apply makedirs_keeps|apply same_kind_refl].
Qed.

(** What [put_entry] does when it returns. *)
Lemma put_entry_cases p n w :
  (∃ e, put_entry p n w = (Raise e, w)) ∨
  (put_entry p n w = (Ret (), with_tree (<[p := n]> (tree w)) w) ∧
   p ≠ [] ∧
   (tree w !! p = None ∨ ∃ data, tree w !! p = Some (NFile data))).
Proof.
  unfold put_entry, set_tree.
  destruct (node_at (tree w) (removelast p)) as [[| |]|]; eauto.
  destruct p as [|x p]; [simpl; eauto|].
  cbn [node_at].
  destruct (tree w !! (x :: p)) as [[data| |]|] eqn:Hp; eauto;
    case_bool_decide; eauto 10.
Qed.

Lemma only_adds_put_entry p data : preserves only_adds (put_entry p (NFile data)).
Proof.
  intros w q n Hq.
  destruct (put_entry_cases p (NFile data) w) as [(e & ->)|(-> & _ & Hold)].
  - exists n. split; [done|apply same_kind_refl].
  - simpl. destruct (decide (q = p)) as [->|Hne].
    + rewrite lookup_insert_eq. exists (NFile data). split; [done|].
      destruct Hold as [Hold|(d & Hold)]; rewrite Hold in Hq; by simplify_eq.
    + rewrite lookup_insert_ne by done. exists n. split; [done|apply same_kind_refl].
Qed.

Lemma same_files_read_file name : preserves same_files (read_file name).
Proof. intros w. by rewrite read_file_world. Qed.

Lemma same_files_samefile a b : preserves same_files (samefile a b).
Proof. intros w. unfold samefile. by repeat case_match. Qed.

Lemma only_adds_copy2 s d : preserves only_adds (copy2 s d).
Proof.
  unfold copy2.
  apply preserves_bind; [apply _|apply same_files_only_adds, same_files_read_file|].
  intros data. apply preserves_bind; [apply _|apply preserves_get_world; apply _|].
  intros w. repeat case_match;
    [apply preserves_raise; apply _..|apply only_adds_put_entry].
Qed.

Lemma only_adds_logging lv e : preserves only_adds (logging lv e).
Proof. apply same_files_only_adds, same_files_logging. Qed.

Lemma only_adds_copy_file source destination :
  preserves only_adds (copy_file source destination).
Proof.
  unfold copy_file.
  apply preserves_try_except; [apply _| |intros e; apply only_adds_logging].
  apply preserves_bind; [apply _|apply preserves_get_world; apply _|]. intros w.
  apply preserves_bind; [apply _| |].
  { apply preserves_when; [apply _|apply preserves_raise; apply _]. }
  intros _. apply preserves_bind; [apply _| |].
  { case_match; [apply same_files_only_adds, same_files_samefile
                |apply preserves_ret; apply _]. }
  intros same. apply preserves_bind; [apply _| |].
  { apply preserves_when; [apply _|apply preserves_raise; apply _]. }
  intros _. cbv zeta. apply preserves_bind; [apply _| |].
  { apply preserves_when; [apply _|apply only_adds_makedirs]. }
  intros _. apply preserves_bind; [apply _|apply only_adds_copy2|].
  intros _. apply only_adds_logging.
Qed.

Lemma only_adds_backup_file md5 config file_path checksums :
  preserves only_adds (backup_file md5 config file_path checksums).
Proof.
  unfold backup_file.
  apply preserves_bind;
    [apply _|apply same_files_only_adds, same_files_calculate_checksum|].
  intros [d|]; [|apply preserves_ret; apply _].
  destruct checksums; try (apply preserves_raise; apply _).
  case_match; [|apply preserves_ret; apply _].
  apply preserves_bind; [apply _|apply preserves_get_world; apply _|]. intros w.
  apply preserves_bind; [apply _|apply only_adds_copy_file|].
  intros _. apply preserves_ret; apply _.
Qed.

Lemma only_adds_daemon_cycle md5 fuel : preserves only_adds (daemon_cycle md5 fuel).
Proof.
  unfold daemon_cycle.
  apply preserves_bind; [apply _|apply same_files_only_adds, same_files_get_config_file|].
  intros config. apply preserves_bind; [apply _| |].
  { apply same_files_only_adds, same_files_eq, get_filtered_files_list_pure. }
  intros files. apply preserves_bind; [apply _| |].
  { apply same_files_only_adds, same_files_get_checksums_json. }
  intros checksums. apply preserves_bind; [apply _| |].
  { apply preserves_for_fold; [apply _|]. intros f c. apply only_adds_backup_file. }
  intros c. apply preserves_bind; [apply _| |].
  { apply same_files_only_adds, same_files_save_json_file. }
  intros _. apply only_adds_logging.
Qed.

(** X13.  A backup cycle never deletes ([daemon_main], [copy_file]).
    However the cycle ends, every entry of the directory tree is still
    there afterwards, with the kind it had: a file is a file, a directory
    is the same directory, a special entry is the same special entry. *)
Theorem daemon_cycle_never_deletes (md5 : string → N) (fuel : nat) (w : world) :
  (∀ p n, tree w !! p = Some n →
     ∃ n', tree (daemon_cycle md5 fuel w).2 !! p = Some n' ∧ same_kind n n') ∧
  (∀ p, tree w !! p = Some NDir →
        tree (daemon_cycle md5 fuel w).2 !! p = Some NDir) ∧
  (∀ p, tree w !! p = Some NSpecial →
        tree (daemon_cycle md5 fuel w).2 !! p = Some NSpecial).
Proof.
  pose proof (only_adds_daemon_cycle md5 fuel w) as H.
  split; [exact H|]. split.
  - intros p Hp. destruct (H p NDir Hp) as (n' & Hn' & Hk). by destruct n'.
  - intros p Hp. destruct (H p NSpecial Hp) as (n' & Hn' & Hk). by destruct n'.
Qed.

Lemma only_adds_paste_body backup_folder target root dirs files u :
  preserves only_adds (paste_body backup_folder target root dirs files u).
Proof.
  unfold paste_body.
  apply preserves_bind; [apply _|apply preserves_get_world; apply _|]. intros w.
  cbv zeta. apply preserves_bind; [apply _| |].
  { apply preserves_when; [apply _|apply only_adds_makedirs]. }
  intros _. apply preserves_for_each; [apply _|]. intros file. apply only_adds_copy2.
Qed.

Lemma only_adds_paste_backup fuel target_dir :
  preserves only_adds (paste_backup fuel target_dir).
Proof.
  unfold paste_backup.
  apply preserves_bind; [apply _|apply preserves_get_world; apply _|]. intros w.
  cbv zeta. case_match; [apply only_adds_logging|].
  case_match; [apply only_adds_logging|].
  apply preserves_bind; [apply _|apply same_files_only_adds, same_files_get_config_file|].
  intros config. apply preserves_bind; [apply _|apply preserves_get_world; apply _|].
  intros w'. case_match; [apply only_adds_logging|].
  apply preserves_try_except; [apply _| |intros e; apply only_adds_logging].
  apply preserves_bind; [apply _| |intros _; apply only_adds_logging].
  apply preserves_os_walk; [apply _|]. intros. apply only_adds_paste_body.
Qed.

#[global] Instance keeps_checksums_preorder : PreOrder keeps_checksums.
Proof. split; [by intros w|]. intros w1 w2 w3 H1 H2. unfold keeps_checksums in *. congruence. Qed.

Lemma keeps_checksums_tree_log {A} (m : M A) :
  preserves same_but_tree_log m → preserves keeps_checksums m.
Proof. intros H w. by destruct (same_but_tree_log_fields _ _ (H w)) as (_ & _ & _ & ? & _). Qed.

Lemma tree_log_paste_body backup_folder target root dirs files u :
  preserves same_but_tree_log (paste_body backup_folder target root dirs files u).
Proof.
  unfold paste_body.
  apply preserves_bind; [apply _|apply preserves_get_world; apply _|]. intros w.
  cbv zeta. apply preserves_bind; [apply _| |].
  { apply preserves_when; [apply _|apply tree_only_preserves, tree_only_makedirs]. }
  intros _. apply preserves_for_each; [apply _|]. intros file.
  apply tree_only_preserves, tree_only_copy2.
Qed.

Lemma keeps_checksums_get_config_file :
  preserves keeps_checksums (get_config_file PATH_TO_CONFIG_JSON).
Proof.
  intros w. destruct (config_json w) as [[raw|v|]|] eqn:Hc.
  - by rewrite (get_config_file_garbage w raw Hc).
  - destruct v as [| | | | | |config];
      try (unfold get_config_file; unfold_monad; by rewrite Hc).
    by rewrite (get_config_file_dict w config Hc).
  - by rewrite (get_config_file_undecodable w Hc).
  - by rewrite (get_config_file_missing w Hc).
Qed.

Lemma keeps_checksums_logging lv e : preserves keeps_checksums (logging lv e).
Proof. by intros w. Qed.

Lemma keeps_checksums_paste_backup fuel target_dir :
  preserves keeps_checksums (paste_backup fuel target_dir).
Proof.
  unfold paste_backup.
  apply preserves_bind; [apply _|apply preserves_get_world; apply _|]. intros w.
  cbv zeta. case_match; [apply keeps_checksums_logging|].
  case_match; [apply keeps_checksums_logging|].
  apply preserves_bind; [apply _|apply keeps_checksums_get_config_file|].
  intros config. apply preserves_bind; [apply _|apply preserves_get_world; apply _|].
  intros w'. case_match; [apply keeps_checksums_logging|].
  apply preserves_try_except; [apply _| |intros e; apply keeps_checksums_logging].
  apply preserves_bind; [apply _| |intros _; apply keeps_checksums_logging].
  apply preserves_os_walk; [apply _|]. intros.
  apply keeps_checksums_tree_log, tree_log_paste_body.
Qed.

(** X14.  [paste_backup] only adds.  However the command ends, every entry
    of the directory tree is still there with the kind it had, and the
    checksum document is unchanged; and when the target is not a directory,
    the command returns after logging one error and changes nothing
    else. *)
Theorem paste_backup_only_adds (fuel : nat) (target_dir : string) (w : world) :
  (∀ p n, tree w !! p = Some n →
     ∃ n', tree (paste_backup fuel target_dir w).2 !! p = Some n' ∧ same_kind n n') ∧
  checksums_json (paste_backup fuel target_dir w).2 = checksums_json w ∧
  (is_path_exist w (remove_escape_characters (realpath w target_dir)) ≠ directory →
   ∃ e, paste_backup fuel target_dir w
        = (Ret (), with_log ((ERROR, e) :: log w) w)).
Proof.
  split; [exact (only_adds_paste_backup fuel target_dir w)|].
  split; [exact (keeps_checksums_paste_backup fuel target_dir w)|].
  intros Hnd. unfold paste_backup. unfold mbind at 1, M_bind at 1, get_world at 1.
  cbv zeta. case_match; [by eexists|].
  rewrite bool_decide_true by done. by eexists.
Qed.

Lemma locate_empty w : locate w "" = normalize_from [] (Str.split sep (cwd w)).
Proof.
  unfold locate. rewrite normalize_split_join by done. done.
Qed.

Lemma locate_path_join_rel w a b :
  isabs b = false →
  locate w (path_join a b) = normalize_from (locate w a) (Str.split sep b).
Proof.
  intros Hb. destruct (decide (a = "")) as [->|Ha]; [|by apply locate_path_join].
  rewrite locate_empty.
  assert (path_join "" b = b) as ->.
  { unfold path_join. by rewrite Hb. }
  unfold locate. by rewrite normalize_split_join.
Qed.

Lemma locate_root w : locate w "/" = [].
Proof. unfold locate. by rewrite path_join_abs. Qed.

Lemma join_cons_not_abs x l : clean_name x → isabs (Str.join sep (x :: l)) = false.
Proof.
  intros Hx. pose proof (clean_name_not_abs x Hx) as Hn.
  destruct l as [|y l]; [done|].
  change (Str.join sep (x :: y :: l)) with (x +:+ String sep (Str.join sep (y :: l))).
  rewrite isabs_app; [done|]. by destruct Hx.
Qed.

Lemma relpath_root w file_path :
  relpath w file_path "/"
  = match locate w file_path with
    | [] => "."
    | comps => Str.join sep comps
    end.
Proof.
  unfold relpath. rewrite locate_root. simpl. by destruct (locate w file_path).
Qed.

Lemma locate_backup_location w config file_path :
  locate w (backup_location w config file_path)
  = locate w (backup_destination config) ++ locate w file_path.
Proof.
  unfold backup_location. rewrite relpath_root.
  pose proof (locate_clean w file_path) as Hclean.
  destruct (locate w file_path) as [|x l] eqn:Hf.
  - rewrite locate_path_join_rel by done. simpl. by rewrite app_nil_r.
  - inversion Hclean; subst.
    rewrite locate_path_join_rel by (by apply join_cons_not_abs).
    rewrite split_join; [|done|by apply clean_no_sep].
    by apply normalize_from_clean_id.
Qed.

Lemma backup_location_below w config file_path data :
  (read_file file_path w).1 = Ret data →
  strictly_below (locate w (backup_destination config))
                 (locate w (backup_location w config file_path)).
Proof.
  intros Hr. rewrite locate_backup_location. split.
  - by apply prefix_app_r.
  - intros Heq. rewrite <- (app_nil_r (locate w (backup_destination config))) in Heq at 2.
    apply app_inv_head in Heq.
    apply read_file_stat in Hr. unfold stat in Hr.
    destruct (decide (file_path = "")); [done|].
    rewrite Heq in Hr. done.
Qed.

(** X15.  The backup mirrors the absolute source path ([daemon_main]).
    The place a file is copied to, [os.path.join(destination,
    os.path.relpath(file_path, '/'))], resolves to the location of the
    destination followed by the location of the file; so files at
    different locations are copied to different locations, and the copy of
    a readable file lies strictly below the destination. *)
Theorem backup_location_mirrors_source (w : world) (config : dict) :
  (∀ file_path,
     locate w (backup_location w config file_path)
     = locate w (backup_destination config) ++ locate w file_path) ∧
  (∀ a b,
     locate w (backup_location w config a) = locate w (backup_location w config b) →
     locate w a = locate w b) ∧
  (∀ file_path data,
     (read_file file_path w).1 = Ret data →
     strictly_below (locate w (backup_destination config))
                    (locate w (backup_location w config file_path))).
Proof.
  split; [apply locate_backup_location|]. split.
  - intros a b. rewrite !locate_backup_location. apply app_inv_head.
  - apply backup_location_below.
Qed.

#[global] Instance outside_kept_preorder c D : PreOrder (outside_kept c D).
Proof.
  split.
  - intros w Hc. split; [done|]. auto.
  - intros w1 w2 w3 H1 H2 Hc. destruct (H1 Hc) as [Hc2 K1].
    destruct (H2 Hc2) as [Hc3 K2]. split; [done|]. auto.
Qed.

Lemma same_files_outside_kept {A} c D (m : M A) :
  preserves same_files m → preserves (outside_kept c D) m.
Proof.
  intros H w Hc. destruct (H w) as [H1 H2]. split; [congruence|].
  intros q n Hq _. by rewrite H2.
Qed.

Lemma preserves_get_world_bind {A} (R : relation world) (k : world → M A) :
  (∀ w, R w (k w w).2) → preserves R (w ← get_world; k w).
Proof. intros H w. apply H. Qed.

Lemma tree_only_cwd {A} (m : M A) w : tree_only m → cwd (m w).2 = cwd w.
Proof. intros H. destruct (H w) as [_ Hs]. unfold same_but_tree in Hs. by rewrite Hs. Qed.

Lemma outside_kept_makedirs c D name : preserves (outside_kept c D) (makedirs name).
Proof.
  intros w Hc. split.
  - by rewrite (tree_only_cwd _ _ (tree_only_makedirs name)).
  - intros q n Hq _. by apply makedirs_keeps.
Qed.

Lemma outside_kept_put_entry c D p n :
  strictly_below D p → preserves (outside_kept c D) (put_entry p n).
Proof.
  intros Hp w Hc.
  destruct (put_entry_cases p n w) as [(e & ->)|(-> & _ & _)]; [by split; auto|].
  split; [done|]. intros q m Hq Hnb. simpl.
  rewrite lookup_insert_ne; [done|]. by intros <-.
Qed.

Lemma strictly_below_app D p x : strictly_below D p → strictly_below D (p ++ x).
Proof.
  intros [H1 H2]. split.
  - by apply prefix_app_r.
  - intros Heq. apply H2. apply (anti_symm prefix); [|done].
    rewrite <- Heq. by apply prefix_app_r.
Qed.

Lemma outside_kept_copy2 c D s d :
  (∀ w, cwd w = c → strictly_below D (locate w d)) →
  preserves (outside_kept c D) (copy2 s d).
Proof.
  intros Hd. unfold copy2.
  apply preserves_bind;
    [apply _|apply same_files_outside_kept, same_files_read_file|].
  intros data. apply preserves_get_world_bind. intros w.
  destruct (decide (d = "")); [by apply preserves_raise; apply _|].
  destruct (decide _); [by apply preserves_raise; apply _|].
  intros Hc. apply outside_kept_put_entry; [|done].
  unfold real_destination. specialize (Hd w Hc).
  destruct (os_path_isdir w d); [by apply strictly_below_app|done].
Qed.

Lemma outside_kept_logging c D lv e : preserves (outside_kept c D) (logging lv e).
Proof. apply same_files_outside_kept, same_files_logging. Qed.

Lemma outside_kept_copy_file c D source destination :
  (∀ w, cwd w = c → strictly_below D (locate w destination)) →
  preserves (outside_kept c D) (copy_file source destination).
Proof.
  intros Hd. unfold copy_file.
  apply preserves_try_except; [apply _| |intros e; apply outside_kept_logging].
  apply preserves_bind; [apply _|apply preserves_get_world; apply _|]. intros w.
  apply preserves_bind; [apply _| |].
  { apply preserves_when; [apply _|apply preserves_raise; apply _]. }
  intros _. apply preserves_bind; [apply _| |].
  { case_match; [apply same_files_outside_kept, same_files_samefile
                |apply preserves_ret; apply _]. }
  intros same. apply preserves_bind; [apply _| |].
  { apply preserves_when; [apply _|apply preserves_raise; apply _]. }
  intros _. cbv zeta. apply preserves_bind; [apply _| |].
  { apply preserves_when; [apply _|apply outside_kept_makedirs]. }
  intros _. apply preserves_bind; [apply _|by apply outside_kept_copy2|].
  intros _. apply outside_kept_logging.
Qed.

Lemma outside_kept_backup_file md5 config file_path checksums w0 :
  preserves (outside_kept (cwd w0) (locate w0 (backup_destination config)))
    (backup_file md5 config file_path checksums).
Proof.
  intros w. unfold backup_file.
  destruct (calculate_checksum_cases md5 file_path w)
    as [(data & Hr & Hcalc)|(ev & Hcalc & _)];
    rewrite (bind_run _ _ _ _ _ Hcalc); [|by intros Hc; split; auto].
  destruct checksums; try (by intros Hc; split; auto).
  destruct (differs _ _); [|by intros Hc; split; auto].
  unfold mbind at 1, M_bind at 1, get_world at 1.
  fold (backup_location w config file_path).
  intros Hc.
  assert (outside_kept (cwd w0) (locate w0 (backup_destination config)) w
            (copy_file file_path (backup_location w config file_path) w).2) as Hk.
  { apply outside_kept_copy_file. intros w' Hc'.
    rewrite (locate_same_cwd w w') by congruence.
    rewrite (locate_same_cwd w w0 (backup_destination config)) by congruence.
    by apply (backup_location_below w config file_path data). }
  unfold mbind, M_bind.
  destruct (copy_file file_path (backup_location w config file_path) w)
    as [[[]|?|?|] w2]; exact (Hk Hc).
Qed.

Lemma outside_kept_daemon_rest md5 fuel config w0 :
  preserves (outside_kept (cwd w0) (locate w0 (backup_destination config)))
    (list_of_file_paths ← get_filtered_files_list fuel (items_to_backup config);
     checksums ← get_checksums_json PATH_TO_CHECKSUMS_JSON;
     checksums ← for_fold list_of_file_paths (backup_file md5 config) checksums;
     save_json_file checksums PATH_TO_CHECKSUMS_JSON;;
     logging INFO CycleDone).
Proof.
  apply preserves_bind; [apply _| |].
  { apply same_files_outside_kept, same_files_eq, get_filtered_files_list_pure. }
  intros files. apply preserves_bind; [apply _| |].
  { apply same_files_outside_kept, same_files_get_checksums_json. }
  intros checksums. apply preserves_bind; [apply _| |].
  { apply preserves_for_fold; [apply _|]. intros f c. apply outside_kept_backup_file. }
  intros c. apply preserves_bind; [apply _| |].
  { apply same_files_outside_kept, same_files_save_json_file. }
  intros _. apply outside_kept_logging.
Qed.

(** X16.  A backup cycle writes only below the destination
    ([daemon_main]).  With a loadable configuration, every entry of the
    tree that does not lie strictly below the configured destination is
    after the cycle exactly what it was before, content included, however
    the cycle ends. *)
Theorem daemon_cycle_keeps_outside (md5 : string → N) (fuel : nat) (w : world)
    (config : dict) :
  loaded_config w = Some config →
  ∀ q n, tree w !! q = Some n →
         ¬ strictly_below (locate w (backup_destination config)) q →
         tree (daemon_cycle md5 fuel w).2 !! q = Some n.
Proof.
  intros Hl q n Hq Hnb.
  destruct (get_config_file_loaded w config Hl) as (l & Hrun).
  unfold daemon_cycle. rewrite (bind_run _ _ _ _ _ Hrun).
  match goal with |- context [?m ?w1] =>
    match w1 with with_log _ _ =>
      destruct (outside_kept_daemon_rest md5 fuel config w w1 eq_refl) as [_ H]
    end end.
  by apply H.
Qed.

Lemma depth_bound (t : gmap path node) p n :
  t !! p = Some n → (length p ≤ depth t)%nat.
Proof.
  intros Hp. unfold depth.
  assert (p ∈ (map_to_list t).*1) as Hin.
  { apply list_elem_of_fmap. exists (p, n). split; [done|].
    by apply elem_of_map_to_list. }
  induction ((map_to_list t).*1) as [|x l IH]; [by apply elem_of_nil in Hin|].
  apply elem_of_cons in Hin as [->|Hin]; rewrite fmap_cons; cbn [foldr]; [lia|].
  specialize (IH Hin). lia.
Qed.

Lemma denied_below_mono w p p' :
  p `prefix_of` p' → denied_below w p = false → denied_below w p' = false.
Proof.
  intros Hpp. unfold denied_below.
  intros H. apply not_true_is_false. intros H'. apply not_true_iff_false in H.
  apply H. apply existsb_exists in H' as (q & Hq & Hc).
  apply existsb_exists. exists q. split; [done|].
  apply andb_true_iff in Hc as [H1 H2]. apply andb_true_iff. split; [|done].
  apply bool_decide_eq_true. apply bool_decide_eq_true in H1.
  by transitivity p'.
Qed.

Lemma get_files_from_directory_collect fuel directory_path :
  get_files_from_directory fuel directory_path
  = os_walk fuel directory_path collect [].
Proof. reflexivity. Qed.

Section walk.
Context (w : world).
Hypothesis Hwf : tree_wf (tree w).

Lemma tree_key_clean p x n : tree w !! (p ++ [x]) = Some n → clean_name x.
Proof.
  intros H. destruct (Hwf _ _ H) as (Hc & _).
  apply Forall_app in Hc as [_ Hc]. by inversion Hc.
Qed.

Lemma stat_path_join_name top x :
  top ≠ "" → clean_name x →
  stat w (path_join top x) = tree w !! (locate w top ++ [x]).
Proof.
  intros Ht Hx. unfold stat.
  rewrite decide_False by (by apply (path_join_name_nonempty w top _ Ht eq_refl)).
  rewrite locate_path_join_name by done. apply node_at_snoc.
Qed.

(** The entries below [top] are its own files and the entries below its
    sub-directories. *)
Lemma file_below_step top dirs files q :
  scandir w top = Some (dirs, files) →
  file_below w top q ↔
  (∃ f, f ∈ files ∧ q = locate w top ++ [f]) ∨
  (∃ d, d ∈ dirs ∧ file_below w (path_join top d) q).
Proof.
  intros (Ht & Hdirs & Hfiles)%scandir_Some. split.
  - intros (n & Hq & Hn & [[k ->] Hne]).
    destruct k as [|x k]; [by rewrite app_nil_r in Hne|].
    destruct k as [|y k].
    + left. exists x. split; [|done]. apply Hfiles. eauto.
    + right. exists x.
      assert (locate w top ++ x :: y :: k = (locate w top ++ [x]) ++ y :: k) as Heq
        by (by rewrite <- app_assoc).
      rewrite Heq in Hq.
      assert (locate w top ++ [x] ≠ []) as Hnn by (by destruct (locate w top)).
      destruct (tree_wf_above _ _ _ _ Hwf Hnn Hq) as [m Hm].
      assert (m = NDir) as ->.
      { destruct (decide (m = NDir)) as [|Hnd]; [done|]. exfalso.
        assert (tree w !! ((locate w top ++ [x]) ++ y :: k) = None) as Hnone.
        { apply (tree_wf_below _ (locate w top ++ [x])); [done|done|by rewrite Hm; intros [= ?]|].
          split; [by apply prefix_app_r|].
          intros Hbad. rewrite <- (app_nil_r (locate w top ++ [x])) in Hbad at 2.
          by apply app_inv_head in Hbad. }
        by rewrite Hnone in Hq. }
      split; [by apply Hdirs|].
      exists n. rewrite Heq. split; [done|]. split; [done|].
      rewrite locate_path_join_name by (done || by eapply tree_key_clean).
      split; [by apply prefix_app_r|].
      intros Hbad. rewrite <- (app_nil_r (locate w top ++ [x])) in Hbad at 2.
      by apply app_inv_head in Hbad.
  - intros [(f & Hf & ->)|(d & Hd & (n & Hq & Hn & Hb))].
    + apply Hfiles in Hf as (n & Hn & Hnd). exists n. split; [done|]. split; [done|].
      split; [by apply prefix_app_r|].
      intros Hbad. rewrite <- (app_nil_r (locate w top)) in Hbad at 2.
      by apply app_inv_head in Hbad.
    + exists n. split; [done|]. split; [done|].
      apply Hdirs in Hd.
      rewrite locate_path_join_name in Hb by (done || by eapply tree_key_clean).
      destruct Hb as [Hp Hne]. split.
      * transitivity (locate w top ++ [d]); [by apply prefix_app_r|done].
      * intros ->. apply Hne. apply (anti_symm prefix); [|done].
        by apply prefix_app_r.
Qed.

(** The loop over the sub-directories, given what one walk does. *)
Lemma collect_dirs fuel top dirs :
  top ≠ "" →
  (∀ d, d ∈ dirs →
        ∀ acc, ∃ new,
          os_walk fuel (path_join top d) collect acc w = (Ret (acc ++ new), w) ∧
          ∀ q, (∃ f, f ∈ new ∧ locate w f = q)
               ↔ file_below w (path_join top d) q) →
  ∀ acc, ∃ new,
    for_fold dirs (λ d a, os_walk fuel (path_join top d) collect a) acc w
    = (Ret (acc ++ new), w) ∧
    ∀ q, (∃ f, f ∈ new ∧ locate w f = q)
         ↔ ∃ d, d ∈ dirs ∧ file_below w (path_join top d) q.
Proof.
  intros Ht. induction dirs as [|d dirs IH]; intros Hwalk acc.
  - exists []. rewrite app_nil_r. split; [done|].
    intros q. split.
    + intros (f & Hf & _). by apply elem_of_nil in Hf.
    + intros (d & Hd & _). by apply elem_of_nil in Hd.
  - destruct (Hwalk d (list_elem_of_here _ _) acc) as (new1 & Hrun1 & Hspec1).
    destruct (IH (λ d' Hd', Hwalk d' (list_elem_of_further _ _ _ Hd')) (acc ++ new1))
      as (new2 & Hrun2 & Hspec2).
    exists (new1 ++ new2). cbn [for_fold].
    rewrite (bind_run _ _ _ _ _ Hrun1), Hrun2, app_assoc. split; [done|].
    intros q. split.
    + intros (f & [Hf|Hf]%elem_of_app & Hloc).
      * exists d. split; [by left|]. apply Hspec1. eauto.
      * destruct (proj1 (Hspec2 q)) as (d' & Hd' & Hb); [by eauto|].
        exists d'. split; [by right|done].
    + intros (d' & [->|Hd']%elem_of_cons & Hb).
      * apply Hspec1 in Hb as (f & Hf & Hloc). exists f. split; [|done].
        apply elem_of_app. by left.
      * destruct (proj2 (Hspec2 q)) as (f & Hf & Hloc); [by eauto|].
        exists f. split; [|done]. apply elem_of_app. by right.
Qed.

Lemma walk_collects fuel :
  ∀ top acc,
    stat w top = Some NDir →
    denied_below w (locate w top) = false →
    (depth (tree w) < fuel + length (locate w top))%nat →
    (1 ≤ fuel)%nat →
    ∃ new,
      os_walk fuel top collect acc w = (Ret (acc ++ new), w) ∧
      ∀ q, (∃ f, f ∈ new ∧ locate w f = q) ↔ file_below w top q.
Proof.
  induction fuel as [|fuel IH]; intros top acc Hstat Hden Hdepth Hfuel; [lia|].
  cbn [os_walk]. unfold mbind at 1, M_bind at 1, get_world at 1.
  destruct (scandir w top) as [[dirs files]|] eqn:Hscan.
  2: { exfalso. unfold scandir in Hscan. rewrite Hstat in Hscan.
       case_bool_decide as Hd; [|done].
       unfold stat in Hstat. destruct (decide (top = "")); [done|].
       assert (node_at (tree w) (locate w top) = None) as Hnone.
       { by apply (denied_below_false w (locate w top)). }
       by rewrite Hnone in Hstat. }
  pose proof (scandir_Some _ _ _ _ Hscan) as (Ht & Hdirs & Hfiles).
  rewrite (bind_run _ _ _ _ _
             (eq_refl : collect top dirs files acc w
                        = (Ret (acc ++ (path_join top <$> files)), w))).
  destruct (collect_dirs fuel top dirs Ht) with (acc := acc ++ (path_join top <$> files))
    as (new & Hrun & Hspec).
  { intros d Hd acc'. apply Hdirs in Hd.
    pose proof (tree_key_clean _ _ _ Hd) as Hclean.
    pose proof (depth_bound _ _ _ Hd) as Hlen. rewrite length_app in Hlen.
    simpl in Hlen.
    apply IH.
    - by rewrite stat_path_join_name.
    - rewrite locate_path_join_name by done.
      by apply (denied_below_mono w (locate w top)); [apply prefix_app_r|].
    - rewrite locate_path_join_name, length_app by done. simpl. lia.
    - lia. }
  exists ((path_join top <$> files) ++ new).
  rewrite Hrun, app_assoc. split; [done|].
  intros q. rewrite (file_below_step top dirs files q Hscan). split.
  - intros (f & [Hf|Hf]%elem_of_app & Hloc).
    + left. apply list_elem_of_fmap in Hf as (x & -> & Hx). exists x. split; [done|].
      rewrite <- Hloc. apply locate_path_join_name; [done|].
      apply Hfiles in Hx as (n & Hn & _). by eapply tree_key_clean.
    + right. apply Hspec. eauto.
  - intros [(x & Hx & ->)|Hd].
    + exists (path_join top x). split.
      * apply elem_of_app. left. apply list_elem_of_fmap. eauto.
      * apply locate_path_join_name; [done|].
        apply Hfiles in Hx as (n & Hn & _). by eapply tree_key_clean.
    + apply Hspec in Hd as (f & Hf & Hloc). exists f. split; [|done].
      apply elem_of_app. by right.
Qed.

End walk.

(** X17.  [get_files_from_directory] collects exactly the files below the
    directory.  In a well-formed tree, for a directory below which no
    listing is denied, and with a budget larger than the depth of the tree,
    the walk returns without changing the world, and the paths it returns
    resolve exactly to the entries strictly below the directory that are
    not directories. *)
Theorem directory_walk_collects_files (fuel : nat) (directory_path : string)
    (w : world) :
  tree_wf (tree w) →
  stat w directory_path = Some NDir →
  denied_below w (locate w directory_path) = false →
  (depth (tree w) < fuel)%nat →
  ∃ files_list,
    get_files_from_directory fuel directory_path w = (Ret files_list, w) ∧
    ∀ q, (∃ f, f ∈ files_list ∧ locate w f = q)
         ↔ (∃ n, tree w !! q = Some n ∧ n ≠ NDir ∧
                 strictly_below (locate w directory_path) q).
Proof.
  intros Hwf Hstat Hden Hfuel.
  destruct (walk_collects w Hwf fuel directory_path [] Hstat Hden) as (new & Hrun & Hspec);
    [lia..|].
  exists new. split; [exact Hrun|exact Hspec].
Qed.

Lemma bind_out_of_fuel {A B} (m : M A) (k : A → M B) w w1 :
  m w = (OutOfFuel, w1) → (x ← m; k x) w = (OutOfFuel, w1).
Proof. intros H. unfold mbind, M_bind. by rewrite H. Qed.

Lemma ret_bind_run {A B} (a : A) (k : A → M B) w : (x ← mret a; k x) w = k a w.
Proof. reflexivity. Qed.

Lemma walk_outcome fuel :
  ∀ top acc w,
    ∃ r, os_walk fuel top collect acc w = (r, w) ∧ returns_or_runs_out r.
Proof.
  induction fuel as [|fuel IH]; intros top acc w; [by exists OutOfFuel|].
  cbn [os_walk]. unfold mbind at 1, M_bind at 1, get_world at 1.
  destruct (scandir w top) as [[dirs files]|]; [|by eexists].
  rewrite (bind_run _ _ _ _ _
             (eq_refl : collect top dirs files acc w
                        = (Ret (acc ++ (path_join top <$> files)), w))).
  generalize (acc ++ (path_join top <$> files)). clear acc.
  induction dirs as [|d dirs IHd]; intros acc; [by eexists|].
  cbn [for_fold].
  destruct (IH (path_join top d) acc w) as ([l| | |] & Hl & Hr); try done.
  - rewrite (bind_run _ _ _ _ _ Hl). apply IHd.
  - exists OutOfFuel. by rewrite (bind_out_of_fuel _ _ _ _ Hl).
Qed.

Lemma filtered_loop_outcome fuel (pre : list (string * path_type)) :
  ∀ acc w,
    ∃ r, for_fold pre
           (λ '(path, ptype) final_paths,
              match ptype with
              | directory =>
                  files ← get_files_from_directory fuel path;
                  mret (final_paths ++ files)
              | file => mret (final_paths ++ [path])
              | _ => mret final_paths
              end) acc w = (r, w) ∧
         returns_or_runs_out r.
Proof.
  induction pre as [|[path ptype] pre IH]; intros acc w; [by eexists|].
  cbn [for_fold]. destruct ptype.
  - rewrite ret_bind_run. apply IH.
  - rewrite get_files_from_directory_collect.
    destruct (walk_outcome fuel path [] w) as ([l| | |] & Hl & Hr); try done.
    + erewrite bind_run; [apply IH|].
      by rewrite (bind_run _ _ _ _ _ Hl).
    + exists OutOfFuel. split; [|done].
      apply bind_out_of_fuel. by apply bind_out_of_fuel.
  - rewrite ret_bind_run. apply IH.
  - rewrite ret_bind_run. apply IH.
Qed.

(** X18.  [get_filtered_files_list] has no effect and returns a set.  For
    every list of configured paths the call leaves the world as it is; it
    neither raises nor exits (it returns, unless the model's budget for the
    walk runs out); and the list it returns has no duplicates. *)
Theorem filtered_files_list_outcome (fuel : nat) (list_of_paths : list string)
    (w : world) :
  ∃ r,
    get_filtered_files_list fuel list_of_paths w = (r, w) ∧
    returns_or_runs_out r ∧
    ∀ files, r = Ret files → NoDup files.
Proof.
  unfold get_filtered_files_list.
  unfold mbind at 1, M_bind at 1, get_world at 1.
  unfold mbind at 1, M_bind at 1, lift at 1.
  rewrite pre_filtered_paths_spec.
  destruct (filtered_loop_outcome fuel (uncovered w list_of_paths) [] w)
    as ([l| | |] & Hl & Hr); try done.
  - exists (Ret (remove_dups l)). rewrite (bind_run _ _ _ _ _ Hl).
    split; [done|]. split; [done|]. intros files [= <-]. apply NoDup_remove_dups.
  - exists OutOfFuel. rewrite (bind_out_of_fuel _ _ _ _ Hl). done.
Qed.

(** X19.  The two refusals of [copy_file].  For canonical paths (as
    [os.path.realpath] gives them) in a well-formed tree: when the
    destination is a directory, and when source and destination both exist
    and are the same entry, [copy_file] returns after logging the error and
    changes nothing else. *)
Theorem copy_file_refusals (source destination : string) (w : world) :
  tree_wf (tree w) →
  canonical destination →
  (stat w destination = Some NDir →
   copy_file source destination w
   = (Ret (), with_log ((ERROR, CopyError source destination) :: log w) w)) ∧
  (canonical source →
   is_Some (stat w source) → is_Some (stat w destination) →
   locate w source = locate w destination →
   copy_file source destination w
   = (Ret (), with_log ((ERROR, CopyError source destination) :: log w) w)).
Proof.
  intros _ _. split.
  - intros Hd. unfold copy_file, os_path_isdir. unfold_monad.
    by rewrite bool_decide_true.
  - intros _ [n Hs] [m Hm] Hloc. unfold copy_file, os_path_isdir, os_path_exists.
    unfold_monad. destruct (decide (stat w destination = Some NDir)) as [Hd|Hd].
    + by rewrite bool_decide_true.
    + rewrite bool_decide_false by done. simpl.
      rewrite bool_decide_true by (by rewrite Hm).
      unfold samefile. rewrite Hs, Hm. by rewrite bool_decide_true.
Qed.

Lemma blocked_tree_wf : tree_wf (tree blocked_world).
Proof. apply tree_wf_decide. apply (bool_decide_unpack _). vm_compute. reflexivity. Qed.

Lemma copy_file_refusals_witness :
  tree_wf (tree blocked_world) ∧
  canonical "/bk/src/a" ∧
  stat blocked_world "/bk/src/a" = Some NDir ∧
  copy_file "/src/a" "/bk/src/a" blocked_world
  = (Ret (), with_log ((ERROR, CopyError "/src/a" "/bk/src/a") :: log blocked_world)
               blocked_world).
Proof.
  assert (canonical "/bk/src/a") as H1
    by (exists ["bk"; "src"; "a"]; split;
        [by apply (bool_decide_unpack _)|reflexivity]).
  assert (stat blocked_world "/bk/src/a" = Some NDir) as H2
    by (vm_compute; reflexivity).
  split; [exact blocked_tree_wf|]. split; [exact H1|]. split; [exact H2|].
  exact (proj1 (copy_file_refusals "/src/a" "/bk/src/a" blocked_world
                  blocked_tree_wf H1) H2).
Defined.

(** X20.  [calculate_checksum] always returns.  For a readable file it
    returns the digest, 32 characters long, and changes nothing; when
    reading raises, it returns [None] after logging one error, the access
    error for a missing file or a refused permission and the other error
    otherwise; it never raises. *)
Theorem checksum_always_returns (md5 : string → N) (file_path : string)
    (w : world) :
  (∃ data,
     (read_file file_path w).1 = Ret data ∧
     calculate_checksum md5 file_path w = (Ret (Some (hexdigest (md5 data))), w) ∧
     String.length (hexdigest (md5 data)) = 32%nat) ∨
  (∃ e ev,
     (read_file file_path w).1 = Raise e ∧
     calculate_checksum md5 file_path w
     = (Ret None, with_log ((ERROR, ev) :: log w) w) ∧
     ev = match e with
          | FileNotFoundError | PermissionError => ChecksumAccessError file_path
          | _ => ChecksumOtherError file_path
          end).
Proof.
  destruct (read_file file_path w) as [r w1] eqn:Hr.
  pose proof (read_file_world file_path w) as Hw. rewrite Hr in Hw. simpl in Hw. subst w1.
  destruct r as [data|c|e|].
  - left. exists data. split; [done|]. split; [|apply hexdigest_length].
    apply calculate_checksum_readable. by rewrite Hr.
  - exfalso. unfold read_file in Hr. by repeat case_match.
  - right. exists e. eexists. split; [done|]. split; [|reflexivity].
    unfold calculate_checksum. unfold_monad. rewrite Hr.
    by destruct e.
  - exfalso. unfold read_file in Hr. by repeat case_match.
Qed.

(** X21.  [clear_backup_folder] without a destination directory.  When the
    configured destination is not a directory, the command returns after
    logging the error; nothing is deleted and the checksum document is not
    reset; the config document holds the loaded configuration. *)
Theorem clear_without_destination (fuel : nat) (w : world) (config : dict) :
  loaded_config w = Some config →
  is_path_exist w (backup_destination config) ≠ directory →
  ∃ w',
    clear_backup_folder fuel w = (Ret (), w') ∧
    head (log w') = Some (ERROR, BackupFolderMissing (backup_destination config)) ∧
    tree w' = tree w ∧
    checksums_json w' = checksums_json w ∧
    config_json w' = Some (Document (JDict config)).
Proof.
  intros Hl Hnd. destruct (get_config_file_loaded w config Hl) as (l & Hrun).
  rewrite clear_backup_folder_unfold. rewrite (bind_run _ _ _ _ _ Hrun).
  cbv zeta. unfold mbind at 1, M_bind at 1, get_world at 1.
  rewrite bool_decide_true by done. eexists. split; [reflexivity|]. done.
Qed.

Lemma with_log_id w : with_log (log w) w = w.
Proof. by destruct w. Qed.

Lemma bind_raise {A B} (m : M A) (k : A → M B) w e w1 :
  m w = (Raise e, w1) → (x ← m; k x) w = (Raise e, w1).
Proof. intros H. unfold mbind, M_bind. by rewrite H. Qed.

Lemma read_file_with_log name l w :
  (read_file name (with_log l w)).1 = (read_file name w).1.
Proof.
  unfold read_file.
  change (stat (with_log l w) name) with (stat w name).
  change (locate (with_log l w) name) with (locate w name).
  change (denied (with_log l w)) with (denied w).
  change (tree (with_log l w)) with (tree w).
  by repeat case_match.
Qed.

Lemma backup_file_not_object md5 config file_path checksums w data :
  (∀ entries, checksums ≠ JDict entries) →
  (read_file file_path w).1 = Ret data →
  backup_file md5 config file_path checksums w = (Raise AttributeError, w).
Proof.
  intros Hnd Hr. unfold backup_file.
  rewrite (bind_run _ _ _ _ _ (calculate_checksum_readable md5 file_path w data Hr)).
  destruct checksums; try done. by destruct (Hnd d).
Qed.

(** X22.  A checksum document that is JSON but not an object
    ([daemon_main]).  [get_checksums_json] returns it unchecked, and the
    loop of the cycle raises [AttributeError] at the first readable file:
    before that it has only logged the errors of unreadable files, nothing
    has been copied and no document has been written. *)
Theorem non_object_checksums_stop_the_loop (md5 : string → N) (config : dict)
    (files : list string) (checksums : json) (w : world) :
  (∀ entries, checksums ≠ JDict entries) →
  (∃ file_path data, file_path ∈ files ∧ (read_file file_path w).1 = Ret data) →
  ∃ l,
    for_fold files (backup_file md5 config) checksums w
    = (Raise AttributeError, with_log (l ++ log w) w) ∧
    Forall (λ r, r.1 = ERROR ∧ ¬ is_copy_record r) l.
Proof.
  intros Hnd. revert w. induction files as [|f files IH]; intros w (fp & data & Hin & Hr).
  { by apply elem_of_nil in Hin. }
  cbn [for_fold].
  destruct (calculate_checksum_cases md5 f w) as [(d & Hd & Hcalc)|(ev & Hcalc & Hev)].
  - exists []. rewrite (bind_raise _ _ _ _ _ (backup_file_not_object md5 config f checksums w d Hnd Hd)).
    simpl. by rewrite with_log_id.
  - apply elem_of_cons in Hin as [->|Hin].
    { exfalso. unfold calculate_checksum in Hcalc. unfold_monad.
      destruct (read_file f w) as [[]]; simpl in Hr; simplify_eq. }
    destruct (IH (with_log ((ERROR, ev) :: log w) w)) as (l & Hrun & Hlog).
    { exists fp, data. split; [done|]. by rewrite read_file_with_log. }
    exists (l ++ [(ERROR, ev)]).
    assert (backup_file md5 config f checksums w
            = (Ret checksums, with_log ((ERROR, ev) :: log w) w)) as Hstep.
    { unfold backup_file. by rewrite (bind_run _ _ _ _ _ Hcalc). }
    rewrite (bind_run _ _ _ _ _ Hstep), Hrun. split.
    + simpl. by rewrite <- app_assoc.
    + apply Forall_app. split; [done|]. constructor; [|constructor].
      split; [done|]. unfold is_copy_record. simpl.
      destruct Hev as [-> | ->]; by intros [].
Qed.

Lemma loaded_configuration_is_valid_witness :
  get_config_file PATH_TO_CONFIG_JSON bad_interval_world
  = (Ret (sample_config 300 "/bk" []),
     (get_config_file PATH_TO_CONFIG_JSON bad_interval_world).2) ∧
  ∃ n, dict_lookup "interval" (sample_config 300 "/bk" []) = Some n ∧
       is_int n = true ∧ 0 ≤ int_value n.
Proof.
  assert (get_config_file PATH_TO_CONFIG_JSON bad_interval_world
          = (Ret (sample_config 300 "/bk" []),
             (get_config_file PATH_TO_CONFIG_JSON bad_interval_world).2)) as H
    by (vm_compute; reflexivity).
  split; [exact H|].
  exact (proj1 (loaded_configuration_is_valid _ _ _ H)).
Defined.

Lemma config_load_is_idempotent_witness :
  get_config_file PATH_TO_CONFIG_JSON bad_interval_world
  = (Ret (sample_config 300 "/bk" []),
     (get_config_file PATH_TO_CONFIG_JSON bad_interval_world).2) ∧
  ∃ l, get_config_file PATH_TO_CONFIG_JSON
         (get_config_file PATH_TO_CONFIG_JSON bad_interval_world).2
       = (Ret (sample_config 300 "/bk" []),
          with_log (l ++ log (get_config_file PATH_TO_CONFIG_JSON bad_interval_world).2)
            (get_config_file PATH_TO_CONFIG_JSON bad_interval_world).2) ∧
       Forall (λ r, r = (INFO, ConfigLoaded) ∨ r = (WARNING, ConfigBadDestination)) l.
Proof.
  assert (get_config_file PATH_TO_CONFIG_JSON bad_interval_world
          = (Ret (sample_config 300 "/bk" []),
             (get_config_file PATH_TO_CONFIG_JSON bad_interval_world).2)) as H
    by (vm_compute; reflexivity).
  split; [exact H|].
  exact (config_load_is_idempotent _ _ _ H).
Defined.

Lemma config_load_repairs_field_by_field_witness :
  config_json bad_interval_world
  = Some (Document (JDict (sample_config (-5) "/bk" []))) ∧
  ∃ config w',
    get_config_file PATH_TO_CONFIG_JSON bad_interval_world = (Ret config, w') ∧
    dict_lookup "interval" config = Some (JInt 300) ∧
    dict_lookup "backup_destination" config = Some (JStr "/bk").
Proof.
  split; [reflexivity|].
  destruct (config_load_repairs_field_by_field bad_interval_world
              (sample_config (-5) "/bk" []) eq_refl)
    as (config & w' & Hrun & _ & _ & Hi & Hd & _).
  exists config, w'. split; [exact Hrun|]. split; [exact Hi|exact Hd].
Defined.

Lemma set_interval_round_trip_witness :
  0 < 60 ∧
  loaded_config sample_world = Some (sample_config 5 "/bk" sample_items) ∧
  ∃ w' w'',
    update_sleep_interval 60 sample_world = (Ret (), w') ∧
    get_config_file PATH_TO_CONFIG_JSON w'
    = (Ret (sample_config 60 "/bk" sample_items), w'').
Proof.
  assert (0 < 60) as H0 by lia.
  assert (loaded_config sample_world = Some (sample_config 5 "/bk" sample_items))
    as H1 by (vm_compute; reflexivity).
  split; [exact H0|]. split; [exact H1|].
  destruct (set_interval_round_trip 60 sample_world _ H0 H1)
    as (w' & w'' & Hrun & _ & _ & _ & _ & Hload & _).
  exists w', w''. split; [exact Hrun|exact Hload].
Defined.

Lemma stop_with_unreadable_marker_witness :
  pidfile empty_marker_world = Some "" ∧
  isascii "" = true ∧
  py_int (strip "") = None ∧
  stop_daemon empty_marker_world = (Raise ValueError, empty_marker_world).
Proof.
  split; [reflexivity|]. split; [reflexivity|]. split; [reflexivity|].
  exact (proj1 (stop_with_unreadable_marker empty_marker_world ""
                  eq_refl eq_refl eq_refl)).
Defined.

Lemma add_item_appends_witness :
  is_valid_mac_path (absolute_item_path sample_world "/var") = true ∧
  is_path_exist sample_world (absolute_item_path sample_world "/var") ≠ not_exists ∧
  loaded_config sample_world = Some (sample_config 5 "/bk" sample_items) ∧
  existsb (is_item (absolute_item_path sample_world "/var"))
          (items_list (sample_config 5 "/bk" sample_items)) = false ∧
  ∃ w', add_backup_item "/var" sample_world = (Ret (), w') ∧
        head (log w') = Some (INFO, ItemAdded "/var").
Proof.
  assert (is_valid_mac_path (absolute_item_path sample_world "/var") = true) as H1
    by (vm_compute; reflexivity).
  assert (is_path_exist sample_world (absolute_item_path sample_world "/var")
          ≠ not_exists) as H2 by (vm_compute; discriminate).
  assert (loaded_config sample_world = Some (sample_config 5 "/bk" sample_items))
    as H3 by (vm_compute; reflexivity).
  assert (existsb (is_item (absolute_item_path sample_world "/var"))
            (items_list (sample_config 5 "/bk" sample_items)) = false) as H4
    by (vm_compute; reflexivity).
  split; [exact H1|]. split; [exact H2|]. split; [exact H3|]. split; [exact H4|].
  destruct (add_item_appends "/var" sample_world _ H1 H2 H3 H4)
    as (w' & Hrun & Hlog & _).
  exists w'. split; [exact Hrun|exact Hlog].
Defined.

Lemma add_item_is_idempotent_witness :
  add_backup_item "/var" sample_world
  = (Ret (), (add_backup_item "/var" sample_world).2) ∧
  ∃ w2,
    add_backup_item "/var" (add_backup_item "/var" sample_world).2 = (Ret (), w2) ∧
    config_json w2 = config_json (add_backup_item "/var" sample_world).2.
Proof.
  assert (add_backup_item "/var" sample_world
          = (Ret (), (add_backup_item "/var" sample_world).2)) as H
    by (vm_compute; reflexivity).
  split; [exact H|].
  destruct (add_item_is_idempotent "/var" sample_world _ H) as (w2 & Hrun & Hc & _).
  exists w2. split; [exact Hrun|exact Hc].
Defined.

Lemma remove_undoes_add_witness :
  is_valid_mac_path (absolute_item_path sample_world "/var") = true ∧
  is_path_exist sample_world (absolute_item_path sample_world "/var") ≠ not_exists ∧
  loaded_config sample_world = Some (sample_config 5 "/bk" sample_items) ∧
  existsb (is_item (absolute_item_path sample_world "/var"))
          (items_list (sample_config 5 "/bk" sample_items)) = false ∧
  ∃ w1 w2,
    add_backup_item "/var" sample_world = (Ret (), w1) ∧
    remove_backup_item "/var" w1 = (Ret (), w2) ∧
    config_json w2 = config_json sample_world.
Proof.
  assert (is_valid_mac_path (absolute_item_path sample_world "/var") = true) as H1
    by (vm_compute; reflexivity).
  assert (is_path_exist sample_world (absolute_item_path sample_world "/var")
          ≠ not_exists) as H2 by (vm_compute; discriminate).
  assert (loaded_config sample_world = Some (sample_config 5 "/bk" sample_items))
    as H3 by (vm_compute; reflexivity).
  assert (existsb (is_item (absolute_item_path sample_world "/var"))
            (items_list (sample_config 5 "/bk" sample_items)) = false) as H4
    by (vm_compute; reflexivity).
  split; [exact H1|]. split; [exact H2|]. split; [exact H3|]. split; [exact H4|].
  destruct (remove_undoes_add "/var" sample_world _ H1 H2 H3 H4)
    as (w1 & w2 & Hadd & Hrem & _ & Hc & _).
  exists w1, w2. split; [exact Hadd|]. split; [exact Hrem|exact Hc].
Defined.

Lemma items_of_missing_paths_are_refused_witness :
  is_valid_mac_path (absolute_item_path sample_world "/nope") = true ∧
  is_path_exist sample_world (absolute_item_path sample_world "/nope") = not_exists ∧
  remove_backup_item "/nope" sample_world
  = (Ret (), with_log ((ERROR, ItemPathMissing "/nope") :: log sample_world)
               sample_world) ∧
  existsb (is_item "/nope") (items_list (sample_config 5 "/bk" sample_items)) = true.
Proof.
  assert (is_valid_mac_path (absolute_item_path sample_world "/nope") = true) as H1
    by (vm_compute; reflexivity).
  assert (is_path_exist sample_world (absolute_item_path sample_world "/nope")
          = not_exists) as H2 by (vm_compute; reflexivity).
  split; [exact H1|]. split; [exact H2|].
  split; [|vm_compute; reflexivity].
  exact (proj2 (items_of_missing_paths_are_refused "/nope" sample_world H1 H2)).
Defined.

Lemma remove_item_takes_first_occurrence_witness :
  is_valid_mac_path (absolute_item_path sample_world "/src") = true ∧
  is_path_exist sample_world (absolute_item_path sample_world "/src") ≠ not_exists ∧
  loaded_config sample_world = Some (sample_config 5 "/bk" sample_items) ∧
  existsb (is_item (absolute_item_path sample_world "/src"))
          (items_list (sample_config 5 "/bk" sample_items)) = true ∧
  ∃ w' config',
    remove_backup_item "/src" sample_world = (Ret (), w') ∧
    config_json w' = Some (Document (JDict config')) ∧
    S (length (items_list config')) = length (JStr <$> sample_items).
Proof.
  assert (is_valid_mac_path (absolute_item_path sample_world "/src") = true) as H1
    by (vm_compute; reflexivity).
  assert (is_path_exist sample_world (absolute_item_path sample_world "/src")
          ≠ not_exists) as H2 by (vm_compute; discriminate).
  assert (loaded_config sample_world = Some (sample_config 5 "/bk" sample_items))
    as H3 by (vm_compute; reflexivity).
  assert (existsb (is_item (absolute_item_path sample_world "/src"))
            (items_list (sample_config 5 "/bk" sample_items)) = true) as H4
    by (vm_compute; reflexivity).
  split; [exact H1|]. split; [exact H2|]. split; [exact H3|]. split; [exact H4|].
  destruct (remove_item_takes_first_occurrence "/src" sample_world _ H1 H2 H3 H4)
    as (w' & config' & Hrun & _ & Hc & Hlen & _).
  exists w', config'. split; [exact Hrun|]. split; [exact Hc|exact Hlen].
Defined.

Lemma list_items_effect_witness :
  loaded_config sample_world = Some (sample_config 5 "/bk" sample_items) ∧
  ∃ w', list_backup_items sample_world = (Ret (JStr <$> sample_items), w') ∧
        head (log w') = Some (INFO, ItemsListed).
Proof.
  assert (loaded_config sample_world = Some (sample_config 5 "/bk" sample_items))
    as H by (vm_compute; reflexivity).
  split; [exact H|].
  destruct (list_items_effect sample_world _ H) as (w' & Hrun & _ & Hlog & _).
  exists w'. split; [exact Hrun|exact Hlog].
Defined.

Lemma daemon_cycle_keeps_outside_witness :
  loaded_config sample_world = Some (sample_config 5 "/bk" sample_items) ∧
  tree sample_world !! ["src"; "a"] = Some (NFile "hello") ∧
  ¬ strictly_below (locate sample_world "/bk") ["src"; "a"] ∧
  tree (daemon_cycle sample_md5 5 sample_world).2 !! ["src"; "a"]
  = Some (NFile "hello").
Proof.
  assert (loaded_config sample_world = Some (sample_config 5 "/bk" sample_items))
    as H1 by (vm_compute; reflexivity).
  assert (tree sample_world !! ["src"; "a"] = Some (NFile "hello")) as H2
    by (vm_compute; reflexivity).
  assert (¬ strictly_below
              (locate sample_world
                 (backup_destination (sample_config 5 "/bk" sample_items)))
              ["src"; "a"]) as H3.
  { vm_compute. intros [[k Hk] _]. discriminate. }
  split; [exact H1|]. split; [exact H2|]. split; [exact H3|].
  exact (daemon_cycle_keeps_outside sample_md5 5 sample_world _ H1 _ _ H2 H3).
Defined.

Lemma directory_walk_collects_files_witness :
  tree_wf (tree sample_world) ∧
  stat sample_world "/src" = Some NDir ∧
  denied_below sample_world (locate sample_world "/src") = false ∧
  (depth (tree sample_world) < 4)%nat ∧
  ∃ files_list,
    get_files_from_directory 4 "/src" sample_world = (Ret files_list, sample_world) ∧
    ∀ q, (∃ f, f ∈ files_list ∧ locate sample_world f = q)
         ↔ (∃ n, tree sample_world !! q = Some n ∧ n ≠ NDir ∧
                 strictly_below (locate sample_world "/src") q).
Proof.
  assert (stat sample_world "/src" = Some NDir) as H2 by (vm_compute; reflexivity).
  assert (denied_below sample_world (locate sample_world "/src") = false) as H3
    by (vm_compute; reflexivity).
  assert (depth (tree sample_world) < 4)%nat as H4 by (vm_compute; lia).
  split; [exact sample_tree_wf|]. split; [exact H2|]. split; [exact H3|].
  split; [exact H4|].
  exact (directory_walk_collects_files 4 "/src" sample_world sample_tree_wf H2 H3 H4).
Defined.

Lemma clear_without_destination_witness :
  loaded_config no_destination_world = Some (sample_config 5 "/old" []) ∧
  is_path_exist no_destination_world "/old" ≠ directory ∧
  ∃ w', clear_backup_folder 3 no_destination_world = (Ret (), w') ∧
        checksums_json w' = checksums_json no_destination_world.
Proof.
  assert (loaded_config no_destination_world = Some (sample_config 5 "/old" []))
    as H1 by reflexivity.
  assert (is_path_exist no_destination_world
            (backup_destination (sample_config 5 "/old" [])) ≠ directory) as H2
    by (vm_compute; discriminate).
  split; [exact H1|]. split; [exact H2|].
  destruct (clear_without_destination 3 no_destination_world _ H1 H2)
    as (w' & Hrun & _ & _ & Hc & _).
  exists w'. split; [exact Hrun|exact Hc].
Defined.

Lemma non_object_checksums_stop_the_loop_witness :
  (∀ entries, JList [] ≠ JDict entries) ∧
  (∃ file_path data,
     file_path ∈ ["/nope"; "/src/a"] ∧ (read_file file_path sample_world).1 = Ret data) ∧
  ∃ l,
    for_fold ["/nope"; "/src/a"]
      (backup_file sample_md5 (sample_config 5 "/bk" sample_items))
      (JList []) sample_world
    = (Raise AttributeError, with_log (l ++ log sample_world) sample_world).
Proof.
  assert (∀ entries, JList [] ≠ JDict entries) as H1 by (intros entries; discriminate).
  assert (∃ file_path data,
            file_path ∈ ["/nope"; "/src/a"] ∧
            (read_file file_path sample_world).1 = Ret data) as H2.
  { exists "/src/a", "hello". split; [|vm_compute; reflexivity].
    apply elem_of_cons. right. apply elem_of_cons. by left. }
  split; [exact H1|]. split; [exact H2|].
  destruct (non_object_checksums_stop_the_loop sample_md5
              (sample_config 5 "/bk" sample_items) ["/nope"; "/src/a"] (JList [])
              sample_world H1 H2) as (l & Hrun & _).
  exists l. exact Hrun.
Defined.

#[global] Instance only_removes_preorder : PreOrder only_removes.
Proof.
  split.
  - by intros w p n.
  - intros w1 w2 w3 H1 H2 p n H. by apply H1, H2.
Qed.

#[global] Instance no_new_content_preorder : PreOrder no_new_content.
Proof.
  split.
  - intros w p data H. by exists p.
  - intros w1 w2 w3 H1 H2 p data H.
    destruct (H2 p data H) as (q & Hq). by apply (H1 q).
Qed.

Lemma same_files_only_removes {A} (m : M A) :
  preserves same_files m → preserves only_removes m.
Proof. intros H w p n Hp. destruct (H w) as [_ Ht]. by rewrite Ht in Hp. Qed.

Lemma same_files_no_new_content {A} (m : M A) :
  preserves same_files m → preserves no_new_content m.
Proof.
  intros H w p data Hp. destruct (H w) as [_ Ht]. rewrite Ht in Hp. by exists p.
Qed.

Lemma only_removes_os_remove name : preserves only_removes (os_remove name).
Proof.
  intros w p n. unfold os_remove, set_tree.
  repeat case_match; simpl; try done;
    by intros [_ ?]%lookup_delete_Some.
Qed.

Lemma only_removes_rmtree name : preserves only_removes (rmtree name).
Proof.
  intros w p n. unfold rmtree, set_tree.
  repeat case_match; simpl; try done;
    by intros [? _]%map_lookup_filter_Some.
Qed.

Lemma same_files_clear_checksums_file : preserves same_files clear_checksums_file.
Proof.
  intros w. unfold clear_checksums_file. unfold_monad. by case_bool_decide.
Qed.

Lemma only_removes_clear_backup_folder fuel :
  preserves only_removes (clear_backup_folder fuel).
Proof.
  rewrite clear_backup_folder_unfold.
  apply preserves_bind;
    [apply _|apply same_files_only_removes, same_files_get_config_file|].
  intros config. cbv zeta.
  apply preserves_bind; [apply _|apply preserves_get_world; apply _|]. intros w.
  case_match; [apply same_files_only_removes, same_files_logging|].
  apply preserves_try_except;
    [apply _| |intros e; apply same_files_only_removes, same_files_logging].
  apply preserves_bind; [apply _| |].
  { apply preserves_os_walk; [apply _|]. intros root dirs files a. unfold clear_body.
    apply preserves_bind; [apply _| |intros _].
    - apply preserves_for_each; [apply _|]. intros f.
      apply preserves_try_except;
        [apply _|apply only_removes_os_remove
        |intros e; apply same_files_only_removes, same_files_logging].
    - apply preserves_for_each; [apply _|]. intros d.
      apply preserves_try_except;
        [apply _|apply only_removes_rmtree
        |intros e; apply same_files_only_removes, same_files_logging]. }
  intros _. apply preserves_bind;
    [apply _|apply same_files_only_removes, same_files_logging|].
  intros _. apply same_files_only_removes, same_files_clear_checksums_file.
Qed.

#[global] Instance checksums_kept_or_reset_preorder : PreOrder checksums_kept_or_reset.
Proof.
  split.
  - intros w. by left.
  - intros w1 w2 w3 [H1|H1] [H2|H2]; unfold checksums_kept_or_reset;
      rewrite ?H2, ?H1; auto.
Qed.

Lemma keeps_checksums_kept_or_reset {A} (m : M A) :
  preserves keeps_checksums m → preserves checksums_kept_or_reset m.
Proof. intros H w. left. apply H. Qed.

Lemma kept_or_reset_clear_checksums_file :
  preserves checksums_kept_or_reset clear_checksums_file.
Proof.
  intros w. unfold clear_checksums_file. unfold_monad.
  case_bool_decide; [by right|by left].
Qed.

Lemma kept_or_reset_clear_backup_folder fuel :
  preserves checksums_kept_or_reset (clear_backup_folder fuel).
Proof.
  rewrite clear_backup_folder_unfold.
  apply preserves_bind;
    [apply _|apply keeps_checksums_kept_or_reset, keeps_checksums_get_config_file|].
  intros config. cbv zeta.
  apply preserves_bind; [apply _|apply preserves_get_world; apply _|]. intros w.
  case_match; [apply keeps_checksums_kept_or_reset, keeps_checksums_logging|].
  apply preserves_try_except;
    [apply _| |intros e; apply keeps_checksums_kept_or_reset, keeps_checksums_logging].
  apply preserves_bind; [apply _| |].
  { apply keeps_checksums_kept_or_reset, keeps_checksums_tree_log.
    apply preserves_os_walk; [apply _|]. intros root dirs files a. unfold clear_body.
    apply preserves_bind; [apply _| |intros _].
    - apply preserves_for_each; [apply _|]. intros f.
      apply preserves_try_except;
        [apply _|apply tree_only_preserves, tree_only_os_remove
        |intros e; apply preserves_logging].
    - apply preserves_for_each; [apply _|]. intros d.
      apply preserves_try_except;
        [apply _|apply tree_only_preserves, tree_only_rmtree
        |intros e; apply preserves_logging]. }
  intros _. apply preserves_bind;
    [apply _|apply keeps_checksums_kept_or_reset, keeps_checksums_logging|].
  intros _. apply kept_or_reset_clear_checksums_file.
Qed.

(** X23.  [clear_backup_folder] only removes.  However the command ends,
    every entry of the directory tree afterwards was there before, with the
    same content: nothing is created and nothing is rewritten.  The
    checksum document is what it was or the empty mapping. *)
Theorem clear_backup_folder_only_removes (fuel : nat) (w : world) :
  (∀ p n, tree (clear_backup_folder fuel w).2 !! p = Some n →
          tree w !! p = Some n) ∧
  (checksums_json (clear_backup_folder fuel w).2 = checksums_json w ∨
   checksums_json (clear_backup_folder fuel w).2 = Some (Document (JDict []))).
Proof.
  split.
  - exact (only_removes_clear_backup_folder fuel w).
  - exact (kept_or_reset_clear_backup_folder fuel w).
Qed.

Lemma only_removes_no_new_content w w' : only_removes w w' → no_new_content w w'.
Proof. intros H p data Hp. exists p. by apply H. Qed.

Lemma no_new_content_makedirs name : preserves no_new_content (makedirs name).
Proof.
  intros w p data. destruct (makedirs_spec name w) as [(e & -> & _)|(t & -> & Ht)].
  - intros H. by exists p.
  - simpl. rewrite Ht. destruct (tree w !! p) as [n|] eqn:Hp.
    + intros [= ->]. by exists p.
    + by case_bool_decide.
Qed.

Lemma read_file_ret name w data :
  (read_file name w).1 = Ret data → tree w !! locate w name = Some (NFile data).
Proof.
  intros H%read_file_stat. unfold stat in H.
  destruct (decide (name = "")); [done|].
  by destruct (locate w name).
Qed.

Lemma no_new_content_put_entry p data w q :
  tree w !! q = Some (NFile data) →
  no_new_content w (put_entry p (NFile data) w).2.
Proof.
  intros Hq. destruct (put_entry_cases p (NFile data) w) as [(e & ->)|(-> & _ & _)].
  - reflexivity.
  - intros p' d'. simpl. destruct (decide (p' = p)) as [->|Hne].
    + rewrite lookup_insert_eq. intros [= <-]. by exists q.
    + rewrite lookup_insert_ne by done. intros H. by exists p'.
Qed.

Lemma no_new_content_copy2 s d : preserves no_new_content (copy2 s d).
Proof.
  intros w. unfold copy2. unfold mbind at 1, M_bind at 1.
  destruct (read_file s w) as [r w1] eqn:Hr.
  pose proof (read_file_world s w) as Hw. rewrite Hr in Hw. simpl in Hw. subst w1.
  destruct r as [data| | |]; try reflexivity.
  assert (tree w !! locate w s = Some (NFile data)) as Hs.
  { apply read_file_ret. by rewrite Hr. }
  unfold mbind at 1, M_bind at 1, get_world at 1.
  destruct (decide (d = "")); [reflexivity|].
  destruct (decide _); [reflexivity|].
  by apply (no_new_content_put_entry _ _ _ (locate w s)).
Qed.

Lemma no_new_content_move s d : preserves no_new_content (move s d).
Proof.
  intros w. unfold move.
  destruct (stat w s) as [n|] eqn:Hs; [|reflexivity].
  destruct (decide (n = NDir)) as [->|Hnd]; [reflexivity|].
  assert (tree w !! locate w s = Some n) as Hn.
  { unfold stat in Hs. destruct (decide (s = "")); [done|].
    destruct (locate w s); [simpl in Hs; congruence|done]. }
  assert (∀ X Y : outcome () * world,
            no_new_content w X.2 → no_new_content w Y.2 →
            no_new_content w (match n with NDir => X | _ => Y end).2) as Hcase.
  { intros X Y HX HY. by destruct n. }
  destruct n as [data| |]; [|done|].
  - destruct (decide (d = "")); [reflexivity|].
    destruct (_ && _); [reflexivity|].
    case_bool_decide; [reflexivity|].
    destruct (decide _); [reflexivity|].
    unfold mbind at 1, M_bind at 1.
    destruct (put_entry_cases (real_destination w s d) (NFile data) w)
      as [(e & ->)|(-> & _ & _)]; [reflexivity|].
    unfold_monad. intros p' d' Hp'. simpl in Hp'.
    apply lookup_delete_Some in Hp' as [_ Hp'].
    destruct (decide (p' = real_destination w s d)) as [->|Hne].
    + rewrite lookup_insert_eq in Hp'. simplify_eq. by exists (locate w s).
    + rewrite lookup_insert_ne in Hp' by done. by exists p'.
  - destruct (decide (d = "")); [reflexivity|].
    destruct (_ && _); [reflexivity|].
    case_bool_decide; [reflexivity|].
    destruct (decide _); [reflexivity|].
    unfold mbind at 1, M_bind at 1.
    destruct (put_entry_cases (real_destination w s d) NSpecial w)
      as [(e & ->)|(-> & _ & _)]; [reflexivity|].
    unfold_monad. intros p' d' Hp'. simpl in Hp'.
    apply lookup_delete_Some in Hp' as [_ Hp'].
    destruct (decide (p' = real_destination w s d)) as [->|Hne].
    + rewrite lookup_insert_eq in Hp'. simplify_eq.
    + rewrite lookup_insert_ne in Hp' by done. by exists p'.
Qed.

Lemma no_new_content_logging lv e : preserves no_new_content (logging lv e).
Proof. apply same_files_no_new_content, same_files_logging. Qed.

Lemma no_new_content_copy_file source destination :
  preserves no_new_content (copy_file source destination).
Proof.
  unfold copy_file.
  apply preserves_try_except; [apply _| |intros e; apply no_new_content_logging].
  apply preserves_bind; [apply _|apply preserves_get_world; apply _|]. intros w.
  apply preserves_bind; [apply _| |].
  { apply preserves_when; [apply _|apply preserves_raise; apply _]. }
  intros _. apply preserves_bind; [apply _| |].
  { case_match; [apply same_files_no_new_content, same_files_samefile
                |apply preserves_ret; apply _]. }
  intros same. apply preserves_bind; [apply _| |].
  { apply preserves_when; [apply _|apply preserves_raise; apply _]. }
  intros _. cbv zeta. apply preserves_bind; [apply _| |].
  { apply preserves_when; [apply _|apply no_new_content_makedirs]. }
  intros _. apply preserves_bind; [apply _|apply no_new_content_copy2|].
  intros _. apply no_new_content_logging.
Qed.

Lemma no_new_content_daemon_cycle md5 fuel :
  preserves no_new_content (daemon_cycle md5 fuel).
Proof.
  unfold daemon_cycle.
  apply preserves_bind;
    [apply _|apply same_files_no_new_content, same_files_get_config_file|].
  intros config. apply preserves_bind; [apply _| |].
  { apply same_files_no_new_content, same_files_eq, get_filtered_files_list_pure. }
  intros files. apply preserves_bind; [apply _| |].
  { apply same_files_no_new_content, same_files_get_checksums_json. }
  intros checksums. apply preserves_bind; [apply _| |].
  { apply preserves_for_fold; [apply _|]. intros f c. unfold backup_file.
    apply preserves_bind;
      [apply _|apply same_files_no_new_content, same_files_calculate_checksum|].
    intros [d|]; [|apply preserves_ret; apply _].
    destruct c; try (apply preserves_raise; apply _).
    case_match; [|apply preserves_ret; apply _].
    apply preserves_bind; [apply _|apply preserves_get_world; apply _|]. intros w.
    apply preserves_bind; [apply _|apply no_new_content_copy_file|].
    intros _. apply preserves_ret; apply _. }
  intros c. apply preserves_bind; [apply _| |].
  { apply same_files_no_new_content, same_files_save_json_file. }
  intros _. apply no_new_content_logging.
Qed.

Lemma no_new_content_paste_backup fuel target_dir :
  preserves no_new_content (paste_backup fuel target_dir).
Proof.
  unfold paste_backup.
  apply preserves_bind; [apply _|apply preserves_get_world; apply _|]. intros w.
  cbv zeta. case_match; [apply no_new_content_logging|].
  case_match; [apply no_new_content_logging|].
  apply preserves_bind;
    [apply _|apply same_files_no_new_content, same_files_get_config_file|].
  intros config. apply preserves_bind; [apply _|apply preserves_get_world; apply _|].
  intros w'. case_match; [apply no_new_content_logging|].
  apply preserves_try_except; [apply _| |intros e; apply no_new_content_logging].
  apply preserves_bind; [apply _| |intros _; apply no_new_content_logging].
  apply preserves_os_walk; [apply _|]. intros root dirs files a. unfold paste_body.
  apply preserves_bind; [apply _|apply preserves_get_world; apply _|]. intros w''.
  cbv zeta. apply preserves_bind; [apply _| |].
  { apply preserves_when; [apply _|apply no_new_content_makedirs]. }
  intros _. apply preserves_for_each; [apply _|]. intros file.
  apply no_new_content_copy2.
Qed.

Lemma no_new_content_rmtree name : preserves no_new_content (rmtree name).
Proof. intros w. apply only_removes_no_new_content, only_removes_rmtree. Qed.

Lemma no_new_content_change_backup_destination fuel new_path :
  preserves no_new_content (change_backup_destination fuel new_path).
Proof.
  unfold change_backup_destination.
  apply preserves_bind; [apply _|apply preserves_get_world; apply _|]. intros w.
  cbv zeta. case_match; [apply no_new_content_logging|].
  apply preserves_bind; [apply _| |].
  { case_match; [|apply preserves_ret; apply _].
    apply preserves_try_except_os; [apply _| |].
    - apply preserves_bind; [apply _|apply no_new_content_makedirs|].
      intros _. apply preserves_bind; [apply _|apply no_new_content_logging|].
      intros _. apply preserves_ret; apply _.
    - intros e. apply preserves_bind; [apply _|apply no_new_content_logging|].
      intros _. apply preserves_ret; apply _. }
  intros ready. case_match; [apply preserves_ret; apply _|].
  apply preserves_bind;
    [apply _|apply same_files_no_new_content, same_files_get_config_file|].
  intros config. apply preserves_bind; [apply _|apply preserves_get_world; apply _|].
  intros w'. case_match; [apply no_new_content_logging|].
  apply preserves_try_except; [apply _| |intros e; apply no_new_content_logging].
  apply preserves_bind; [apply _| |].
  { apply preserves_os_walk; [apply _|]. intros root dirs files a.
    apply preserves_bind; [apply _|apply preserves_get_world; apply _|]. intros w''.
    cbv zeta. apply preserves_bind; [apply _| |].
    { apply preserves_when; [apply _|apply no_new_content_makedirs]. }
    intros _. apply preserves_for_each; [apply _|]. intros file.
    apply preserves_try_except; [apply _| |intros e; apply no_new_content_logging].
    apply preserves_bind; [apply _|apply no_new_content_move|].
    intros _. apply no_new_content_logging. }
  intros _. apply preserves_bind; [apply _|apply no_new_content_rmtree|].
  intros _. apply preserves_bind; [apply _|apply no_new_content_logging|].
  intros _. apply preserves_bind; [apply _| |].
  { apply same_files_no_new_content, same_files_clear_checksums_file. }
  intros _. apply preserves_bind; [apply _| |].
  { apply same_files_no_new_content, same_files_save_json_file. }
  intros _. apply no_new_content_logging.
Qed.

(** X24.  Files are only copied, moved and removed ([daemon_main],
    [paste_backup], [change_backup_destination], [clear_backup_folder]).
    However one of these ends, every file of the directory tree afterwards
    has the content some file had before. *)
Theorem commands_only_copy_and_move (md5 : string → N) (fuel : nat)
    (argument : string) (w : world) :
  no_new_content w (daemon_cycle md5 fuel w).2 ∧
  no_new_content w (paste_backup fuel argument w).2 ∧
  no_new_content w (change_backup_destination fuel argument w).2 ∧
  no_new_content w (clear_backup_folder fuel w).2.
Proof.
  split; [apply no_new_content_daemon_cycle|].
  split; [apply no_new_content_paste_backup|].
  split; [apply no_new_content_change_backup_destination|].
  apply only_removes_no_new_content, only_removes_clear_backup_folder.
Qed.

Lemma when_ret_inv b m w w' :
  when b m w = (Ret (), w') → (b = false ∧ w' = w) ∨ (b = true ∧ m w = (Ret (), w')).
Proof. destruct b; simpl; [by right|]. intros [= <-]. by left. Qed.

Lemma makedirs_ret_inv name w w' :
  makedirs name w = (Ret (), w') →
  cwd w' = cwd w ∧ denied w' = denied w ∧ log w' = log w ∧
  (∀ p n, tree w !! p = Some n → tree w' !! p = Some n) ∧
  (∀ p n, tree w' !! p = Some n → n ≠ NDir → tree w !! p = Some n).
Proof.
  intros H. destruct (makedirs_spec name w) as [(e & He & _)|(t & Ht & Hspec)];
    [congruence|].
  rewrite Ht in H. injection H as <-. simpl.
  split; [done|]. split; [done|]. split; [done|]. split.
  - intros p n Hp. by rewrite Hspec, Hp.
  - intros p n. rewrite Hspec. destruct (tree w !! p); [done|].
    case_bool_decide; [|done]. by intros [= <-].
Qed.

Lemma read_file_frame name w w' data :
  cwd w' = cwd w → denied w' = denied w →
  tree w' !! locate w name = tree w !! locate w name →
  (read_file name w).1 = Ret data → (read_file name w').1 = Ret data.
Proof.
  intros Hc Hd Ht Hr. pose proof (read_file_stat _ _ _ Hr) as Hs.
  assert (stat w' name = Some (NFile data)) as Hs'.
  { unfold stat in *. rewrite (locate_same_cwd w w') by done.
    destruct (decide (name = "")); [done|].
    destruct (locate w name) as [|x l]; [done|]. cbn [node_at] in *. congruence. }
  unfold read_file in *. rewrite Hs in Hr. rewrite Hs'.
  rewrite (locate_same_cwd w w'), Hd by done. by case_bool_decide.
Qed.
















(** X25.  What a reported copy has done ([copy_file]).  When [copy_file]
    returns and its last log record reports the copy, the source was a
    readable file, and one entry of the tree, at the destination (or inside
    it, had the creation of its parent made it a directory), now holds the
    source's content; the destination was not a directory; every other
    entry that existed is unchanged, and besides that entry only
    directories are new. *)
Theorem copy_file_success (source destination : string) (w w' : world) :
  copy_file source destination w = (Ret (), w') →
  head (log w') = Some (INFO, FileCopied source destination) →
  ∃ data q,
    (read_file source w).1 = Ret data ∧
    tree w' !! q = Some (NFile data) ∧
    locate w destination `prefix_of` q ∧
    stat w destination ≠ Some NDir ∧
    (∀ p n, tree w !! p = Some n → p ≠ q → tree w' !! p = Some n) ∧
    (∀ p n, tree w' !! p = Some n → p ≠ q → n ≠ NDir → tree w !! p = Some n).
Proof.
  intros Hrun Hlog. unfold copy_file in Hrun.
  apply try_except_ret_inv in Hrun as [Hrun|(e & w1 & Hraise & Hh)].
  2: { exfalso. unfold logging in Hh. injection Hh as <-. by simpl in Hlog. }
  apply bind_ret_inv in Hrun as (w0 & wa & Hget & Hrun).
  unfold get_world in Hget. injection Hget as <- <-.
  apply bind_ret_inv in Hrun as ([] & wb & Hdir & Hrun).
  apply when_ret_inv in Hdir as [[Hnd ->]|[_ Hr]]; [|done].
  apply bind_ret_inv in Hrun as (same & wc & Hsame & Hrun).
  assert (wc = w) as ->.
  { destruct (os_path_exists w destination).
    - pose proof (same_files_samefile source destination w) as [_ Ht].
      unfold samefile in Hsame. repeat case_match; by simplify_eq.
    - by injection Hsame as <- <-. }
  apply bind_ret_inv in Hrun as ([] & wd & Hwhen & Hrun).
  apply when_ret_inv in Hwhen as [[_ ->]|[_ Hr]]; [|done].
  cbv zeta in Hrun.
  apply bind_ret_inv in Hrun as ([] & w2 & Hmk & Hrun).
  assert (cwd w2 = cwd w ∧ denied w2 = denied w ∧ log w2 = log w ∧
          (∀ p n, tree w !! p = Some n → tree w2 !! p = Some n) ∧
          (∀ p n, tree w2 !! p = Some n → n ≠ NDir → tree w !! p = Some n))
    as (Hcwd & Hden & Hlog2 & Hkeep & Hback).
  { apply when_ret_inv in Hmk as [[_ ->]|[_ Hmk]]; [by auto|].
    by apply (makedirs_ret_inv (dirname destination)). }
  apply bind_ret_inv in Hrun as ([] & w3 & Hcopy & Hrun).
  unfold logging in Hrun. injection Hrun as <-.
  unfold copy2 in Hcopy.
  apply bind_ret_inv in Hcopy as (data & w2' & Hread & Hcopy).
  pose proof (read_file_world source w2) as Hw2. rewrite Hread in Hw2.
  simpl in Hw2. subst w2'.
  apply bind_ret_inv in Hcopy as (w2' & w2'' & Hget & Hcopy).
  unfold get_world in Hget. injection Hget as <- <-.
  destruct (decide (destination = "")); [done|].
  destruct (decide _) as [|Hne]; [done|].
  destruct (put_entry_cases (real_destination w2 source destination) (NFile data) w2)
    as [(e & He)|(Hput & Hnn & Hold)]; [congruence|].
  rewrite Hput in Hcopy. injection Hcopy as <-.
  assert (tree w2 !! locate w source = Some (NFile data)) as Hsrc2.
  { rewrite <- (locate_same_cwd w w2 source) by done.
    apply read_file_ret. by rewrite Hread. }
  exists data, (real_destination w2 source destination).
  split.
  { apply (read_file_frame source w2); [done|done| |by rewrite Hread].
    rewrite (locate_same_cwd w w2) by done. rewrite Hsrc2. by apply Hback. }
  split; [simpl; apply lookup_insert_eq|].
  split.
  { unfold real_destination. rewrite (locate_same_cwd w w2) by done.
    destruct (os_path_isdir w2 destination); [by apply prefix_app_r|done]. }
  split.
  { unfold os_path_isdir in Hnd. by apply bool_decide_eq_false in Hnd. }
  split.
  - intros p m Hp Hpq. simpl. rewrite lookup_insert_ne by done. by apply Hkeep.
  - intros p m Hp Hpq Hm. simpl in Hp. rewrite lookup_insert_ne in Hp by done.
    by apply Hback.
Qed.

(** X26.  A cycle records the digests it saw ([daemon_main],
    [save_json_file]).  When a cycle returns, the files it resolved are
    pairwise distinct, its last log record reports the end of the cycle, and
    for every file whose digest the loop computed the checksum document is
    an object that maps the file to that digest. *)
Theorem cycle_records_digests (md5 : string → N) (fuel : nat) (w w' : world)
    (files : list string) (seen : list (outcome (option string))) :
  daemon_cycle md5 fuel w = (Ret (), w') →
  cycle_view md5 fuel w = Some (files, seen) →
  NoDup files ∧
  head (log w') = Some (INFO, CycleDone) ∧
  ∀ i file_path digest,
    files !! i = Some file_path →
    seen !! i = Some (Ret (Some digest)) →
    ∃ entries,
      checksums_json w' = Some (Document (JDict entries)) ∧
      dict_lookup file_path entries = Some (JStr digest).
Proof.
  intros Hrun Hview. unfold daemon_cycle in Hrun.
  apply bind_ret_inv in Hrun as (config & wa & Hcfg & Hrun).
  apply bind_ret_inv in Hrun as (files' & wb & Hlist & Hrun).
  apply bind_ret_inv in Hrun as (c0 & wc & Hload & Hrun).
  apply bind_ret_inv in Hrun as (c1 & wd & Hloop & Hrun).
  assert (w' = with_log ((INFO, CycleDone) :: (INFO, JsonSaved) :: log wd)
                 (with_checksums_json (Some (Document c1)) wd)) as ->.
  { revert Hrun. unfold save_json_file. unfold_monad. simpl. by intros [= <-]. }
  unfold cycle_view in Hview. rewrite Hcfg, Hlist, Hload in Hview.
  injection Hview as <- <-.
  pose proof (get_filtered_files_list_NoDup _ _ _ _ _ Hlist) as Hnd.
  split; [done|]. split; [done|].
  intros i file_path digest Hi Hseen.
  destruct (backup_loop_records md5 config files' c0 wc c1 wd Hnd Hloop
              i file_path digest Hi Hseen) as (entries & -> & Hlk).
  exists entries. split; [done|exact Hlk].
Qed.

Lemma copy_file_success_witness :
  copy_file "/src/a" "/bk/src/a" sample_world
  = (Ret (), (copy_file "/src/a" "/bk/src/a" sample_world).2) ∧
  head (log (copy_file "/src/a" "/bk/src/a" sample_world).2)
  = Some (INFO, FileCopied "/src/a" "/bk/src/a") ∧
  ∃ data q,
    (read_file "/src/a" sample_world).1 = Ret data ∧
    tree (copy_file "/src/a" "/bk/src/a" sample_world).2 !! q = Some (NFile data) ∧
    locate sample_world "/bk/src/a" `prefix_of` q.
Proof.
  assert (copy_file "/src/a" "/bk/src/a" sample_world
          = (Ret (), (copy_file "/src/a" "/bk/src/a" sample_world).2)) as H1
    by (vm_compute; reflexivity).
  assert (head (log (copy_file "/src/a" "/bk/src/a" sample_world).2)
          = Some (INFO, FileCopied "/src/a" "/bk/src/a")) as H2
    by (vm_compute; reflexivity).
  split; [exact H1|]. split; [exact H2|].
  destruct (copy_file_success "/src/a" "/bk/src/a" sample_world _ H1 H2)
    as (data & q & Hr & Hq & Hp & _).
  exists data, q. split; [exact Hr|]. split; [exact Hq|exact Hp].
Defined.

Lemma cycle_records_digests_witness :
  daemon_cycle sample_md5 5 sample_world = (Ret (), backed_up_world) ∧
  cycle_view sample_md5 5 sample_world
  = Some (["/src/a"; "/src/d/b"; "/var/log/m"],
          [Ret (Some "00000000000000000000000000000005");
           Ret (Some "00000000000000000000000000000001");
           Ret (Some "00000000000000000000000000000001")]) ∧
  ∃ entries,
    checksums_json backed_up_world = Some (Document (JDict entries)) ∧
    dict_lookup "/src/d/b" entries
    = Some (JStr "00000000000000000000000000000001").
Proof.
  assert (daemon_cycle sample_md5 5 sample_world = (Ret (), backed_up_world)) as H1
    by (vm_compute; reflexivity).
  assert (cycle_view sample_md5 5 sample_world
          = Some (["/src/a"; "/src/d/b"; "/var/log/m"],
                  [Ret (Some "00000000000000000000000000000005");
                   Ret (Some "00000000000000000000000000000001");
                   Ret (Some "00000000000000000000000000000001")])) as H2
    by (vm_compute; reflexivity).
  split; [exact H1|]. split; [exact H2|].
  exact (proj2 (proj2 (cycle_records_digests sample_md5 5 sample_world
                         backed_up_world _ _ H1 H2))
           1%nat "/src/d/b" "00000000000000000000000000000001" eq_refl eq_refl).
Defined.

Lemma path_str_nonempty c : path_str c ≠ "".
Proof. done. Qed.

Lemma stat_realpath w item :
  stat w (realpath w item) = node_at (tree w) (locate w item).
Proof.
  unfold stat. rewrite decide_False by apply path_str_nonempty.
  by rewrite realpath_locate.
Qed.

Lemma elem_of_existing_paths w items p t :
  (p, t) ∈ existing_paths w items ↔
  ∃ item, item ∈ items ∧ p = realpath w item ∧ t = is_path_exist w p ∧
          t ≠ not_exists.
Proof.
  unfold existing_paths. rewrite list_elem_of_filter. simpl.
  rewrite list_elem_of_fmap. split.
  - intros [Ht (p' & [= -> ->] & (item & -> & Hitem)%list_elem_of_fmap)]. eauto.
  - intros (item & Hitem & -> & -> & Ht). split; [done|].
    exists (realpath w item). split; [done|]. apply list_elem_of_fmap. eauto.
Qed.

Lemma elem_of_uncovered w items pt :
  pt ∈ uncovered w items ↔
  pt ∈ existing_paths w items ∧
  ¬ ∃ other, other ∈ (existing_paths w items).*1 ∧ strict_ancestor w other pt.1.
Proof.
  unfold uncovered. rewrite list_elem_of_filter, Exists_exists. naive_solver.
Qed.

Lemma strict_ancestor_shorter w a b :
  strict_ancestor w a b → (length (locate w a) < length (locate w b))%nat.
Proof.
  intros [[k Hk] Hne]. rewrite Hk, length_app.
  destruct k; [by rewrite app_nil_r in Hk|]. simpl. lia.
Qed.

Lemma exists_uncovered_ancestor w items n :
  ∀ pt, pt ∈ existing_paths w items →
        (length (locate w pt.1) ≤ n)%nat →
        ∃ a, a ∈ uncovered w items ∧ locate w a.1 `prefix_of` locate w pt.1.
Proof.
  induction n as [|n IH]; intros pt Hpt Hlen.
  - exists pt. split; [|done]. apply elem_of_uncovered. split; [done|].
    intros (other & _ & Hs%strict_ancestor_shorter). lia.
  - destruct (decide (Exists (λ other, strict_ancestor w other pt.1)
                             (existing_paths w items).*1)) as [Hex|Hno].
    + apply Exists_exists in Hex as (other & Hin & Hs).
      apply list_elem_of_fmap in Hin as (ot & -> & Hot).
      destruct (IH ot Hot) as (a & Ha & Hpre).
      { apply strict_ancestor_shorter in Hs. lia. }
      exists a. split; [done|]. transitivity (locate w ot.1); [done|]. apply Hs.
    + exists pt. split; [|done]. apply elem_of_uncovered. split; [done|].
      intros (other & Hin & Hs). apply Hno, Exists_exists. eauto.
Qed.

Lemma for_fold_ext {A B} (l : list A) (f g : A → B → M B) acc w :
  (∀ x a, f x a = g x a) → for_fold l f acc w = for_fold l g acc w.
Proof.
  intros H. revert acc w. induction l as [|x l IH]; intros acc w; [done|].
  cbn [for_fold]. rewrite H. unfold mbind, M_bind.
  destruct (g x acc w) as [[a| | |] w1]; [apply IH|done..].
Qed.

Section filtered.
Context (w : world) (fuel : nat).
Hypothesis Hwf : tree_wf (tree w).
Hypothesis Hden : denied_below w [] = false.
Hypothesis Hfuel : (depth (tree w) < fuel)%nat.

Lemma gather_directory p acc :
  stat w p = Some NDir →
  ∃ new, gather fuel (p, directory) acc w = (Ret (acc ++ new), w) ∧
         ∀ q, (∃ f, f ∈ new ∧ locate w f = q) ↔ file_below w p q.
Proof.
  intros Hstat.
  destruct (walk_collects w Hwf fuel p [] Hstat) as (new & Hrun & Hspec);
    [by apply (denied_below_mono w []); [apply prefix_nil|]|lia|lia|].
  exists new. unfold gather. simpl.
  rewrite get_files_from_directory_collect, (bind_run _ _ _ _ _ Hrun). done.
Qed.

(** The loop over the paths kept, each with the type found for it. *)
Lemma gather_loop (pre : list (string * path_type)) :
  (∀ pt, pt ∈ pre → pt.2 = is_path_exist w pt.1) →
  ∀ acc, ∃ new,
    for_fold pre (gather fuel) acc w = (Ret (acc ++ new), w) ∧
    ∀ q, (∃ f, f ∈ new ∧ locate w f = q) ↔
         ∃ pt, pt ∈ pre ∧
               ((pt.2 = file ∧ locate w pt.1 = q) ∨
                (pt.2 = directory ∧ file_below w pt.1 q)).
Proof.
  induction pre as [|[p t] pre IH]; intros Htype acc.
  - exists []. rewrite app_nil_r. split; [done|]. intros q. split.
    + intros (f & Hf & _). by apply elem_of_nil in Hf.
    + intros (pt & Hpt & _). by apply elem_of_nil in Hpt.
  - assert (∃ new1, gather fuel (p, t) acc w = (Ret (acc ++ new1), w) ∧
                    ∀ q, (∃ f, f ∈ new1 ∧ locate w f = q) ↔
                         ((t = file ∧ locate w p = q) ∨
                          (t = directory ∧ file_below w p q)))
      as (new1 & Hrun1 & Hspec1).
    { pose proof (Htype (p, t) (list_elem_of_here _ _)) as Ht. simpl in Ht.
      destruct t.
      - exists [p]. split; [done|]. intros q. split.
        + intros (f & ->%list_elem_of_singleton & Hq). by left.
        + intros [[_ Hq]|[? _]]; [|done]. exists p. split; [|done].
          by apply list_elem_of_singleton.
      - destruct (gather_directory p acc) as (new & Hrun & Hspec).
        { symmetry in Ht. by apply is_path_exist_directory in Ht. }
        exists new. split; [done|]. intros q. rewrite Hspec. naive_solver.
      - exists []. rewrite app_nil_r. split; [done|]. intros q. split.
        + intros (f & Hf & _). by apply elem_of_nil in Hf.
        + by intros [[? _]|[? _]].
      - exists []. rewrite app_nil_r. split; [done|]. intros q. split.
        + intros (f & Hf & _). by apply elem_of_nil in Hf.
        + by intros [[? _]|[? _]]. }
    destruct (IH (λ pt Hpt, Htype pt (list_elem_of_further _ _ _ Hpt)) (acc ++ new1))
      as (new2 & Hrun2 & Hspec2).
    exists (new1 ++ new2). cbn [for_fold].
    rewrite (bind_run _ _ _ _ _ Hrun1), Hrun2, app_assoc. split; [done|].
    intros q. split.
    + intros (f & [Hf|Hf]%elem_of_app & Hloc).
      * exists (p, t). split; [by left|]. apply Hspec1. eauto.
      * destruct (proj1 (Hspec2 q)) as (pt & Hpt & Hb); [by eauto|].
        exists pt. split; [by right|done].
    + intros (pt & [->|Hpt]%elem_of_cons & Hb).
      * apply Hspec1 in Hb as (f & Hf & Hloc). exists f. split; [|done].
        apply elem_of_app. by left.
      * destruct (proj2 (Hspec2 q)) as (f & Hf & Hloc); [by eauto|].
        exists f. split; [|done]. apply elem_of_app. by right.
Qed.

(** An entry below which something exists is a directory. *)
Lemma directory_above p q n :
  tree w !! q = Some n → strictly_below p q → node_at (tree w) p = Some NDir.
Proof.
  intros Hq [[k ->] Hne].
  destruct p as [|x p]; [done|]. cbn [node_at].
  destruct (tree_wf_above _ (x :: p) k n Hwf) as [m Hm]; [done|done|].
  destruct (decide (m = NDir)) as [->|Hm']; [done|]. exfalso.
  assert (tree w !! ((x :: p) ++ k) = None) as Hnone.
  { apply (tree_wf_below _ (x :: p)); [done|done|by rewrite Hm; intros [= ?]|].
    split; [by apply prefix_app_r|done]. }
  by rewrite Hnone in Hq.
Qed.

(** What a kept path contributes is what every path it covers would. *)
Lemma backed_up_by_kept items item q :
  item ∈ items → backed_up_by w item q →
  ∃ pt, pt ∈ uncovered w items ∧
        ((pt.2 = file ∧ locate w pt.1 = q) ∨
         (pt.2 = directory ∧ file_below w pt.1 q)).
Proof.
  intros Hitem Hq.
  (* the entry [q], and the type of [item] *)
  assert (∃ n, tree w !! q = Some n ∧ n ≠ NDir ∧
               locate w item `prefix_of` q ∧
               (locate w item = q → ∃ data, n = NFile data)) as (n & Hn & Hnd & Hpre & Hfile).
  { destruct Hq as [(data & Hd & Hloc)|(n & Hn & Hnd & Hb)].
    - exists (NFile data). rewrite Hloc. split; [done|]. split; [done|].
      split; [done|]. eauto.
    - exists n. split; [done|]. split; [done|]. split; [apply Hb|].
      intros Heq. by destruct Hb as [_ []]. }
  assert (node_at (tree w) (locate w item) ≠ None) as Hexists.
  { destruct (decide (locate w item = q)) as [Heq|Hne].
    - rewrite Heq. destruct q; [done|]. cbn [node_at]. by rewrite Hn.
    - by rewrite (directory_above (locate w item) q n). }
  assert ((realpath w item, is_path_exist w (realpath w item))
          ∈ existing_paths w items) as Hin.
  { apply elem_of_existing_paths. exists item. split; [done|]. split; [done|].
    split; [done|]. unfold is_path_exist. rewrite stat_realpath.
    by destruct (node_at (tree w) (locate w item)) as [[| |]|]. }
  destruct (exists_uncovered_ancestor w items _ _ Hin (le_n _)) as ([a ta] & Ha & Hpa).
  simpl in Hpa. rewrite realpath_locate in Hpa.
  pose proof (proj1 (elem_of_uncovered w items _) Ha) as [Hae _].
  apply elem_of_existing_paths in Hae as (ia & _ & Hra & Hta & _).
  exists (a, ta). split; [done|]. simpl.
  assert (stat w a = node_at (tree w) (locate w a)) as Hstat.
  { rewrite Hra, stat_realpath. by rewrite realpath_locate. }
  destruct (decide (locate w a = q)) as [Heq|Hne].
  - left. split; [|done].
    assert (locate w item = q) as Hiq.
    { apply (anti_symm prefix); [done|]. by rewrite <- Heq. }
    destruct (Hfile Hiq) as (data & ->).
    rewrite Hta. unfold is_path_exist. rewrite Hstat, Heq.
    destruct q; [by destruct (Hwf _ _ Hn) as (_ & ? & _)|].
    cbn [node_at]. by rewrite Hn.
  - right. assert (strictly_below (locate w a) q) as Hb.
    { split; [by transitivity (locate w item)|done]. }
    split.
    + rewrite Hta. unfold is_path_exist. rewrite Hstat.
      by rewrite (directory_above (locate w a) q n).
    + exists n. done.
Qed.

Lemma kept_backed_up items pt q :
  pt ∈ uncovered w items →
  (pt.2 = file ∧ locate w pt.1 = q) ∨ (pt.2 = directory ∧ file_below w pt.1 q) →
  ∃ item, item ∈ items ∧ backed_up_by w item q.
Proof.
  intros [Hpt _]%elem_of_uncovered Hq. destruct pt as [p t].
  apply elem_of_existing_paths in Hpt as (item & Hitem & -> & -> & _).
  simpl in Hq. exists item. split; [done|].
  destruct Hq as [[Hf Hloc]|[_ Hb]].
  - left. rewrite realpath_locate in Hloc.
    unfold is_path_exist in Hf. rewrite stat_realpath, Hloc in Hf.
    destruct q as [|x q]; [done|]. cbn [node_at] in Hf.
    destruct (tree w !! (x :: q)) as [[data| |]|] eqn:Hn; try done. eauto.
  - right. destruct Hb as (n & Hn & Hnd & Hb). exists n.
    by rewrite realpath_locate in Hb.
Qed.

End filtered.

(** X27.  What [get_filtered_files_list] returns.  In a well-formed tree
    where nothing is denied, with a budget larger than the depth of the
    tree, the call returns without effect a list without duplicates, and
    the paths of the list resolve exactly to the files the configured paths
    name and the entries that are not directories below the directories
    they name.  So dropping the paths that an ancestor covers loses no
    file. *)
Theorem filtered_files_list_spec (fuel : nat) (list_of_paths : list string)
    (w : world) :
  tree_wf (tree w) →
  denied_below w [] = false →
  (depth (tree w) < fuel)%nat →
  ∃ files,
    get_filtered_files_list fuel list_of_paths w = (Ret files, w) ∧
    NoDup files ∧
    ∀ q, (∃ f, f ∈ files ∧ locate w f = q) ↔
         (∃ item, item ∈ list_of_paths ∧ backed_up_by w item q).
Proof.
  intros Hwf Hden Hfuel.
  destruct (gather_loop w fuel Hwf Hden Hfuel (uncovered w list_of_paths)) with (acc := @nil string)
    as (new & Hrun & Hspec).
  { intros [p t] [Hpt _]%elem_of_uncovered.
    by apply elem_of_existing_paths in Hpt as (item & _ & _ & -> & _). }
  exists (remove_dups new). split; [|split; [apply NoDup_remove_dups|]].
  - unfold get_filtered_files_list.
    unfold mbind at 1, M_bind at 1, get_world at 1.
    unfold mbind at 1, M_bind at 1, lift at 1.
    rewrite pre_filtered_paths_spec.
    erewrite bind_run; [reflexivity|].
    rewrite (for_fold_ext _ _ (gather fuel)) by (by intros [p t] a). exact Hrun.
  - intros q. split.
    + intros (f & Hf & Hloc). apply (proj1 (elem_of_remove_dups _ _)) in Hf.
      destruct (proj1 (Hspec q)) as (pt & Hpt & Hc); [by eauto|].
      by apply (kept_backed_up w list_of_paths pt q).
    + intros (item & Hitem & Hb).
      destruct (backed_up_by_kept w Hwf list_of_paths item q Hitem Hb)
        as (pt & Hpt & Hc).
      destruct (proj2 (Hspec q)) as (f & Hf & Hloc); [by eauto|].
      exists f. split; [by apply elem_of_remove_dups|done].
Qed.

Lemma backup_file_object md5 config file_path entries w :
  ∃ entries' w',
    backup_file md5 config file_path (JDict entries) w = (Ret (JDict entries'), w').
Proof.
  unfold backup_file.
  destruct (calculate_checksum_cases md5 file_path w)
    as [(data & _ & Hcalc)|(ev & Hcalc & _)];
    rewrite (bind_run _ _ _ _ _ Hcalc); [|by eauto].
  destruct (differs _ _); [|by eauto].
  unfold mbind at 1, M_bind at 1, get_world at 1.
  destruct (copy_file_returns file_path
              (path_join (backup_destination config) (relpath w file_path "/")) w)
    as (t & [Hc|Hc]); rewrite (bind_run _ _ _ _ _ Hc); by eauto.
Qed.

Lemma backup_loop_object md5 config files :
  ∀ entries w, ∃ entries' w',
    for_fold files (backup_file md5 config) (JDict entries) w
    = (Ret (JDict entries'), w').
Proof.
  induction files as [|f files IH]; intros entries w; [by eauto|].
  cbn [for_fold].
  destruct (backup_file_object md5 config f entries w) as (e1 & w1 & H1).
  rewrite (bind_run _ _ _ _ _ H1). apply IH.
Qed.

Lemma tree_log_backup_file md5 config file_path checksums :
  preserves same_but_tree_log (backup_file md5 config file_path checksums).
Proof.
  intros w. unfold backup_file.
  destruct (calculate_checksum_cases md5 file_path w)
    as [(data & _ & Hcalc)|(ev & Hcalc & _)];
    rewrite (bind_run _ _ _ _ _ Hcalc); [|by apply preserves_logging].
  destruct checksums; try reflexivity.
  destruct (differs _ _); [|reflexivity].
  unfold mbind at 1, M_bind at 1, get_world at 1.
  destruct (copy_file_returns file_path
              (path_join (backup_destination config) (relpath w file_path "/")) w)
    as (t & [Hc|Hc]); rewrite (bind_run _ _ _ _ _ Hc);
    apply same_but_tree_log_with_log, same_but_tree_log_with_tree; reflexivity.
Qed.

(** X28.  A cycle completes ([daemon_main]).  In a well-formed tree where
    nothing is denied, with a budget larger than the depth of the tree, a
    loadable configuration, and a checksum document that is missing or an
    object, the cycle returns: it neither raises nor exits, whatever the
    copies do; it reports its end, leaves the checksum document an object
    and the config document holding the loaded configuration. *)
Theorem cycle_completes (md5 : string → N) (fuel : nat) (w : world)
    (config : dict) :
  tree_wf (tree w) →
  denied_below w [] = false →
  (depth (tree w) < fuel)%nat →
  loaded_config w = Some config →
  (checksums_json w = None ∨
   ∃ entries, checksums_json w = Some (Document (JDict entries))) →
  ∃ w' entries',
    daemon_cycle md5 fuel w = (Ret (), w') ∧
    head (log w') = Some (INFO, CycleDone) ∧
    checksums_json w' = Some (Document (JDict entries')) ∧
    config_json w' = Some (Document (JDict config)).
Proof.
  intros Hwf Hden Hfuel Hl Hck.
  destruct (get_config_file_loaded w config Hl) as (l & Hcfg).
  set (w1 := with_log (l ++ log w)
               (with_config_json (Some (Document (JDict config))) w)) in *.
  destruct (filtered_files_list_spec fuel (items_to_backup config) w1 Hwf Hden Hfuel)
    as (files & Hlist & _).
  assert (∃ entries w2,
            get_checksums_json PATH_TO_CHECKSUMS_JSON w1 = (Ret (JDict entries), w2) ∧
            config_json w2 = Some (Document (JDict config)))
    as (entries & w2 & Hload & Hc2).
  { unfold get_checksums_json. unfold_monad. simpl.
    destruct Hck as [->|(entries & ->)]; by eauto. }
  destruct (backup_loop_object md5 config files entries w2) as (entries' & w3 & Hloop).
  assert (config_json w3 = config_json w2) as Hc3.
  { pose proof (preserves_for_fold same_but_tree_log files
                  (backup_file md5 config) (JDict entries)
                  (λ f c, tree_log_backup_file md5 config f c) w2) as Hp.
    rewrite Hloop in Hp.
    by destruct (same_but_tree_log_fields _ _ Hp) as (_ & _ & ? & _). }
  exists (with_log ((INFO, CycleDone) :: (INFO, JsonSaved) :: log w3)
            (with_checksums_json (Some (Document (JDict entries'))) w3)), entries'.
  split.
  { unfold daemon_cycle.
    rewrite (bind_run _ _ _ _ _ Hcfg), (bind_run _ _ _ _ _ Hlist),
      (bind_run _ _ _ _ _ Hload), (bind_run _ _ _ _ _ Hloop).
    unfold save_json_file. unfold_monad. reflexivity. }
  split; [done|]. split; [done|]. simpl. congruence.
Qed.



Lemma resolved_path_valid w p :
  is_valid_mac_path (remove_escape_characters (realpath w p))
  = negb (Str.contains ":"%char (realpath w p)).
Proof.
  rewrite is_valid_mac_path_eq.
  assert (isabs (remove_escape_characters
                   (remove_escape_characters (realpath w p))) = true) as ->
    by reflexivity.
  unfold remove_escape_characters. by rewrite contains_remove_char_ne.
Qed.

(** X30.  The one way a resolved path is invalid ([add_backup_item],
    [remove_backup_item], [change_backup_destination], [paste_backup]).
    The path these commands check, [os.path.realpath] of the argument with
    backslashes removed, is valid exactly when the resolved path holds no
    colon; and when it holds one, each of the four commands returns after
    logging the invalid path and changes nothing else. *)
Theorem colon_paths_are_rejected (fuel : nat) (argument : string) (w : world) :
  is_valid_mac_path (remove_escape_characters (realpath w argument))
  = negb (Str.contains ":"%char (realpath w argument)) ∧
  (Str.contains ":"%char (realpath w argument) = true →
   add_backup_item argument w
   = (Ret (), with_log ((ERROR, PathInvalid argument) :: log w) w) ∧
   remove_backup_item argument w
   = (Ret (), with_log ((ERROR, PathInvalid argument) :: log w) w) ∧
   change_backup_destination fuel argument w
   = (Ret (), with_log ((ERROR, PathInvalid argument) :: log w) w) ∧
   paste_backup fuel argument w
   = (Ret (), with_log ((ERROR, PathInvalid argument) :: log w) w)).
Proof.
  split; [apply resolved_path_valid|]. intros Hc.
  assert (is_valid_mac_path (remove_escape_characters (realpath w argument)) = false)
    as Hv by (by rewrite resolved_path_valid, Hc).
  split; [by apply add_backup_item_invalid|].
  split; [by apply remove_backup_item_invalid|].
  split.
  - unfold change_backup_destination.
    unfold mbind at 1, M_bind at 1, get_world at 1. by rewrite Hv.
  - unfold paste_backup.
    unfold mbind at 1, M_bind at 1, get_world at 1. by rewrite Hv.
Qed.

Lemma filtered_files_list_spec_witness :
  tree_wf (tree sample_world) ∧
  denied_below sample_world [] = false ∧
  (depth (tree sample_world) < 4)%nat ∧
  ∃ files,
    get_filtered_files_list 4 sample_items sample_world = (Ret files, sample_world) ∧
    NoDup files ∧
    ∀ q, (∃ f, f ∈ files ∧ locate sample_world f = q) ↔
         (∃ item, item ∈ sample_items ∧ backed_up_by sample_world item q).
Proof.
  assert (denied_below sample_world [] = false) as H2 by (vm_compute; reflexivity).
  assert (depth (tree sample_world) < 4)%nat as H3 by (vm_compute; lia).
  split; [exact sample_tree_wf|]. split; [exact H2|]. split; [exact H3|].
  exact (filtered_files_list_spec 4 sample_items sample_world sample_tree_wf H2 H3).
Defined.

Lemma cycle_completes_witness :
  tree_wf (tree sample_world) ∧
  denied_below sample_world [] = false ∧
  (depth (tree sample_world) < 4)%nat ∧
  loaded_config sample_world = Some (sample_config 5 "/bk" sample_items) ∧
  checksums_json sample_world = None ∧
  ∃ w' entries',
    daemon_cycle sample_md5 4 sample_world = (Ret (), w') ∧
    checksums_json w' = Some (Document (JDict entries')).
Proof.
  assert (denied_below sample_world [] = false) as H2 by (vm_compute; reflexivity).
  assert (depth (tree sample_world) < 4)%nat as H3 by (vm_compute; lia).
  assert (loaded_config sample_world = Some (sample_config 5 "/bk" sample_items))
    as H4 by (vm_compute; reflexivity).
  split; [exact sample_tree_wf|]. split; [exact H2|]. split; [exact H3|].
  split; [exact H4|]. split; [reflexivity|].
  destruct (cycle_completes sample_md5 4 sample_world _ sample_tree_wf H2 H3 H4
              (or_introl eq_refl)) as (w' & entries' & Hrun & _ & Hc & _).
  exists w', entries'. split; [exact Hrun|exact Hc].
Defined.


Lemma colon_paths_are_rejected_witness :
  Str.contains ":"%char (realpath colon_world "new") = true ∧
  change_backup_destination 4 "new" colon_world
  = (Ret (), with_log ((ERROR, PathInvalid "new") :: log colon_world) colon_world).
Proof.
  assert (Str.contains ":"%char (realpath colon_world "new") = true) as H
    by (vm_compute; reflexivity).
  split; [exact H|].
  exact (proj1 (proj2 (proj2 (proj2 (colon_paths_are_rejected 4 "new" colon_world) H)))).
Defined.
